(** * RepoSaver: the frontend (Pinia store, Settings view, save list, notification
    overlay) and the backup engine's contract.

    The JavaScript of the frontend is embedded shallowly: JavaScript values are
    an inductive type with the language's own truthiness and [||]; the payload
    of an event is a [gmap string value] read under fixed property names; an
    object literal keyed by folder names is a plain object with its
    prototype; [setTimeout]/[clearTimeout] are an explicit timer queue with a
    clock; an [await] splits a handler into the part before it and the part
    run when the call settles; Tauri [invoke] calls are the list of commands a
    handler emits. *)

From Stdlib Require Import ZArith QArith Qcanon String Ascii List Lia.
From stdpp Require Import base numbers gmap strings list.

Local Open Scope string_scope.

(** ** JavaScript values *)

Module Js.

(** A JavaScript number: the finite doubles are rationals, compared exactly;
    the three non-finite values are kept apart. *)
Inductive number : Type :=
| Fin (q : Qc)
| NaN
| PosInf
| NegInf.

Inductive value : Type :=
| Undefined
| Null
| Bool (b : bool)
| Num (n : number)
| Str (s : string).

Definition of_Z (z : Z) : number := Fin (Q2Qc (inject_Z z)).
Definition int (z : Z) : value := Num (of_Z z).

#[global] Instance number_eq_dec : EqDecision number.
Proof. solve_decision. Defined.

#[global] Instance value_eq_dec : EqDecision value.
Proof. solve_decision. Defined.

(** ToBoolean: [undefined], [null], [false], [0], [NaN] and [''] are falsy. *)
Definition ToBoolean (v : value) : bool :=
  match v with
  | Undefined | Null => false
  | Bool b => b
  | Num (Fin q) => negb (bool_decide (q = 0%Qc))
  | Num NaN => false
  | Num _ => true
  | Str s => negb (bool_decide (s = EmptyString))
  end.

(** [a || b] *)
Definition or (a b : value) : value := if ToBoolean a then a else b.

(** [!a] *)
Definition not (a : value) : bool := negb (ToBoolean a).

(** [o.k] on an object used as a record: an absent property reads
    [undefined]. *)
Definition get (o : gmap string value) (k : string) : value :=
  default Undefined (o !! k).

(** [a < b] on numbers; every comparison with [NaN] is false. *)
Definition num_lt (a b : number) : bool :=
  match a, b with
  | NaN, _ | _, NaN => false
  | Fin x, Fin y => bool_decide (x < y)%Qc
  | NegInf, NegInf => false
  | NegInf, _ => true
  | _, NegInf => false
  | PosInf, _ => false
  | Fin _, PosInf => true
  end.

Section Coercion.
(** StringToNumber of the host engine, used when a string meets a number in
    a comparison. *)
Variable StringToNumber : string -> number.

Definition ToNumber (v : value) : number :=
  match v with
  | Undefined => NaN
  | Null => of_Z 0
  | Bool true => of_Z 1
  | Bool false => of_Z 0
  | Num n => n
  | Str s => StringToNumber s
  end.

(** [v < n] and [v > n] against a number literal [n]. *)
Definition lt_lit (v : value) (n : Z) : bool := num_lt (ToNumber v) (of_Z n).
Definition gt_lit (v : value) (n : Z) : bool := num_lt (of_Z n) (ToNumber v).
End Coercion.

End Js.

(** ** Plain objects

    [ref({})]: an object made by an object literal and used as a dictionary
    whose keys are folder names. Its prototype is [Object.prototype]: a read
    of a name the object does not hold itself reaches the members of
    [Object.prototype], and a write to [__proto__] runs the setter found
    there. The proxy a Vue [ref] hands out passes reads and writes on to the
    object, except for the names beginning with [__v_], which it answers
    itself: no property below is stated for those names. *)

Module PlainObject.

(** The function-valued members of [Object.prototype], the legacy ones of a
    web view included; [__proto__] is its one accessor. *)
Definition methods : list string :=
  ["constructor"; "hasOwnProperty"; "isPrototypeOf"; "propertyIsEnumerable";
   "toLocaleString"; "toString"; "valueOf";
   "__defineGetter__"; "__defineSetter__"; "__lookupGetter__"; "__lookupSetter__"].

(** What the read of a property gives: a primitive the object holds, or,
    through the prototype, [Object.prototype] itself (the getter of
    [__proto__]) or one of its functions. *)
Inductive member : Type :=
| Primitive (v : Js.value)
| Object_prototype
| Method (name : string).

#[global] Instance member_eq_dec : EqDecision member.
Proof. solve_decision. Defined.

(** The properties the object holds itself, and whether its prototype is
    still [Object.prototype] ([false]: it was set to [null]). *)
Record t : Type := { own : gmap string Js.value; has_prototype : bool }.

(** [{}] *)
Definition empty : t := {| own := ∅; has_prototype := true |}.

(** [Object.prototype[k]] *)
Definition inherited (k : string) : member :=
  if decide (k = "__proto__") then Object_prototype
  else if decide (k ∈ methods) then Method k
  else Primitive Js.Undefined.

(** [o[k]] *)
Definition get (o : t) (k : string) : member :=
  match own o !! k with
  | Some v => Primitive v
  | None => if has_prototype o then inherited k else Primitive Js.Undefined
  end.

(** [o[k] = v] for a primitive [v]. A name the object holds, or one that
    [Object.prototype] has as a (writable) function or not at all, becomes a
    property of the object. Otherwise the name is [__proto__] and the setter
    of [Object.prototype] runs: it changes the prototype when [v] is [null]
    and does nothing for any other primitive. *)
Definition set (o : t) (k : string) (v : Js.value) : t :=
  if has_prototype o && bool_decide (k = "__proto__")
     && bool_decide (own o !! k = None)
  then if decide (v = Js.Null) then {| own := own o; has_prototype := false |} else o
  else {| own := <[k := v]> (own o); has_prototype := has_prototype o |}.

(** ToBoolean: every object is truthy. *)
Definition ToBoolean (m : member) : bool :=
  match m with
  | Primitive v => Js.ToBoolean v
  | Object_prototype | Method _ => true
  end.

(** [m === v] against a primitive [v]: [NaN] differs from itself, and an
    object is no primitive. *)
Definition strict_eq (m : member) (v : Js.value) : bool :=
  match m with
  | Primitive (Js.Num Js.NaN) => false
  | Primitive u => bool_decide (u = v)
  | Object_prototype | Method _ => false
  end.

(** A name that works as a dictionary key: no member of [Object.prototype],
    and none of the names beginning with [__v_], which Vue keeps for the
    flags its proxies answer themselves. *)
Definition ordinary (k : string) : Prop :=
  (k ≠ "__proto__") /\ (k ∉ methods) /\ String.prefix "__v_" k = false.

#[global] Instance ordinary_dec k : Decision (ordinary k).
Proof. unfold ordinary. apply _. Defined.

End PlainObject.

(** ** Tauri commands

    What [invoke(name, args)] sends to the backend. *)

Module Tauri.

Inductive command : Type :=
| initialize_app
| save_settings (repoPath maxGenerations theme : Js.value)
| manual_backup (subfolderName : string)
| restore_backup (subfolderName timestamp : string)
| delete_backup (subfolderName timestamp : string)
| delete_subfolder (subfolderName : string)
| save_memo (subfolderName : string) (memoContent : PlainObject.member).

End Tauri.

(** ** stores/mainStore *)

Module MainStore.

Record backup : Type := { timestamp : string }.

Record item : Type := {
  name : string;
  memo : Js.value;
  backups : list backup;
  source_exists : Js.value
}.

Record state : Type := {
  settings : gmap string Js.value;
  items : list item;
  isConnected : bool
}.

(** [state: () => ({ settings: {...}, items: [], isConnected: false })] *)
Definition initial : state := {|
  settings :=
    <["repo_save_path" := Js.Str EmptyString]>
      (<["theme" := Js.Str "system"]>
         (<["max_generations" := Js.int 10]> ∅));
  items := [];
  isConnected := false
|}.

(** The events [init] subscribes to, with their payloads. *)
Inductive event : Type :=
| settings_state (payload : gmap string Js.value)
| backups_state (payload : list item)
| navigate_settings.

(** The listeners registered by [init]. *)
Definition on_event (e : event) (st : state) : state :=
  match e with
  | settings_state payload =>
      {| settings := payload; items := items st; isConnected := isConnected st |}
  | backups_state payload =>
      {| settings := settings st; items := payload; isConnected := isConnected st |}
  | navigate_settings => st
  end.

Definition on_events (es : list event) (st : state) : state :=
  fold_left (fun s e => on_event e s) es st.

(** [init], once both listeners are registered: [initialize_app] is invoked
    and [isConnected] is set when the call resolves ([ok]). *)
Definition init (ok : bool) (st : state) : state * list Tauri.command :=
  ({| settings := settings st; items := items st;
      isConnected := if ok then true else isConnected st |},
   [Tauri.initialize_app]).

Definition saveSettings (st : state) (newPath maxGenerations theme : Js.value)
  : Tauri.command :=
  Tauri.save_settings
    newPath
    (Js.or (Js.or maxGenerations (Js.get (settings st) "max_generations")) (Js.int 10))
    (Js.or (Js.or theme (Js.get (settings st) "theme")) (Js.Str "system")).

Definition triggerBackup (subfolderName : string) : Tauri.command :=
  Tauri.manual_backup subfolderName.

Definition restore (subfolderName timestamp : string) : Tauri.command :=
  Tauri.restore_backup subfolderName timestamp.

Definition deleteBackup (subfolderName timestamp : string) : Tauri.command :=
  Tauri.delete_backup subfolderName timestamp.

Definition deleteSubfolder (subfolderName : string) : Tauri.command :=
  Tauri.delete_subfolder subfolderName.

Definition saveMemo (subfolderName : string) (content : PlainObject.member)
  : Tauri.command :=
  Tauri.save_memo subfolderName content.

End MainStore.

(** ** Timers

    [setTimeout]/[clearTimeout] of one component: a clock in milliseconds and
    the pending timers kept in firing order (by due time, ties in the order
    they were set). The closure of a timer is a value of type [A]; the
    component runs it against its state at the moment the timer fires. *)

Module Timers.

Section Queue.
Context {A : Type}.

Record timer : Type := { id : positive; due : N; callback : A }.

Record queue : Type := { now : N; next_id : positive; pending : list timer }.

Definition empty : queue := {| now := 0; next_id := 1; pending := [] |}.

Fixpoint enqueue (t : timer) (l : list timer) : list timer :=
  match l with
  | [] => [t]
  | t' :: l' =>
      if (due t' <=? due t)%N then t' :: enqueue t l' else t :: t' :: l'
  end.

(** [setTimeout(cb, delay)] returns the new timer's id. *)
Definition setTimeout (cb : A) (delay : N) (q : queue) : positive * queue :=
  (next_id q,
   {| now := now q;
      next_id := Pos.succ (next_id q);
      pending :=
        enqueue {| id := next_id q; due := (now q + delay)%N; callback := cb |}
                (pending q) |}).

(** [clearTimeout(i)]: a timer that already fired, or was cleared, is not in
    the queue and nothing happens. *)
Definition clearTimeout (i : positive) (q : queue) : queue :=
  {| now := now q;
     next_id := next_id q;
     pending := filter (fun t => id t ≠ i) (pending q) |}.

(** [if (t) clearTimeout(t)] for a variable holding [null] or a timer id
    (ids are positive, hence truthy). *)
Definition clear_if_set (t : option positive) (q : queue) : queue :=
  match t with
  | Some i => clearTimeout i q
  | None => q
  end.

(** [d] milliseconds pass: the timers that came due fire, in order. *)
Definition elapse (d : N) (q : queue) : list A * queue :=
  let t := (now q + d)%N in
  (callback <$> filter (fun x => (due x <= t)%N) (pending q),
   {| now := t;
      next_id := next_id q;
      pending := filter (fun x => ¬ (due x <= t)%N) (pending q) |}).

(** The next timer fires (the clock moves to its due time if that is still
    ahead). *)
Definition fire_next (q : queue) : option (A * queue) :=
  match pending q with
  | [] => None
  | t :: l =>
      Some (callback t,
            {| now := N.max (now q) (due t); next_id := next_id q; pending := l |})
  end.
End Queue.

Arguments timer : clear implicits.
Arguments queue : clear implicits.

End Timers.

(** ** components/Settings.vue *)

Module Settings.

(** The closure both debounce timers carry:
    [() => store.saveSettings(localPath.value, maxGenerations.value, theme.value)]. *)
Inductive closure : Type := SaveSettings.

Record state : Type := {
  localPath : Js.value;
  maxGenerations : Js.value;
  theme : Js.value;
  pathTimer : option positive;
  generationsTimer : option positive;
  timers : Timers.queue closure
}.

(** The three watcher callbacks. *)
Definition watch_repo_save_path (newVal : Js.value) (v : state) : state :=
  {| localPath := newVal; maxGenerations := maxGenerations v; theme := theme v;
     pathTimer := pathTimer v; generationsTimer := generationsTimer v;
     timers := timers v |}.

Definition watch_max_generations (newVal : Js.value) (v : state) : state :=
  {| localPath := localPath v; maxGenerations := Js.or newVal (Js.int 10);
     theme := theme v;
     pathTimer := pathTimer v; generationsTimer := generationsTimer v;
     timers := timers v |}.

Definition watch_theme (newVal : Js.value) (v : state) : state :=
  {| localPath := localPath v; maxGenerations := maxGenerations v;
     theme := Js.or newVal (Js.Str "system");
     pathTimer := pathTimer v; generationsTimer := generationsTimer v;
     timers := timers v |}.

(** [<script setup>]: the refs are created and, the watchers being
    [immediate], each callback runs once against the store. *)
Definition setup (st : MainStore.state) : state :=
  let v0 := {| localPath := Js.Str EmptyString; maxGenerations := Js.int 10;
               theme := Js.Str "system";
               pathTimer := None; generationsTimer := None;
               timers := Timers.empty |} in
  watch_theme (Js.get (MainStore.settings st) "theme")
    (watch_max_generations (Js.get (MainStore.settings st) "max_generations")
       (watch_repo_save_path (Js.get (MainStore.settings st) "repo_save_path") v0)).

(** A watcher runs its callback when the watched expression changed. *)
Definition rerun (k : string) (cb : Js.value -> state -> state)
    (old new : MainStore.state) (v : state) : state :=
  let a := Js.get (MainStore.settings old) k in
  let b := Js.get (MainStore.settings new) k in
  if decide (a = b) then v else cb b v.

Definition on_store_change (old new : MainStore.state) (v : state) : state :=
  rerun "theme" watch_theme old new
    (rerun "max_generations" watch_max_generations old new
       (rerun "repo_save_path" watch_repo_save_path old new v)).

Definition onPathInput (v : state) : state :=
  let q := Timers.clear_if_set (pathTimer v) (timers v) in
  let '(i, q') := Timers.setTimeout SaveSettings 500 q in
  {| localPath := localPath v; maxGenerations := maxGenerations v; theme := theme v;
     pathTimer := Some i; generationsTimer := generationsTimer v;
     timers := q' |}.

Section Host.
Variable StringToNumber : string -> Js.number.

(** The two range corrections at the head of [onMaxGenerationsInput]. *)
Definition limit (x : Js.value) : Js.value :=
  let x1 := if Js.lt_lit StringToNumber x 1 then Js.int 1 else x in
  if Js.gt_lit StringToNumber x1 100 then Js.int 100 else x1.

Definition onMaxGenerationsInput (v : state) : state :=
  let q := Timers.clear_if_set (generationsTimer v) (timers v) in
  let '(i, q') := Timers.setTimeout SaveSettings 500 q in
  {| localPath := localPath v; maxGenerations := limit (maxGenerations v);
     theme := theme v;
     pathTimer := pathTimer v; generationsTimer := Some i;
     timers := q' |}.

(** The user edits the retention field: [v-model.number] has stored the
    entered value in [maxGenerations] when the [@input] handler runs. *)
Definition type_maxGenerations (entered : Js.value) (v : state) : state :=
  onMaxGenerationsInput
    {| localPath := localPath v; maxGenerations := entered; theme := theme v;
       pathTimer := pathTimer v; generationsTimer := generationsTimer v;
       timers := timers v |}.
End Host.

Definition onThemeChange (st : MainStore.state) (newTheme : Js.value) (v : state)
  : Tauri.command :=
  MainStore.saveSettings st (localPath v) (maxGenerations v) newTheme.

(** A timer closure runs: the refs are read when it fires. *)
Definition run_closure (st : MainStore.state) (v : state) (c : closure)
  : Tauri.command :=
  match c with
  | SaveSettings =>
      MainStore.saveSettings st (localPath v) (maxGenerations v) (theme v)
  end.

(** [d] milliseconds pass without input. *)
Definition wait (st : MainStore.state) (d : N) (v : state)
  : state * list Tauri.command :=
  let '(fired, q') := Timers.elapse d (timers v) in
  ({| localPath := localPath v; maxGenerations := maxGenerations v; theme := theme v;
      pathTimer := pathTimer v; generationsTimer := generationsTimer v;
      timers := q' |},
   run_closure st v <$> fired).

End Settings.

(** ** components/NotificationOverlay.vue *)

Module NotificationOverlay.

Inductive closure : Type :=
| HideCard     (* the 3000 ms timer: hide the card, then the window *)
| HideWindow.  (* the 300 ms timer set by [HideCard] *)

(** [window_wanted]: what the overlay last asked of its window, [show()]
    ([true]) or [hide()] ([false]; so it is before the first call, the window
    being created hidden). [suspended]: the runs of the listener that wait
    at [await win.show()]. *)
Record state : Type := {
  message : Js.value;
  title : Js.value;
  type : Js.value;
  visible : bool;
  timer : option positive;
  window_wanted : bool;
  suspended : nat;
  timers : Timers.queue closure
}.

(** The refs of [<script setup>]; the window is created hidden. *)
Definition initial : state := {|
  message := Js.Str EmptyString; title := Js.Str EmptyString; type := Js.Str "info";
  visible := false; timer := None; window_wanted := false; suspended := 0;
  timers := Timers.empty
|}.

(** Modelled from the spec: the severities of a user-facing event (the
    emitter is in the backend, whose sources are missing). *)
Inductive severity : Type := SevInfo | SevSuccess | SevError.

(** Modelled from the spec: the user-facing event, carrying a severity, a
    short title and a message body. *)
Record notification : Type := {
  n_severity : severity;
  n_title : string;
  n_body : string
}.

Definition severity_name (v : severity) : string :=
  match v with
  | SevInfo => "info"
  | SevSuccess => "success"
  | SevError => "error"
  end.

(** The payload of such an event, under the property names the listener
    reads. *)
Definition payload_of (n : notification) : gmap string Js.value :=
  <["title" := Js.Str (n_title n)]>
    (<["body" := Js.Str (n_body n)]>
       (<["type" := Js.Str (severity_name (n_severity n))]> ∅)).

(** The listener of ['show-notification'] up to [await win.show()]: the
    refs are assigned and the window is asked to show; the run is then
    suspended until the call settles. *)
Definition on_show_notification (payload : gmap string Js.value) (s : state) : state :=
  {| title := Js.get payload "title";
     message := Js.get payload "body";
     type := Js.or (Js.get payload "type") (Js.Str "info");
     visible := true;
     window_wanted := true;
     suspended := S (suspended s);
     timer := timer s;
     timers := timers s |}.

(** The rest of the listener, run once [win.show()] has resolved: the timer
    held by [timer] is cleared, and the card timer is set anew. *)
Definition after_show (s : state) : state :=
  let q := Timers.clear_if_set (timer s) (timers s) in
  let '(i, q') := Timers.setTimeout HideCard 3000 q in
  {| title := title s; message := message s; type := type s;
     visible := visible s; window_wanted := window_wanted s;
     suspended := pred (suspended s);
     timer := Some i;
     timers := q' |}.

(** [win.show()] rejected: the run of the listener ends there, no timer is
    set. *)
Definition show_rejected (s : state) : state :=
  {| title := title s; message := message s; type := type s;
     visible := visible s; window_wanted := window_wanted s;
     suspended := pred (suspended s);
     timer := timer s; timers := timers s |}.

Definition run_closure (c : closure) (s : state) (q : Timers.queue closure) : state :=
  match c with
  | HideCard =>
      {| title := title s; message := message s; type := type s;
         visible := false; window_wanted := window_wanted s;
         suspended := suspended s; timer := timer s;
         timers := snd (Timers.setTimeout HideWindow 300 q) |}
  | HideWindow =>
      {| title := title s; message := message s; type := type s;
         visible := visible s; window_wanted := false;
         suspended := suspended s; timer := timer s;
         timers := q |}
  end.

(** The next pending timer fires. *)
Definition on_timer (s : state) : state :=
  match Timers.fire_next (timers s) with
  | Some (c, q) => run_closure c s q
  | None => s
  end.

(** [s.includes(sub)] on strings. *)
Fixpoint includes (s sub : string) : bool :=
  if String.prefix sub s then true
  else match s with
       | EmptyString => false
       | String _ s' => includes s' sub
       end.

(** [title.value.includes(...)]: only a string has the method; on anything
    else the call throws. *)
Definition title_includes (s : state) (sub : string) : option bool :=
  match title s with
  | Js.Str t => Some (includes t sub)
  | _ => None
  end.

Definition currentIcon (s : state) : option string :=
  b ← title_includes s "バックアップ";
  if b : bool then Some "mdi-floppy" else
  r ← title_includes s "リストア";
  if r : bool then Some "mdi-restore" else
  d ← title_includes s "削除";
  if d : bool then Some "mdi-delete" else
  Some "mdi-check-circle".

Definition typeColor (s : state) : option string :=
  b ← title_includes s "バックアップ";
  if b : bool then Some "primary" else
  r ← title_includes s "リストア";
  if r : bool then Some "success" else
  d ← title_includes s "削除";
  if d : bool then Some "error" else
  Some "success".

(** The notification card of the template: its colour and icon, and the
    values interpolated as [{{ title }}] and [{{ message }}]. *)
Record card : Type := {
  color : string;
  icon : string;
  card_title : Js.value;
  card_message : Js.value
}.

Inductive rendering : Type :=
| Threw                  (* a computed property threw while rendering *)
| NoCard                 (* [v-if="visible"] is false *)
| Card (c : card).

Definition render (s : state) : rendering :=
  if visible s then
    match typeColor s, currentIcon s with
    | Some c, Some i =>
        Card {| color := c; icon := i;
                card_title := title s; card_message := message s |}
    | _, _ => Threw
    end
  else NoCard.

End NotificationOverlay.

(** ** dayjs with the customParseFormat plugin

    The library is a dependency of the frontend ([main.js] extends it with
    customParseFormat). What [formatDate] uses of it is modelled here: the
    plugin's parser run on the tokens of a format, the host's [Date] built from
    the parsed fields in the host's time zone, and [format]. *)

Module Dayjs.

Local Open Scope Z_scope.

(** The value of a decimal digit, from its character code. *)
Definition digit_of (c : ascii) : option Z :=
  let code := Z.of_N (N_of_ascii c) in
  if (48 <=? code) && (code <=? 57) then Some (code - 48) else None.

Definition is_digit (c : ascii) : bool :=
  match digit_of c with Some _ => true | None => false end.

(** The character of the digit [d], for [d] from 0 to 9. *)
Definition digit_char (d : Z) : ascii := ascii_of_N (Z.to_N (48 + d)).

(** *** The parser of customParseFormat *)

(** The plugin's regular expressions [/\d\d/], [/\d{4}/] and [/\d\d?/]. *)
Inductive regex : Type := match2 | match4 | match1to2.

(** [n] digits at the head of [s]. *)
Fixpoint digits_prefix (n : nat) (s : string) : option string :=
  match n with
  | O => Some EmptyString
  | S n' =>
      match s with
      | String c s' =>
          if is_digit c then String c <$> digits_prefix n' s' else None
      | EmptyString => None
      end
  end.

Definition exec_here (r : regex) (s : string) : option string :=
  match r with
  | match2 => digits_prefix 2 s
  | match4 => digits_prefix 4 s
  | match1to2 =>
      match digits_prefix 2 s with
      | Some v => Some v
      | None => digits_prefix 1 s
      end
  end.

(** [regex.exec(part)]: the leftmost match, or [null]. *)
Fixpoint exec (r : regex) (part : string) : option string :=
  match exec_here r part with
  | Some v => Some v
  | None =>
      match part with
      | EmptyString => None
      | String _ rest => exec r rest
      end
  end.

(** [input.slice(start)] *)
Fixpoint slice (start : nat) (input : string) : string :=
  match start, input with
  | O, _ => input
  | S n, String _ rest => slice n rest
  | S _, EmptyString => EmptyString
  end.

(** [input.replace(value, '')]: the first occurrence of [value] is removed. *)
Fixpoint remove_first (value input : string) : string :=
  if String.prefix value input then slice (String.length value) input
  else match input with
       | EmptyString => EmptyString
       | String c rest => String c (remove_first value rest)
       end.

(** [+value] on a string of digits. *)
Definition to_number (value : string) : Z :=
  fold_left (fun acc c => 10 * acc + default 0 (digit_of c))
            (list_ascii_of_string value) 0.

Inductive field : Type := year | month | day | hours | minutes | seconds.

(** The object [time] the parser fills in; an unset property is [None]. *)
Record time : Type := {
  t_year : option Z; t_month : option Z; t_day : option Z;
  t_hours : option Z; t_minutes : option Z; t_seconds : option Z
}.

Definition no_time : time :=
  {| t_year := None; t_month := None; t_day := None;
     t_hours := None; t_minutes := None; t_seconds := None |}.

(** [addInput(property)]: [this[property] = +input]. *)
Definition addInput (f : field) (v : Z) (t : time) : time :=
  match f with
  | year => {| t_year := Some v; t_month := t_month t; t_day := t_day t;
               t_hours := t_hours t; t_minutes := t_minutes t; t_seconds := t_seconds t |}
  | month => {| t_year := t_year t; t_month := Some v; t_day := t_day t;
                t_hours := t_hours t; t_minutes := t_minutes t; t_seconds := t_seconds t |}
  | day => {| t_year := t_year t; t_month := t_month t; t_day := Some v;
              t_hours := t_hours t; t_minutes := t_minutes t; t_seconds := t_seconds t |}
  | hours => {| t_year := t_year t; t_month := t_month t; t_day := t_day t;
                t_hours := Some v; t_minutes := t_minutes t; t_seconds := t_seconds t |}
  | minutes => {| t_year := t_year t; t_month := t_month t; t_day := t_day t;
                  t_hours := t_hours t; t_minutes := Some v; t_seconds := t_seconds t |}
  | seconds => {| t_year := t_year t; t_month := t_month t; t_day := t_day t;
                  t_hours := t_hours t; t_minutes := t_minutes t; t_seconds := Some v |}
  end.

(** A format, cut into tokens: separator text, or an expression with the
    regex that reads it and the field it sets. *)
Inductive token : Type :=
| Sep (text : string)
| Expr (r : regex) (f : field).

(** ["YYYYMMDD_HHmmss"] *)
Definition YYYYMMDD_HHmmss : list token :=
  [Expr match4 year; Expr match2 month; Expr match2 day; Sep "_";
   Expr match1to2 hours; Expr match1to2 minutes; Expr match1to2 seconds].

(** The loop of the function [makeParser] returns. [None]: a regex did not
    match and [match[0]] threw. *)
Fixpoint parser (ts : list token) (input : string) (start : nat) (t : time)
  : option time :=
  match ts with
  | [] => Some t
  | Sep text :: ts' => parser ts' input (start + String.length text)%nat t
  | Expr r f :: ts' =>
      match exec r (slice start input) with
      | None => None
      | Some value =>
          parser ts' (remove_first value input) start (addInput f (to_number value) t)
      end
  end.

(** *** The host's Date *)

(** What the getters of a Date return, in local time. [MM] is the month
    index, 0 for January, as [getMonth] returns it. *)
Record date : Type := { YYYY : Z; MM : Z; DD : Z; hh : Z; mm : Z; ss : Z }.

Definition leap (y : Z) : bool :=
  ((y mod 4 =? 0) && negb (y mod 100 =? 0)) || (y mod 400 =? 0).

Definition days_in_month (y m0 : Z) : Z :=
  match m0 with
  | 1 => if leap y then 29 else 28
  | 3 | 5 | 8 | 10 => 30
  | _ => 31
  end.

Definition next_month (y m0 : Z) : Z * Z :=
  if m0 =? 11 then (y + 1, 0) else (y, m0 + 1).

Definition prev_month (y m0 : Z) : Z * Z :=
  if m0 =? 0 then (y - 1, 11) else (y, m0 - 1).

(** Day [d] counted from the first of month [m0] of year [y], brought into
    the month it falls in. *)
Fixpoint roll (fuel : nat) (y m0 d : Z) : Z * Z * Z :=
  match fuel with
  | O => (y, m0, d)
  | S fuel' =>
      if d <? 1 then
        let '(y', m') := prev_month y m0 in
        roll fuel' y' m' (d + days_in_month y' m')
      else if days_in_month y m0 <? d then
        let '(y', m') := next_month y m0 in
        roll fuel' y' m' (d - days_in_month y m0)
      else (y, m0, d)
  end.

(** The date and time that fields name: fields out of range carry over
    into the next unit. *)
Definition carry (y M d h m s : Z) : date :=
  let secs := h * 3600 + m * 60 + s in
  let d := d + secs / 86400 in
  let tod := secs mod 86400 in
  let '(y', m', d') := roll (S (Z.abs_nat d)) (y + M / 12) (M mod 12) d in
  {| YYYY := y'; MM := m'; DD := d';
     hh := tod / 3600; mm := tod mod 3600 / 60; ss := tod mod 60 |}.

(** [DayFromYear(y)]: the days from 1 January 1970 to 1 January of [y]. *)
Definition DayFromYear (y : Z) : Z :=
  365 * (y - 1970) + (y - 1969) / 4 - (y - 1901) / 100 + (y - 1601) / 400.

(** The days of year [y] before the first of month [m0]. *)
Definition days_before_month (y m0 : Z) : Z :=
  fold_left (fun acc i => acc + days_in_month y i) (seqZ 0 m0) 0.

(** The time value of a date and time in range, in milliseconds since
    1 January 1970, 00:00:00. *)
Definition time_value (c : date) : Z :=
  ((DayFromYear (YYYY c) + days_before_month (YYYY c) (MM c) + (DD c - 1)) * 86400
   + hh c * 3600 + mm c * 60 + ss c) * 1000.

(** The time zone of the host, as ECMAScript's [LocalTZA(t, isUTC)]: the
    offset of local time from UTC in milliseconds, at the instant [t] when
    [isUTC], and otherwise for the local time value [t]. Where a transition
    skips local times (the clock is put forward), a skipped local time is
    given the offset in force before the transition. *)
Definition zone : Type := Z -> bool -> Z.

Definition UTC (tz : zone) (t : Z) : Z := t - tz t false.

Definition LocalTime (tz : zone) (t : Z) : Z := t + tz t true.

(** [new Date(y, M, d, h, m, s)], as its getters read it back. A year from
    0 to 99 means 1900 + y, and fields out of range carry over. The Date
    holds the instant [UTC(tv)] of the local time value [tv] its fields
    name, and [getFullYear()] to [getSeconds()] are the fields of
    [LocalTime] of that instant: those of [tv] moved by the difference of the
    two offsets, which is zero unless the zone skips the local time. *)
Definition new_Date (tz : zone) (y M d h m s : Z) : date :=
  let y := if (0 <=? y) && (y <=? 99) then 1900 + y else y in
  let c := carry y M d h m s in
  let tv := time_value c in
  let moved := LocalTime tz (UTC tz tv) - tv in
  carry (YYYY c) (MM c) (DD c) (hh c) (mm c) (ss c + moved / 1000).

(** [x || y] on a number that may be unset: [undefined] and [0] are falsy. *)
Definition or_num (x : option Z) (y : Z) : Z :=
  match x with
  | Some v => if v =? 0 then y else v
  | None => y
  end.

Definition truthy (x : option Z) : bool :=
  match x with
  | Some v => negb (v =? 0)
  | None => false
  end.

(** [parseFormattedInput(input, format)]; [tz] is the time zone of the
    host and [now] is [new Date()] in local time. [None] is the invalid date
    the [catch] returns. *)
Definition parseFormattedInput (tz : zone) (now : date) (input : string)
    (format : list token) : option date :=
  match parser format input 0 no_time with
  | None => None
  | Some t =>
      let d := or_num (t_day t)
                 (if negb (truthy (t_year t)) && negb (truthy (t_month t))
                  then DD now else 1) in
      let y := or_num (t_year t) (YYYY now) in
      let M :=
        if negb (truthy (t_year t) && negb (truthy (t_month t))) then
          match t_month t with
          | Some mo => if 0 <? mo then mo - 1 else MM now
          | None => MM now
          end
        else 0 in
      let h := or_num (t_hours t) 0 in
      let m := or_num (t_minutes t) 0 in
      let s := or_num (t_seconds t) 0 in
      Some (new_Date tz y M d h m s)
  end.

(** *** format *)

Fixpoint decimal_loop (fuel : nat) (n : Z) (acc : string) : string :=
  match fuel with
  | O => acc
  | S fuel' =>
      let acc' := String (digit_char (n mod 10)) acc in
      if n / 10 =? 0 then acc' else decimal_loop fuel' (n / 10) acc'
  end.

(** [String(n)] for an integer. *)
Definition decimal (n : Z) : string :=
  if n <? 0 then String "-" (decimal_loop (S (Z.abs_nat n)) (- n) EmptyString)
  else decimal_loop (S (Z.abs_nat n)) n EmptyString.

Fixpoint zeros (n : nat) : string :=
  match n with
  | O => EmptyString
  | S n' => String "0" (zeros n')
  end.

(** [Utils.s(n, length, '0')]: pad on the left up to [len] characters. *)
Definition padStart (n : Z) (len : nat) : string :=
  let s := decimal n in
  (zeros (len - String.length s) ++ s)%string.

Inductive ftoken : Type :=
| Lit (text : string)
| F_YYYY | F_MM | F_DD | F_HH | F_mm | F_ss.

(** ["YYYY-MM-DD HH:mm:ss"] *)
Definition YYYY_MM_DD_HH_mm_ss : list ftoken :=
  [F_YYYY; Lit "-"; F_MM; Lit "-"; F_DD; Lit " "; F_HH; Lit ":"; F_mm; Lit ":"; F_ss].

Definition format_token (d : date) (t : ftoken) : string :=
  match t with
  | Lit text => text
  | F_YYYY => padStart (YYYY d) 4
  | F_MM => padStart (MM d + 1) 2
  | F_DD => padStart (DD d) 2
  | F_HH => padStart (hh d) 2
  | F_mm => padStart (mm d) 2
  | F_ss => padStart (ss d) 2
  end.

Definition format (d : option date) (f : list ftoken) : string :=
  match d with
  | None => "Invalid Date"
  | Some d => String.concat EmptyString (format_token d <$> f)
  end.

End Dayjs.

(** ** components/SaveList.vue *)

Module SaveList.

Record state : Type := {
  expanded : PlainObject.t;
  memos : PlainObject.t;
  memoTimer : option positive;
  (** a pending timer carries the [folderName] its closure captured *)
  timers : Timers.queue string
}.

Definition initial : state :=
  {| expanded := PlainObject.empty; memos := PlainObject.empty;
     memoTimer := None; timers := Timers.empty |}.

(** [expanded.value[name] = !expanded.value[name]] *)
Definition toggle (name : string) (s : state) : state :=
  {| expanded :=
       PlainObject.set (expanded s) name
         (Js.Bool (negb (PlainObject.ToBoolean (PlainObject.get (expanded s) name))));
     memos := memos s; memoTimer := memoTimer s; timers := timers s |}.

(** The watcher on [items]. [focused] is whether the active element is a
    memo input. *)
Definition sync_memo (focused : bool) (m : PlainObject.t) (it : MainStore.item)
  : PlainObject.t :=
  let cur := PlainObject.get m (MainStore.name it) in
  if PlainObject.strict_eq cur Js.Undefined
     || (negb (PlainObject.strict_eq cur (MainStore.memo it)) && negb focused)
  then PlainObject.set m (MainStore.name it) (MainStore.memo it)
  else m.

Definition watch_items (focused : bool) (newItems : list MainStore.item) (s : state)
  : state :=
  {| expanded := expanded s;
     memos := fold_left (sync_memo focused) newItems (memos s);
     memoTimer := memoTimer s; timers := timers s |}.

Definition onMemoInput (folderName : string) (s : state) : state :=
  let q := Timers.clear_if_set (memoTimer s) (timers s) in
  let '(i, q') := Timers.setTimeout folderName 1000 q in
  {| expanded := expanded s; memos := memos s; memoTimer := Some i; timers := q' |}.

(** The closure of the memo timer:
    [() => store.saveMemo(folderName, memos.value[folderName])]. *)
Definition run_closure (s : state) (folderName : string) : Tauri.command :=
  MainStore.saveMemo folderName (PlainObject.get (memos s) folderName).

(** [formatDate]; [tz] is the host's time zone and [now] its current local
    date. *)
Definition formatDate (tz : Dayjs.zone) (now : Dayjs.date) (tsStr : string) : string :=
  Dayjs.format (Dayjs.parseFormattedInput tz now tsStr Dayjs.YYYYMMDD_HHmmss)
               Dayjs.YYYY_MM_DD_HH_mm_ss.

Definition manualBackup (folderName : string) : Tauri.command :=
  MainStore.triggerBackup folderName.

Definition restore (folderName timestamp : string) : Tauri.command :=
  MainStore.restore folderName timestamp.

(** *** The template's controls for one item

    [:disabled] of each button, and what a click sends: a disabled button
    dispatches no click. *)

Definition backup_disabled (it : MainStore.item) : bool :=
  Js.not (MainStore.source_exists it).

Definition click_backup (it : MainStore.item) : list Tauri.command :=
  if backup_disabled it then [] else [manualBackup (MainStore.name it)].

Definition restore_disabled (it : MainStore.item) : bool :=
  bool_decide (length (MainStore.backups it) = 0%nat).

Definition click_restore_latest (it : MainStore.item) : list Tauri.command :=
  match MainStore.backups it with
  | [] => []
  | bk :: _ => [restore (MainStore.name it) (MainStore.timestamp bk)]
  end.

(** *** What happens to the view over time *)

Inductive event : Type :=
| MemoInput (folderName : string) (text : string)
    (* the user edits the memo field of a category: [v-model] assigns
       [memos[item.name]], then [onMemoInput(item.name)] runs *)
| ItemsChanged (focused : bool) (newItems : list MainStore.item)
    (* the store published a new list *)
| Wait (d : N).
    (* [d] milliseconds pass *)

Definition step (e : event) (s : state) : state * list Tauri.command :=
  match e with
  | MemoInput folderName text =>
      (onMemoInput folderName
         {| expanded := expanded s;
            memos := PlainObject.set (memos s) folderName (Js.Str text);
            memoTimer := memoTimer s; timers := timers s |},
       [])
  | ItemsChanged focused newItems => (watch_items focused newItems s, [])
  | Wait d =>
      let '(fired, q') := Timers.elapse d (timers s) in
      ({| expanded := expanded s; memos := memos s; memoTimer := memoTimer s;
          timers := q' |},
       run_closure s <$> fired)
  end.

(** The commands sent while a sequence of events happens. *)
Fixpoint run (es : list event) (s : state) : state * list Tauri.command :=
  match es with
  | [] => (s, [])
  | e :: es' =>
      let '(s1, out1) := step e s in
      let '(s2, out2) := run es' s1 in
      (s2, (out1 ++ out2)%list)
  end.

End SaveList.

(** ** The backup engine

    The engine runs in the backend process; the frontend above only reaches it
    through the Tauri commands. *)

Module Engine.

(** Modelled from the spec: a directory tree, as the files it holds in the
    order a copy visits them (the filesystem layer of the backend is missing). *)
Definition tree : Type := list (string * string).

(** Modelled from the spec: the Snapshot record of the data model
    (timestamp identifier, [is_auto] flag, the copied directory tree). *)
Record snapshot : Type := {
  timestamp : string;
  is_auto : bool;
  content : tree
}.

(** Modelled from the spec: the Settings record of the data model. *)
Record settings : Type := {
  repo_save_path : string;
  max_generations : nat;
  theme : string
}.

(** Modelled from the spec: the defaults the startup falls back to. *)
Definition defaults : settings :=
  {| repo_save_path := EmptyString; max_generations := 10; theme := "system" |}.

(** Modelled from the spec: the engine's view of the disk, whose code is
    missing. [live] holds the subfolders present under the watched root,
    [archive] the snapshots of every Category, newest first. *)
Record state : Type := {
  config : settings;
  live : gmap string tree;
  archive : gmap string (list snapshot)
}.

(** Modelled from the spec: the error kinds of the error handling design. *)
Inductive error : Type :=
| SourceMissing
| NotFound
| SourceLocked
| PartialFailure
| IOError.

(** Modelled from the spec: what the filesystem does during one operation,
    since copies and removals can fail (the filesystem layer is missing).
    [copy_fails_at = Some k]: the copy fails at its [k]-th file;
    [remove_ok s]: the directory of snapshot [s] can be removed;
    [locked]: the live subfolder cannot be replaced (files in use);
    [swap_fails_at = Some k]: the delete-and-move step fails at its [k]-th
    file. *)
Record filesystem : Type := {
  copy_fails_at : option nat;
  remove_ok : snapshot -> bool;
  locked : bool;
  swap_fails_at : option nat
}.

(** A filesystem on which nothing fails. *)
Definition healthy : filesystem :=
  {| copy_fails_at := None; remove_ok := fun _ => true;
     locked := false; swap_fails_at := None |}.

Definition snapshots (st : state) (category : string) : list snapshot :=
  default [] (archive st !! category).

(** Modelled from the spec: a copy of a directory tree, file by file (the
    copy routine is missing); it completes in full or fails part-way. *)
Inductive copied : Type :=
| Complete (t : tree)
| Partial (t : tree).

Definition copy_tree (fails_at : option nat) (src : tree) : copied :=
  match fails_at with
  | Some k => if (k <? length src)%nat then Partial (take k src) else Complete src
  | None => Complete src
  end.

(** Modelled from the spec: the removals of [prune] (Generation Store, whose
    code is missing); [doomed] lists the excess snapshots oldest first.
    Returns the snapshots whose directory could not be removed, in the order
    the removals were tried. *)
Definition remove_all (fs : filesystem) (doomed : list snapshot) : list snapshot :=
  filter (fun s => remove_ok fs s = false) doomed.

(** Modelled from the spec: [prune(category, limit)] of the Generation Store
    (missing from the sources), on a Category's list, newest first: the
    [limit] newest stay in the list, the directories of the others are
    deleted oldest first. The second component is the log of pruning
    failures, the snapshots whose directory could not be removed: a failure
    is logged, the list holds at most [limit] snapshots all the same. *)
Definition prune_list (fs : filesystem) (limit : nat) (snaps : list snapshot)
  : list snapshot * list snapshot :=
  (take limit snaps, remove_all fs (rev (drop limit snaps))).

Definition with_archive (st : state) (a : gmap string (list snapshot)) : state :=
  {| config := config st; live := live st; archive := a |}.

Definition prune (fs : filesystem) (category : string) (limit : nat) (st : state)
  : state * list snapshot :=
  let '(kept, failures) := prune_list fs limit (snapshots st category) in
  (with_archive st (<[category := kept]> (archive st)), failures).

(** Modelled from the spec: [create(category, is_auto)] of the Generation
    Store (missing from the sources). [ts] is the identifier the clock
    hands out. The copy goes to a temporary location and is moved into place
    only when complete, so a failed copy leaves the archive as it was.
    On success the result is the new snapshot and the log of pruning
    failures. *)
Definition create (fs : filesystem) (category : string) (auto : bool) (ts : string)
    (st : state) : state * (error + snapshot * list snapshot) :=
  match live st !! category with
  | None => (st, inl SourceMissing)
  | Some src =>
      match copy_tree (copy_fails_at fs) src with
      | Partial _ => (st, inl IOError)
      | Complete t =>
          let new := {| timestamp := ts; is_auto := auto; content := t |} in
          let '(kept, failures) :=
            prune_list fs (max_generations (config st))
                       (new :: snapshots st category) in
          (with_archive st (<[category := kept]> (archive st)),
           inr (new, failures))
      end
  end.

(** Modelled from the spec: the range validation of [applySettings]
    (Settings Coordinator, missing from the sources). *)
Definition clamp (maxGenerations : Z) : nat :=
  Z.to_nat (Z.max 1 (Z.min 100 maxGenerations)).

(** Modelled from the spec: pruning every existing Category. *)
Definition prune_every (fs : filesystem) (limit : nat)
    (a : gmap string (list snapshot))
  : gmap string (list snapshot) * list snapshot :=
  (fst ∘ prune_list fs limit <$> a,
   concat (snd ∘ prune_list fs limit ∘ snd <$> map_to_list a)).

(** Modelled from the spec: [applySettings(path, maxGenerations, theme)] of
    the Settings Coordinator (missing from the sources). [rescan] is what a
    scan of the new root finds, used when the path changed. The second
    component is the log of pruning failures. *)
Definition applySettings (fs : filesystem) (rescan : gmap string tree)
    (path : string) (maxGenerations : Z) (theme' : string) (st : state)
  : state * list snapshot :=
  let limit := clamp maxGenerations in
  let live' :=
    if decide (path = repo_save_path (config st)) then live st else rescan in
  let '(archive', failures) :=
    if (limit <? max_generations (config st))%nat
    then prune_every fs limit (archive st)
    else (archive st, []) in
  ({| config := {| repo_save_path := path; max_generations := limit;
                   theme := theme' |};
      live := live'; archive := archive' |},
   failures).

Definition find_snapshot (st : state) (category ts : string) : option snapshot :=
  list_find (fun s => timestamp s = ts) (snapshots st category) ≫= (Some ∘ snd).

(** Modelled from the spec: the destructive swap of [restore] (Restore
    Coordinator, missing from the sources): the files of the live subfolder
    are deleted, then the staged files are moved into place. The result is
    the live subfolder afterwards and whether the swap went through. *)
Definition swap (fails_at : option nat) (old staged : tree) : tree * bool :=
  match fails_at with
  | None => (staged, true)
  | Some k =>
      if (k <? length old)%nat then (drop k old, false)
      else if (k - length old <? length staged)%nat
           then (take (k - length old) staged, false)
           else (staged, true)
  end.

(** Modelled from the spec: [restore(category, timestamp)] of the Restore
    Coordinator (missing from the sources): the snapshot is copied to a
    staging location beside the live folder; only when that copy is complete
    is the live subfolder replaced by the staged copy. *)
Definition restore (fs : filesystem) (category ts : string) (st : state)
  : state * (error + unit) :=
  match find_snapshot st category ts with
  | None => (st, inl NotFound)
  | Some snap =>
      match copy_tree (copy_fails_at fs) (content snap) with
      | Partial _ => (st, inl IOError)
      | Complete staged =>
          if locked fs then (st, inl SourceLocked)
          else
            let '(now_live, ok) :=
              swap (swap_fails_at fs) (default [] (live st !! category)) staged in
            ({| config := config st;
                live := <[category := now_live]> (live st);
                archive := archive st |},
             if ok then inr tt else inl PartialFailure)
      end
  end.

(** The retention invariant of the data model: every Category holds at most
    [max_generations] snapshots. *)
Definition within_limit (st : state) : Prop :=
  forall category,
    (length (snapshots st category) <= max_generations (config st))%nat.

End Engine.

(** ** Predicates the properties are stated with *)

Module Range.

(** A value that is a finite number between 1 and 100. *)
Definition in_1_100 (v : Js.value) : Prop :=
  exists q, v = Js.Num (Js.Fin q)
            /\ (Q2Qc (inject_Z 1) <= q)%Qc /\ (q <= Q2Qc (inject_Z 100))%Qc.

End Range.

Module MemoTrace.
Import SaveList.

(** The one-timer invariant of the save list: no memo save is pending, or
    exactly one is and [memoTimer] holds its id. *)
Definition one_timer (s : state) : Prop :=
  Timers.pending (timers s) = []
  \/ exists t, Timers.pending (timers s) = [t] /\ memoTimer s = Some (Timers.id t).

(** No memo field is edited during [es]. *)
Definition no_input (es : list event) : Prop :=
  forall folderName text, MemoInput folderName text ∉ es.

(** The time that passes during [es]. *)
Fixpoint elapsed (es : list event) : N :=
  match es with
  | [] => 0
  | Wait d :: es' => d + elapsed es'
  | _ :: es' => elapsed es'
  end.

(** A run of edits [(folderName, text, d)]: each memo input is followed by
    [d] milliseconds without input. *)
Fixpoint edits (l : list (string * string * N)) : list event :=
  match l with
  | [] => []
  | (folderName, text, d) :: l' => MemoInput folderName text :: Wait d :: edits l'
  end.

(** The category of the latest memo input in a history and the time that
    passed since; [None] before the first input. *)
Definition since_step (acc : option (string * N)) (e : event) : option (string * N) :=
  match e with
  | MemoInput folderName _ => Some (folderName, 0%N)
  | ItemsChanged _ _ => acc
  | Wait d => (fun '(folderName, t) => (folderName, (t + d)%N)) <$> acc
  end.

Definition since_input (history : list event) : option (string * N) :=
  fold_left since_step history None.

(** The timer queue of the view agrees with the history: the save of the
    latest input is pending exactly while less than 1000 ms passed since. *)
Definition tracks (s : state) (acc : option (string * N)) : Prop :=
  match acc with
  | Some (folderName, t) =>
      if (t <? 1000)%N then
        exists x, Timers.pending (timers s) = [x]
                  /\ Timers.callback x = folderName
                  /\ (Timers.due x + t = Timers.now (timers s) + 1000)%N
                  /\ memoTimer s = Some (Timers.id x)
      else Timers.pending (timers s) = []
  | None => Timers.pending (timers s) = []
  end.

End MemoTrace.

Module EngineExamples.
Import Engine.

(** A filesystem on which no snapshot directory can be removed. *)
Definition stuck_archive : filesystem :=
  {| copy_fails_at := None; remove_ok := fun _ => false;
     locked := false; swap_fails_at := None |}.

(** A filesystem on which every copy fails at its first file. *)
Definition failing_copy : filesystem :=
  {| copy_fails_at := Some 0%nat; remove_ok := fun _ => true;
     locked := false; swap_fails_at := None |}.

Definition old_snapshot : snapshot :=
  {| timestamp := "20240101_120000"; is_auto := true;
     content := [("slot1.sav", "level 3")] |}.

(** A second, older snapshot. *)
Definition older_snapshot : snapshot :=
  {| timestamp := "20231224_180000"; is_auto := false;
     content := [("slot1.sav", "level 2")] |}.

(** One Category, "SaveA", with one snapshot; a single generation is kept. *)
Definition one_generation : state :=
  {| config := {| repo_save_path := "D:/saves"; max_generations := 1;
                  theme := "system" |};
     live := {["SaveA" := [("slot1.sav", "level 4")]]};
     archive := {["SaveA" := [old_snapshot]]} |}.

(** The same Category with two snapshots, three generations being kept. *)
Definition two_of_three : state :=
  {| config := {| repo_save_path := "D:/saves"; max_generations := 3;
                  theme := "system" |};
     live := {["SaveA" := [("slot1.sav", "level 4")]]};
     archive := {["SaveA" := [old_snapshot; older_snapshot]]} |}.

End EngineExamples.

Module Timestamp.

Local Open Scope Z_scope.

(** A number written with two, or four, digits. *)
Definition two (n : Z) : string :=
  String (Dayjs.digit_char (n / 10)) (String (Dayjs.digit_char (n mod 10)) EmptyString).

Definition four (n : Z) : string :=
  String (Dayjs.digit_char (n / 1000))
    (String (Dayjs.digit_char (n / 100 mod 10))
       (String (Dayjs.digit_char (n / 10 mod 10))
          (String (Dayjs.digit_char (n mod 10)) EmptyString))).

(** A date and time of the calendar, from the year 100 on (an earlier year
    is not the time of a snapshot); [M] counts from 1. *)
Definition valid (Y M D h m s : Z) : Prop :=
  100 <= Y <= 9999 /\ 1 <= M <= 12 /\ 1 <= D <= Dayjs.days_in_month Y (M - 1)
  /\ 0 <= h <= 23 /\ 0 <= m <= 59 /\ 0 <= s <= 59.

(** The local time exists in the zone: read back at the instant it names,
    it is the same local time. It fails for the local times a transition
    skips, such as the hour lost when daylight saving time starts. *)
Definition unskipped (tz : Dayjs.zone) (Y M D h m s : Z) : Prop :=
  let tv := Dayjs.time_value
              {| Dayjs.YYYY := Y; Dayjs.MM := M - 1; Dayjs.DD := D;
                 Dayjs.hh := h; Dayjs.mm := m; Dayjs.ss := s |} in
  Dayjs.LocalTime tz (Dayjs.UTC tz tv) = tv.

(** A zone that keeps one offset from UTC, in milliseconds. *)
Definition fixed_offset (ms : Z) : Dayjs.zone := fun _ _ => ms.

(** A zone eight hours behind UTC whose clocks are put one hour forward on
    10 March 2024 at 10:00 UTC, when it is 02:00 there: the local times from
    02:00:00 to 02:59:59 of that day are skipped. *)
Definition spring_forward : Dayjs.zone :=
  fun t isUTC =>
    let transition := 1710064800000 in
    if isUTC then (if t <? transition then -28800000 else -25200000)
    else (if t <? transition - 25200000 then -28800000 else -25200000).

(** The identifier [YYYYMMDD_HHmmss] of that time. *)
Definition identifier (Y M D h m s : Z) : string :=
  (four Y ++ two M ++ two D ++ "_" ++ two h ++ two m ++ two s)%string.

(** The same time as [YYYY-MM-DD HH:mm:ss]. *)
Definition display (Y M D h m s : Z) : string :=
  (four Y ++ "-" ++ two M ++ "-" ++ two D ++ " "
     ++ two h ++ ":" ++ two m ++ ":" ++ two s)%string.

End Timestamp.

(** ** The Settings view together with the store *)

Module SettingsSession.

Record state : Type := {
  store : MainStore.state;
  view : Settings.state
}.

(** The view is mounted on a store. *)
Definition mount (st : MainStore.state) : state :=
  {| store := st; view := Settings.setup st |}.

Inductive event : Type :=
| PathInput (text : string)
    (* the user edits the path field: [v-model] stores the text, then [@input] *)
| GenerationsInput (entered : Js.value)
    (* the user edits the retention field *)
| ThemeChoice (newTheme : Js.value)
    (* the user picks a radio button: [v-model] and [@update:model-value] *)
| Broadcast (e : MainStore.event)
    (* the backend emits an event: the store's listener, then the watchers *)
| Wait (d : N).
    (* [d] milliseconds pass *)

Definition with_localPath (p : Js.value) (v : Settings.state) : Settings.state :=
  {| Settings.localPath := p; Settings.maxGenerations := Settings.maxGenerations v;
     Settings.theme := Settings.theme v;
     Settings.pathTimer := Settings.pathTimer v;
     Settings.generationsTimer := Settings.generationsTimer v;
     Settings.timers := Settings.timers v |}.

Definition with_theme (t : Js.value) (v : Settings.state) : Settings.state :=
  {| Settings.localPath := Settings.localPath v;
     Settings.maxGenerations := Settings.maxGenerations v;
     Settings.theme := t;
     Settings.pathTimer := Settings.pathTimer v;
     Settings.generationsTimer := Settings.generationsTimer v;
     Settings.timers := Settings.timers v |}.

Section Host.
Variable StringToNumber : string -> Js.number.

Definition step (e : event) (s : state) : state * list Tauri.command :=
  match e with
  | PathInput text =>
      ({| store := store s;
          view := Settings.onPathInput (with_localPath (Js.Str text) (view s)) |},
       [])
  | GenerationsInput entered =>
      ({| store := store s;
          view := Settings.type_maxGenerations StringToNumber entered (view s) |},
       [])
  | ThemeChoice newTheme =>
      ({| store := store s; view := with_theme newTheme (view s) |},
       [Settings.onThemeChange (store s) newTheme (view s)])
  | Broadcast e =>
      let st' := MainStore.on_event e (store s) in
      ({| store := st'; view := Settings.on_store_change (store s) st' (view s) |},
       [])
  | Wait d =>
      let '(v', out) := Settings.wait (store s) d (view s) in
      ({| store := store s; view := v' |}, out)
  end.

Fixpoint run (es : list event) (s : state) : state * list Tauri.command :=
  match es with
  | [] => (s, [])
  | e :: es' =>
      let '(s1, out1) := step e s in
      let '(s2, out2) := run es' s1 in
      (s2, (out1 ++ out2)%list)
  end.
End Host.

(** A burst of path edits, each followed by [d] milliseconds without input. *)
Fixpoint path_edits (l : list (string * N)) : list event :=
  match l with
  | [] => []
  | (text, d) :: l' => PathInput text :: Wait d :: path_edits l'
  end.

(** No debounce timer of the view is pending. *)
Definition idle (s : state) : Prop :=
  Timers.pending (Settings.timers (view s)) = [].

(** Only the path timer is pending, and [pathTimer] holds its id. *)
Definition path_pending (s : state) : Prop :=
  exists t, Timers.pending (Settings.timers (view s)) = [t]
            /\ Settings.pathTimer (view s) = Some (Timers.id t).

End SettingsSession.

Module SettingsIds.
Import SettingsSession.

(** The ids the view holds were handed out by its timer queue. *)
Definition issued (s : state) : Prop :=
  forall i,
    Settings.pathTimer (view s) = Some i \/ Settings.generationsTimer (view s) = Some i ->
    (i < Timers.next_id (Settings.timers (view s)))%positive.

End SettingsIds.

(** ** The notification overlay over time *)

Module OverlayClock.
Import NotificationOverlay.

Definition set_now (t : N) (s : state) : state :=
  {| title := title s; message := message s; type := type s;
     visible := visible s; window_wanted := window_wanted s;
     suspended := suspended s; timer := timer s;
     timers := {| Timers.now := t;
                  Timers.next_id := Timers.next_id (timers s);
                  Timers.pending := Timers.pending (timers s) |} |}.

(** The timers due by [target] fire one after the other; a closure that
    fires may set a new timer, which fires in turn when it is due. *)
Fixpoint fire_due (fuel : nat) (target : N) (s : state) : state :=
  match fuel with
  | O => s
  | S fuel' =>
      match Timers.pending (timers s) with
      | t :: _ =>
          if (Timers.due t <=? target)%N then fire_due fuel' target (on_timer s) else s
      | [] => s
      end
  end.

(** [d] milliseconds pass. A [HideCard] sets one more timer and a
    [HideWindow] none, so two rounds per pending timer are enough. *)
Definition wait (d : N) (s : state) : state :=
  let target := (Timers.now (timers s) + d)%N in
  set_now target (fire_due (2 * length (Timers.pending (timers s))) target s).

(** What happens to the overlay: a notification arrives; the [win.show()]
    of a suspended run of the listener resolves, or rejects; time passes. *)
Inductive event : Type :=
| Notify (payload : gmap string Js.value)
| Shown
| ShowFailed
| Wait (d : N).

Definition step (e : event) (s : state) : state :=
  match e with
  | Notify payload => on_show_notification payload s
  | Shown => match suspended s with O => s | S _ => after_show s end
  | ShowFailed => match suspended s with O => s | S _ => show_rejected s end
  | Wait d => wait d s
  end.

Definition run (es : list event) (s : state) : state :=
  fold_left (fun s e => step e s) es s.

(** No timer is pending. *)
Definition at_rest (s : state) : Prop := Timers.pending (timers s) = [].

(** Only the card timer is pending, and [timer] holds its id: a card is
    showing. *)
Definition card_showing (s : state) : Prop :=
  exists c, Timers.pending (timers s) = [c]
            /\ Timers.callback c = HideCard
            /\ timer s = Some (Timers.id c).

(** No pending timer is due within the next [e] milliseconds. *)
Definition undisturbed (e : N) (s : state) : Prop :=
  Forall (fun t => (Timers.now (timers s) + e < Timers.due t)%N)
         (Timers.pending (timers s)).

(** A list of timers in firing order by due time. *)
Fixpoint in_order (l : list (Timers.timer closure)) : Prop :=
  match l with
  | [] => True
  | a :: l' => Forall (fun b => (Timers.due a <= Timers.due b)%N) l' /\ in_order l'
  end.

Definition ordered (s : state) : Prop := in_order (Timers.pending (timers s)).

(** What the closures still pending can take in rounds of [fire_due]. *)
Definition rounds (s : state) : nat :=
  list_sum ((fun t => match Timers.callback t with
                      | HideCard => 2
                      | HideWindow => 1
                      end) <$> Timers.pending (timers s)).

End OverlayClock.

(** ** components/SaveList.vue: the list, the expansion state and the delete
    dialog *)

Module SaveListView.

(** What the template shows: the progress circle while the store is not
    connected, the empty-folder message, or one card per item. *)
Inductive screen : Type :=
| Connecting
| NoSubfolders
| Cards (items : list MainStore.item).

Definition shown (st : MainStore.state) : screen :=
  if negb (MainStore.isConnected st) then Connecting
  else if bool_decide (length (MainStore.items st) = 0%nat) then NoSubfolders
  else Cards (MainStore.items st).

(** [expanded[item.name]] as the template tests it. *)
Definition is_expanded (name : string) (s : SaveList.state) : bool :=
  PlainObject.ToBoolean (PlainObject.get (SaveList.expanded s) name).

(** [deleteTarget]: [{ type: 'backup', name, timestamp }] or
    [{ type: 'subfolder', name }]. *)
Inductive target : Type :=
| Backup (name timestamp : string)
| Subfolder (name : string).

(** [deleting]: the runs of [confirmDelete] that wait at
    [await store.deleteSubfolder(...)] or [await store.deleteBackup(...)]. *)
Record dialog : Type := {
  dialogDelete : bool;
  deleteTarget : option target;
  deleting : nat
}.

Definition closed : dialog :=
  {| dialogDelete := false; deleteTarget := None; deleting := 0 |}.

Definition deleteBk (folderName timestamp : string) (d : dialog) : dialog :=
  {| dialogDelete := true; deleteTarget := Some (Backup folderName timestamp);
     deleting := deleting d |}.

Definition deleteFolder (folderName : string) (d : dialog) : dialog :=
  {| dialogDelete := true; deleteTarget := Some (Subfolder folderName);
     deleting := deleting d |}.

(** [confirmDelete] up to its [await]: the dialog closes; without a target
    the function returns; with one, the store's delete action is called,
    which sends the command, and the run is suspended until the call
    settles. The target is still set meanwhile. *)
Definition confirmDelete (d : dialog) : dialog * list Tauri.command :=
  match deleteTarget d with
  | None =>
      ({| dialogDelete := false; deleteTarget := None; deleting := deleting d |}, [])
  | Some (Subfolder name) =>
      ({| dialogDelete := false; deleteTarget := deleteTarget d;
          deleting := S (deleting d) |},
       [MainStore.deleteSubfolder name])
  | Some (Backup name timestamp) =>
      ({| dialogDelete := false; deleteTarget := deleteTarget d;
          deleting := S (deleting d) |},
       [MainStore.deleteBackup name timestamp])
  end.

(** The rest of [confirmDelete], run once the store's call has resolved:
    [deleteTarget.value = null]. *)
Definition after_delete (d : dialog) : dialog :=
  {| dialogDelete := dialogDelete d; deleteTarget := None;
     deleting := pred (deleting d) |}.

(** The store's call rejected: the run of [confirmDelete] ends there and the
    target stays. *)
Definition delete_rejected (d : dialog) : dialog :=
  {| dialogDelete := dialogDelete d; deleteTarget := deleteTarget d;
     deleting := pred (deleting d) |}.

(** The cancel button, or the dialog closed from outside:
    [dialogDelete = false]. *)
Definition cancel (d : dialog) : dialog :=
  {| dialogDelete := false; deleteTarget := deleteTarget d; deleting := deleting d |}.

(** What happens to the delete controls: the handlers the buttons call, and
    the settling of a delete call a run of [confirmDelete] waits for. *)
Inductive event : Type :=
| ClickDeleteBackup (folderName timestamp : string)
| ClickDeleteFolder (folderName : string)
| ClickCancel
| ClickConfirm
| Deleted
| DeleteFailed.

Definition step (e : event) (d : dialog) : dialog * list Tauri.command :=
  match e with
  | ClickDeleteBackup folderName timestamp => (deleteBk folderName timestamp d, [])
  | ClickDeleteFolder folderName => (deleteFolder folderName d, [])
  | ClickCancel => (cancel d, [])
  | ClickConfirm => confirmDelete d
  | Deleted => (match deleting d with O => d | S _ => after_delete d end, [])
  | DeleteFailed => (match deleting d with O => d | S _ => delete_rejected d end, [])
  end.

Fixpoint run (es : list event) (d : dialog) : dialog * list Tauri.command :=
  match es with
  | [] => (d, [])
  | e :: es' =>
      let '(d1, out1) := step e d in
      let '(d2, out2) := run es' d1 in
      (d2, (out1 ++ out2)%list)
  end.

(** The delete command of a target. *)
Definition command_of (t : target) : Tauri.command :=
  match t with
  | Backup name timestamp => Tauri.delete_backup name timestamp
  | Subfolder name => Tauri.delete_subfolder name
  end.

(** The click that asks for the deletion of a target. *)
Definition request (t : target) : event :=
  match t with
  | Backup name timestamp => ClickDeleteBackup name timestamp
  | Subfolder name => ClickDeleteFolder name
  end.

(** Events that leave the target as it is: no new request is made and no
    delete call resolves. *)
Definition keeps_target (e : event) : Prop :=
  match e with
  | ClickCancel | ClickConfirm | DeleteFailed => True
  | _ => False
  end.

Definition no_request (e : event) : Prop :=
  match e with
  | ClickDeleteBackup _ _ | ClickDeleteFolder _ => False
  | _ => True
  end.

End SaveListView.

(** ** App.vue and the router *)

Module App.

(** The components the routes name. *)
Inductive component : Type := SaveListPage | SettingsPage | NotificationPage.

(** [routes] of the router. *)
Definition routes : list (string * string * component) :=
  [("/", "home", SaveListPage);
   ("/settings", "settings", SettingsPage);
   ("/notification", "notification", NotificationPage)].

(** The component [router-view] shows at a path. *)
Definition component_at (path : string) : option component :=
  (fun found : nat * (string * string * component) => found.2.2)
    <$> list_find (fun r => r.1.1 = path) routes.

(** [navigate(tab)]: the path pushed to the router. *)
Definition navigate (tab : Js.value) : string :=
  if decide (tab = Js.Str "home") then "/" else "/settings".

(** [activeTab] *)
Definition activeTab (path : string) : string :=
  if decide (path = "/settings") then "settings" else "home".

(** [isNotificationWindow], from the route. *)
Definition isNotificationWindow (path : string) : bool :=
  bool_decide (path = "/notification").

(** [applyTheme(themeValue)]: the name of the Vuetify theme afterwards.
    [prefersDark] is what the media query [(prefers-color-scheme: dark)]
    answers, [current] the theme in force. *)
Definition applyTheme (prefersDark : bool) (themeValue : Js.value) (current : Js.value)
  : Js.value :=
  if Js.not themeValue then current
  else if decide (themeValue = Js.Str "system")
       then Js.Str (if prefersDark then "dark" else "light")
       else themeValue.

(** The watcher on [store.settings.theme], [immediate] at mount and then on
    every change of the stored theme. [defaultTheme] is the theme Vuetify is
    created with in [main.js]. *)
Definition defaultTheme : Js.value := Js.Str "dark".

Definition theme_at_mount (prefersDark : bool) (st : MainStore.state) : Js.value :=
  applyTheme prefersDark (Js.get (MainStore.settings st) "theme") defaultTheme.

Definition theme_after (prefersDark : bool) (old new : MainStore.state)
    (current : Js.value) : Js.value :=
  if decide (Js.get (MainStore.settings old) "theme"
             = Js.get (MainStore.settings new) "theme")
  then current
  else applyTheme prefersDark (Js.get (MainStore.settings new) "theme") current.

(** The two themes Vuetify knows. *)
Definition dark_or_light (v : Js.value) : Prop :=
  v = Js.Str "dark" \/ v = Js.Str "light".

(** The preference of the operating system as a theme. *)
Definition preferred (prefersDark : bool) : Js.value :=
  Js.Str (if prefersDark then "dark" else "light").

End App.

(** ** Substrings *)

Module Text.

(** [t] contains [kw]. *)
Definition mentions (t kw : string) : Prop :=
  exists pre post, t = (pre ++ kw ++ post)%string.

(** No character of [t] is a decimal digit. *)
Definition digitless (t : string) : Prop :=
  Forall (fun c => Dayjs.is_digit c = false) (list_ascii_of_string t).

End Text.

(** * Properties *)

(** ** JavaScript values *)

Module JsFacts.
Import Js.

Lemma or_truthy a b : ToBoolean a = true -> or a b = a.
Proof. unfold or. by intros ->. Qed.

Lemma or_falsy a b : ToBoolean a = false -> or a b = b.
Proof. unfold or. by intros ->. Qed.

Lemma int_truthy z : z ≠ 0%Z -> ToBoolean (int z) = true.
Proof.
  intros Hz. cbn. apply negb_true_iff, bool_decide_eq_false.
  intros H. change 0%Qc with (Q2Qc (inject_Z 0)) in H.
  apply Q2Qc_eq_iff in H. unfold Qeq in H. cbn in H. lia.
Qed.

Lemma int_zero_falsy : ToBoolean (int 0) = false.
Proof. reflexivity. Qed.

(** [a || b] is truthy as soon as [b] is. *)
Lemma or_default_truthy a b : ToBoolean b = true -> ToBoolean (or a b) = true.
Proof. unfold or. destruct (ToBoolean a) eqn:E; auto. Qed.

Lemma get_absent (o : gmap string value) k : o !! k = None -> get o k = Undefined.
Proof. unfold get. by intros ->. Qed.

Lemma get_present (o : gmap string value) k v : o !! k = Some v -> get o k = v.
Proof. unfold get. by intros ->. Qed.

Lemma num_lt_fin x y : num_lt (Fin x) (Fin y) = bool_decide (x < y)%Qc.
Proof. reflexivity. Qed.
End JsFacts.

(** ** Plain objects *)

Module PlainObjectFacts.
Import PlainObject.

Lemma ordinary_not_proto k : ordinary k -> k ≠ "__proto__".
Proof. by intros [H _]. Qed.

(** A write under any name but [__proto__] makes a property of the object. *)
Lemma set_stores o k v :
  k ≠ "__proto__" ->
  set o k v = {| own := <[k := v]> (own o); has_prototype := has_prototype o |}.
Proof.
  intros Hk. unfold set. rewrite (bool_decide_eq_false_2 _ Hk).
  by rewrite andb_false_r.
Qed.

Lemma get_set_eq o k v : k ≠ "__proto__" -> get (set o k v) k = Primitive v.
Proof.
  intros Hk. rewrite set_stores by done. unfold get. cbn. by rewrite lookup_insert_eq.
Qed.

(** No write removes or changes a property held under another name. *)
Lemma own_set_ne o k v k' : k' ≠ k -> own (set o k v) !! k' = own o !! k'.
Proof.
  intros Hne. unfold set. destruct (_ && _ && _).
  - by destruct (decide (v = Js.Null)).
  - cbn. by rewrite lookup_insert_ne.
Qed.

(** Only the write of [null] to [__proto__] changes the prototype. *)
Lemma has_prototype_set o k v :
  k ≠ "__proto__" \/ v ≠ Js.Null ->
  has_prototype (set o k v) = has_prototype o.
Proof.
  intros H. unfold set.
  destruct (has_prototype o && bool_decide (k = "__proto__")
            && bool_decide (own o !! k = None)) eqn:E; [|done].
  destruct (decide (v = Js.Null)) as [->|_]; [|done].
  destruct H as [H|H]; [|done].
  rewrite (bool_decide_eq_false_2 _ H), andb_false_r in E. done.
Qed.

Lemma get_set_ne o k v k' :
  k' ≠ k -> k ≠ "__proto__" \/ v ≠ Js.Null ->
  get (set o k v) k' = get o k'.
Proof.
  intros Hne H. unfold get. by rewrite own_set_ne, has_prototype_set.
Qed.

(** On a literal's object that holds no [__proto__] of its own, the write of
    a primitive other than [null] to [__proto__] is lost. *)
Lemma set_proto_lost o v :
  has_prototype o = true -> own o !! "__proto__" = None -> v ≠ Js.Null ->
  set o "__proto__" v = o.
Proof.
  intros Hp Ho Hv. unfold set. rewrite Hp, Ho. cbn.
  by destruct (decide (v = Js.Null)).
Qed.

Lemma get_proto o :
  has_prototype o = true -> own o !! "__proto__" = None ->
  get o "__proto__" = Object_prototype.
Proof. intros Hp Ho. unfold get. by rewrite Ho, Hp. Qed.

Lemma get_empty_ordinary k : ordinary k -> get empty k = Primitive Js.Undefined.
Proof.
  intros (Hp & Hm & _). unfold get, inherited. cbn. rewrite lookup_empty.
  destruct (decide (k = "__proto__")); [done|].
  by destruct (decide (k ∈ methods)).
Qed.

(** A name [Object.prototype] has reads as an object, hence truthy, on an
    object that does not hold it. *)
Lemma get_inherited_truthy o k :
  has_prototype o = true -> own o !! k = None ->
  k = "__proto__" \/ k ∈ methods ->
  ToBoolean (get o k) = true.
Proof.
  intros Hp Ho Hk. unfold get, inherited. rewrite Ho, Hp.
  destruct (decide (k = "__proto__")); [done|].
  destruct (decide (k ∈ methods)); [done|]. by destruct Hk.
Qed.

End PlainObjectFacts.

(** ** The store *)

Module MainStoreFacts.
Import MainStore.

Lemma on_events_app es1 es2 st :
  on_events (es1 ++ es2) st = on_events es2 (on_events es1 st).
Proof. apply fold_left_app. Qed.

Lemma settings_kept es st :
  (forall q, settings_state q ∉ es) -> settings (on_events es st) = settings st.
Proof.
  revert st. induction es as [|e es IH]; intros st Hno; [done|].
  cbn. rewrite IH.
  - destruct e as [q| |]; [|done..]. exfalso. apply (Hno q). left.
  - intros q Hq. apply (Hno q). by right.
Qed.

Lemma items_kept es st :
  (forall q, backups_state q ∉ es) -> items (on_events es st) = items st.
Proof.
  revert st. induction es as [|e es IH]; intros st Hno; [done|].
  cbn. rewrite IH.
  - destruct e as [|q|]; [done| |done]. exfalso. apply (Hno q). left.
  - intros q Hq. apply (Hno q). by right.
Qed.

(** C4: every [settings-state] (resp. [backups-state]) event replaces the
    whole settings (resp. items) document of the store by its payload: the
    document after the event is the payload whatever the store held before,
    and after any sequence of events the document is the payload of the last
    broadcast of its type, all earlier broadcasts being superseded. *)
Theorem broadcast_supersedes :
  (forall p st1 st2,
      settings (on_event (settings_state p) st1) = p
      /\ settings (on_event (settings_state p) st1)
         = settings (on_event (settings_state p) st2))
  /\ (forall p st1 st2,
      items (on_event (backups_state p) st1) = p
      /\ items (on_event (backups_state p) st1)
         = items (on_event (backups_state p) st2))
  /\ (forall before p after st,
      (forall q, settings_state q ∉ after) ->
      settings (on_events (before ++ settings_state p :: after) st) = p)
  /\ (forall before p after st,
      (forall q, backups_state q ∉ after) ->
      items (on_events (before ++ backups_state p :: after) st) = p).
Proof.
  repeat split.
  - intros. rewrite on_events_app. cbn. by rewrite settings_kept.
  - intros. rewrite on_events_app. cbn. by rewrite items_kept.
Qed.

Definition some_settings : gmap string Js.value :=
  <["max_generations" := Js.int 3]> ∅.

Lemma broadcast_supersedes_witness :
  settings
    (on_events ([settings_state ∅] ++ settings_state some_settings
                   :: [backups_state []; navigate_settings]) initial)
  = some_settings.
Proof.
  apply (proj1 (proj2 (proj2 broadcast_supersedes))).
  intros q Hq. repeat (apply elem_of_cons in Hq as [Hq|Hq]; [discriminate Hq|]).
  by apply elem_of_nil in Hq.
Defined.

(** C9: [saveSettings] sends [save_settings] with the path as given, and with
    [maxGenerations || settings.max_generations || 10] and
    [theme || settings.theme || 'system']: a falsy argument is replaced by
    the store's current value, and by 10 (resp. ['system']) when that is
    falsy too; a truthy argument goes through. What is sent is never falsy,
    so never 0. *)
Theorem saveSettings_defaults st newPath maxGenerations theme :
  exists mg th,
    saveSettings st newPath maxGenerations theme = Tauri.save_settings newPath mg th
    /\ (Js.ToBoolean maxGenerations = true -> mg = maxGenerations)
    /\ (Js.ToBoolean maxGenerations = false ->
        Js.ToBoolean (Js.get (settings st) "max_generations") = true ->
        mg = Js.get (settings st) "max_generations")
    /\ (Js.ToBoolean maxGenerations = false ->
        Js.ToBoolean (Js.get (settings st) "max_generations") = false ->
        mg = Js.int 10)
    /\ (Js.ToBoolean theme = true -> th = theme)
    /\ (Js.ToBoolean theme = false ->
        Js.ToBoolean (Js.get (settings st) "theme") = true ->
        th = Js.get (settings st) "theme")
    /\ (Js.ToBoolean theme = false ->
        Js.ToBoolean (Js.get (settings st) "theme") = false ->
        th = Js.Str "system")
    /\ Js.ToBoolean mg = true
    /\ mg ≠ Js.int 0
    /\ Js.ToBoolean (Js.int 0) = false
    /\ Js.ToBoolean Js.Null = false
    /\ Js.ToBoolean Js.Undefined = false.
Proof.
  eexists _, _. split; [reflexivity|].
  assert (Ht : Js.ToBoolean
                 (Js.or (Js.or maxGenerations (Js.get (settings st) "max_generations"))
                        (Js.int 10)) = true)
    by (apply JsFacts.or_default_truthy; reflexivity).
  repeat split.
  - intros H. by rewrite !(JsFacts.or_truthy _ _ H), ?JsFacts.or_truthy.
  - intros H1 H2. rewrite (JsFacts.or_falsy _ _ H1). by apply JsFacts.or_truthy.
  - intros H1 H2. rewrite (JsFacts.or_falsy _ _ H1). by apply JsFacts.or_falsy.
  - intros H. by rewrite !(JsFacts.or_truthy _ _ H), ?JsFacts.or_truthy.
  - intros H1 H2. rewrite (JsFacts.or_falsy _ _ H1). by apply JsFacts.or_truthy.
  - intros H1 H2. rewrite (JsFacts.or_falsy _ _ H1). by apply JsFacts.or_falsy.
  - exact Ht.
  - intros E. rewrite E in Ht. discriminate Ht.
Qed.
Lemma saveSettings_defaults_witness :
  saveSettings
    {| settings := <["theme" := Js.Str "dark"]> ∅; items := []; isConnected := true |}
    (Js.Str "D:/saves") (Js.int 0) Js.Undefined
  = Tauri.save_settings (Js.Str "D:/saves") (Js.int 10) (Js.Str "dark").
Proof.
  destruct (saveSettings_defaults
              {| settings := <["theme" := Js.Str "dark"]> ∅; items := [];
                 isConnected := true |}
              (Js.Str "D:/saves") (Js.int 0) Js.Undefined)
    as (mg & th & -> & _ & _ & Hmg & _ & Hth & _).
  rewrite Hmg, Hth by reflexivity. reflexivity.
Defined.
End MainStoreFacts.

(** ** The timer queue *)

Module TimersFacts.
Import Timers.

Section Queue.
Context {A : Type}.
Implicit Types (t : timer A) (l : list (timer A)) (q : queue A).

Lemma elem_of_enqueue t x l : x ∈ enqueue t l <-> x = t \/ x ∈ l.
Proof.
  induction l as [|t' l IH]; cbn.
  - rewrite list_elem_of_singleton, elem_of_nil. tauto.
  - destruct (due t' <=? due t)%N.
    + rewrite !elem_of_cons, IH. tauto.
    + rewrite !elem_of_cons. tauto.
Qed.

Lemma enqueue_nil t : enqueue t [] = [t].
Proof. reflexivity. Qed.

(** A timer set [delay] ms ago or more has fired. *)
Lemma elapse_fires cb delay d q :
  (delay <= d)%N ->
  cb ∈ fst (elapse d (snd (setTimeout cb delay q))).
Proof.
  intros Hd. cbn. apply list_elem_of_fmap.
  exists {| id := next_id q; due := (now q + delay)%N; callback := cb |}.
  split; [done|]. apply list_elem_of_filter. split; [cbn; lia|].
  apply elem_of_enqueue. by left.
Qed.
End Queue.
End TimersFacts.

(** ** The Settings view *)

Module SettingsFacts.
Import Settings.

Lemma one_le_hundred : (Q2Qc (inject_Z 1) <= Q2Qc (inject_Z 100))%Qc.
Proof. by vm_compute. Qed.

(** The two corrections, on a number that is not NaN. *)
Lemma limit_number stn (n : Js.number) :
  n ≠ Js.NaN ->
  Range.in_1_100 (limit stn (Js.Num n))
  /\ (Js.num_lt n (Js.of_Z 1) = true -> limit stn (Js.Num n) = Js.int 1)
  /\ (Js.num_lt (Js.of_Z 100) n = true -> limit stn (Js.Num n) = Js.int 100)
  /\ (Js.num_lt n (Js.of_Z 1) = false -> Js.num_lt (Js.of_Z 100) n = false ->
      limit stn (Js.Num n) = Js.Num n).
Proof.
  intros Hn. unfold limit, Js.lt_lit, Js.gt_lit.
  change (Js.ToNumber stn (Js.Num n)) with n.
  destruct (Js.num_lt n (Js.of_Z 1)) eqn:E1.
  - (* below 1 *)
    assert (E2 : Js.num_lt (Js.of_Z 100) n = false).
    { destruct n as [q| | |]; try done. cbn in *.
      apply bool_decide_eq_true in E1. apply bool_decide_eq_false.
      intros H. apply (Qclt_not_le _ _ (Qclt_trans _ _ _ H E1)), one_le_hundred. }
    change (Js.num_lt (Js.of_Z 100) (Js.ToNumber stn (Js.int 1))) with false.
    cbn iota. repeat split; try done; [|congruence].
    exists (Q2Qc (inject_Z 1)). repeat split; [apply Qcle_refl | apply one_le_hundred].
  - change (Js.ToNumber stn (Js.Num n)) with n.
    destruct (Js.num_lt (Js.of_Z 100) n) eqn:E2.
    + repeat split; try done.
      exists (Q2Qc (inject_Z 100)). repeat split; [apply one_le_hundred | apply Qcle_refl].
    + repeat split; try done.
      destruct n as [q| | |]; try done. cbn in *.
      apply bool_decide_eq_false in E1, E2.
      exists q. repeat split; by apply Qcnot_lt_le.
Qed.

(** What the corrections leave is truthy, so [saveSettings] sends it on. *)
Lemma in_1_100_truthy v : Range.in_1_100 v -> Js.ToBoolean v = true.
Proof.
  intros (q & -> & H1 & _). cbn. apply negb_true_iff, bool_decide_eq_false.
  intros ->. by apply H1.
Qed.

Lemma wait_sends st d v :
  snd (wait st d v) = run_closure st v <$> fst (Timers.elapse d (timers v)).
Proof. reflexivity. Qed.

(** C2: for every numeric value entered in the retention field, the
    [@input] handler leaves a number between 1 and 100 in [maxGenerations]:
    1 for a value below 1, 100 for a value above 100, the value itself
    otherwise. The handler raises nothing and sends nothing itself; every
    [save_settings] sent when its timer fires carries the corrected value,
    and one is sent once 500 ms have passed. *)
Theorem onMaxGenerationsInput_corrects stn st (v : state) (n : Js.number) (d : N) :
  n ≠ Js.NaN ->
  let v' := type_maxGenerations stn (Js.Num n) v in
  Range.in_1_100 (maxGenerations v')
  /\ (Js.num_lt n (Js.of_Z 1) = true -> maxGenerations v' = Js.int 1)
  /\ (Js.num_lt (Js.of_Z 100) n = true -> maxGenerations v' = Js.int 100)
  /\ (Js.num_lt n (Js.of_Z 1) = false -> Js.num_lt (Js.of_Z 100) n = false ->
      maxGenerations v' = Js.Num n)
  /\ (forall c, c ∈ snd (wait st d v') ->
      exists path th, c = Tauri.save_settings path (maxGenerations v') th)
  /\ ((500 <= d)%N ->
      exists th, Tauri.save_settings (localPath v) (maxGenerations v') th
                 ∈ snd (wait st d v')).
Proof.
  intros Hn v'.
  destruct (limit_number stn n Hn) as (Hr & Hlo & Hhi & Hmid).
  assert (Hv : maxGenerations v' = limit stn (Js.Num n)) by reflexivity.
  assert (Hsend : forall c, run_closure st v' c
             = Tauri.save_settings (localPath v) (maxGenerations v')
                 (Js.or (Js.or (theme v) (Js.get (MainStore.settings st) "theme"))
                        (Js.Str "system"))).
  { intros []. unfold run_closure, MainStore.saveSettings.
    rewrite (JsFacts.or_truthy (maxGenerations v')); [|by apply in_1_100_truthy; rewrite Hv].
    rewrite (JsFacts.or_truthy (maxGenerations v')); [|by apply in_1_100_truthy; rewrite Hv].
    reflexivity. }
  rewrite Hv. repeat split; try done.
  - intros c Hc. rewrite wait_sends in Hc.
    apply list_elem_of_fmap in Hc as (x & -> & _). rewrite Hsend, Hv. eauto.
  - intros Hd. eexists. rewrite wait_sends, <- Hv, <- (Hsend SaveSettings).
    apply list_elem_of_fmap_2.
    apply (TimersFacts.elapse_fires SaveSettings 500 d). exact Hd.
Qed.
Lemma onMaxGenerationsInput_corrects_witness :
  maxGenerations
    (type_maxGenerations (fun _ => Js.NaN) (Js.int 250) (setup MainStore.initial))
  = Js.int 100.
Proof.
  refine (proj1 (proj2 (proj2
            (onMaxGenerationsInput_corrects (fun _ => Js.NaN) MainStore.initial
               (setup MainStore.initial) (Js.of_Z 250) 500 _))) _).
  - discriminate.
  - reflexivity.
Defined.
End SettingsFacts.

Module StartupFacts.
Import Settings.

Lemma setup_maxGenerations st :
  maxGenerations (setup st)
  = Js.or (Js.get (MainStore.settings st) "max_generations") (Js.int 10).
Proof. reflexivity. Qed.

Lemma setup_theme st :
  theme (setup st)
  = Js.or (Js.get (MainStore.settings st) "theme") (Js.Str "system").
Proof. reflexivity. Qed.

Lemma change_maxGenerations old new v :
  Js.get (MainStore.settings old) "max_generations"
    ≠ Js.get (MainStore.settings new) "max_generations" ->
  maxGenerations (on_store_change old new v)
  = Js.or (Js.get (MainStore.settings new) "max_generations") (Js.int 10).
Proof.
  intros Hne. unfold on_store_change, rerun.
  destruct (decide (Js.get (MainStore.settings old) "theme"
                    = Js.get (MainStore.settings new) "theme"));
    destruct (decide (Js.get (MainStore.settings old) "max_generations"
                      = Js.get (MainStore.settings new) "max_generations"));
    try done.
Qed.

Lemma change_theme old new v :
  Js.get (MainStore.settings old) "theme" ≠ Js.get (MainStore.settings new) "theme" ->
  theme (on_store_change old new v)
  = Js.or (Js.get (MainStore.settings new) "theme") (Js.Str "system").
Proof.
  intros Hne. unfold on_store_change, rerun.
  destruct (decide (Js.get (MainStore.settings old) "theme"
                    = Js.get (MainStore.settings new) "theme")); done.
Qed.

(** C8: the store starts with exactly the settings [max_generations = 10],
    [theme = 'system'] and an empty [repo_save_path], keeps them until a
    [settings-state] event arrives, and the Settings view mounted on it shows
    them. Whenever the watcher of [max_generations]
    (resp. [theme]) runs on a store where the property is absent, at mount or
    on a later change, the view takes 10 (resp. ['system']). *)
Theorem startup_defaults :
  (forall es,
      (forall q, MainStore.settings_state q ∉ es) ->
      MainStore.settings (MainStore.on_events es MainStore.initial)
      = MainStore.settings MainStore.initial)
  /\ (Js.get (MainStore.settings MainStore.initial) "max_generations" = Js.int 10
   /\ Js.get (MainStore.settings MainStore.initial) "theme" = Js.Str "system"
   /\ Js.get (MainStore.settings MainStore.initial) "repo_save_path" = Js.Str EmptyString
   /\ dom (MainStore.settings MainStore.initial)
      = {["max_generations"; "theme"; "repo_save_path"]})
  /\ (maxGenerations (setup MainStore.initial) = Js.int 10
      /\ theme (setup MainStore.initial) = Js.Str "system"
      /\ localPath (setup MainStore.initial) = Js.Str EmptyString)
  /\ (forall st,
      MainStore.settings st !! "max_generations" = None ->
      maxGenerations (setup st) = Js.int 10)
  /\ (forall st,
      MainStore.settings st !! "theme" = None ->
      theme (setup st) = Js.Str "system")
  /\ (forall old new v,
      Js.get (MainStore.settings old) "max_generations" ≠ Js.Undefined ->
      MainStore.settings new !! "max_generations" = None ->
      maxGenerations (on_store_change old new v) = Js.int 10)
  /\ (forall old new v,
      Js.get (MainStore.settings old) "theme" ≠ Js.Undefined ->
      MainStore.settings new !! "theme" = None ->
      theme (on_store_change old new v) = Js.Str "system").
Proof.
  split; [|split; [|split; [|split; [|split; [|split]]]]].
  - intros es Hes. by apply MainStoreFacts.settings_kept.
  - repeat split; reflexivity.
  - repeat split; reflexivity.
  - intros st H. rewrite setup_maxGenerations, (JsFacts.get_absent _ _ H). reflexivity.
  - intros st H. rewrite setup_theme, (JsFacts.get_absent _ _ H). reflexivity.
  - intros old new v Hold H. rewrite change_maxGenerations.
    + rewrite (JsFacts.get_absent _ _ H). reflexivity.
    + by rewrite (JsFacts.get_absent _ _ H).
  - intros old new v Hold H. rewrite change_theme.
    + rewrite (JsFacts.get_absent _ _ H). reflexivity.
    + by rewrite (JsFacts.get_absent _ _ H).
Qed.

Lemma startup_defaults_witness :
  maxGenerations
    (setup {| MainStore.settings := <["repo_save_path" := Js.Str "D:/saves"]> ∅;
              MainStore.items := []; MainStore.isConnected := true |})
  = Js.int 10.
Proof.
  apply (proj1 (proj2 (proj2 (proj2 startup_defaults)))). reflexivity.
Defined.
End StartupFacts.

(** ** The save list *)

Module SaveListFacts.
Import SaveList MemoTrace.

(** C5: for every item of the published list whose [source_exists] is
    [false], the manual-backup button of the list view is disabled and a
    click on it sends no [manual_backup]. *)
Theorem backup_disabled_without_source (st : MainStore.state) (it : MainStore.item) :
  it ∈ MainStore.items st ->
  MainStore.source_exists it = Js.Bool false ->
  backup_disabled it = true /\ click_backup it = [].
Proof.
  intros _ H. unfold click_backup, backup_disabled. by rewrite H.
Qed.

Lemma backup_disabled_without_source_witness :
  let it := {| MainStore.name := "SaveD"; MainStore.memo := Js.Str EmptyString;
               MainStore.backups := [{| MainStore.timestamp := "20240229_235959" |}];
               MainStore.source_exists := Js.Bool false |} in
  backup_disabled it = true /\ click_backup it = [].
Proof.
  intros it.
  apply (backup_disabled_without_source
           (MainStore.on_event (MainStore.backups_state [it]) MainStore.initial) it).
  - cbn. left.
  - reflexivity.
Defined.

(** With the source present the button sends the request. *)
Lemma backup_enabled_with_source (it : MainStore.item) :
  MainStore.source_exists it = Js.Bool true ->
  click_backup it = [Tauri.manual_backup (MainStore.name it)].
Proof. intros H. unfold click_backup, backup_disabled. by rewrite H. Qed.

(** *** The memo timer *)

Lemma run_app es1 es2 s :
  run (es1 ++ es2) s
  = (fst (run es2 (fst (run es1 s))),
     (snd (run es1 s) ++ snd (run es2 (fst (run es1 s))))%list).
Proof.
  revert s. induction es1 as [|e es1 IH]; intros s; cbn [run app].
  - cbn. by destruct (run es2 s).
  - destruct (step e s) as [s1 o1]. rewrite IH.
    destruct (run es1 s1) as [s2 o2]. cbn [fst snd].
    destruct (run es2 s2) as [s3 o3]. cbn. by rewrite app_assoc.
Qed.

Lemma run_cons e es s :
  run (e :: es) s
  = (fst (run es (fst (step e s))),
     (snd (step e s) ++ snd (run es (fst (step e s))))%list).
Proof.
  cbn [run]. destruct (step e s) as [s1 o1]. cbn [fst snd].
  by destruct (run es s1).
Qed.

(** What a memo input leaves in the timer queue, under the invariant. *)
Lemma input_pending folderName text s :
  one_timer s ->
  Timers.pending (timers (fst (step (MemoInput folderName text) s)))
  = [ {| Timers.id := Timers.next_id (timers s);
         Timers.due := (Timers.now (timers s) + 1000)%N;
         Timers.callback := folderName |} ].
Proof.
  intros [Hnil | (t & Ht & Hm)]; cbn.
  - destruct (memoTimer s); cbn; rewrite Hnil; reflexivity.
  - rewrite Hm. cbn. rewrite Ht.
    rewrite filter_cons_False by (intros H; by apply H). reflexivity.
Qed.

Lemma input_state folderName text s :
  let s' := fst (step (MemoInput folderName text) s) in
  memos s' = PlainObject.set (memos s) folderName (Js.Str text)
  /\ Timers.now (timers s') = Timers.now (timers s)
  /\ memoTimer s' = Some (Timers.next_id (timers s)).
Proof.
  cbn. destruct (memoTimer s); repeat split; reflexivity.
Qed.

Lemma input_silent folderName text s : snd (step (MemoInput folderName text) s) = [].
Proof. reflexivity. Qed.

Lemma one_timer_step e s : one_timer s -> one_timer (fst (step e s)).
Proof.
  intros Hs. destruct e as [f text | focused newItems | d].
  - right. eexists. split; [by apply input_pending|].
    by destruct (input_state f text s) as (_ & _ & ->).
  - exact Hs.
  - destruct Hs as [Hnil | (t & Ht & Hm)]; cbn.
    + left. by rewrite Hnil.
    + rewrite Ht. rewrite filter_cons, filter_nil.
      case_decide; [right; eauto | by left].
Qed.

Lemma one_timer_run es s : one_timer s -> one_timer (fst (run es s)).
Proof.
  revert s. induction es as [|e es IH]; intros s Hs; [done|].
  rewrite run_cons. cbn [fst]. by apply IH, one_timer_step.
Qed.

Lemma one_timer_initial : one_timer initial.
Proof. by left. Qed.

(** While the pending timer is not due and no memo is edited, nothing is
    sent and the timer stays. *)
Lemma quiet_run es s t :
  Timers.pending (timers s) = [t] ->
  no_input es ->
  (Timers.now (timers s) + elapsed es < Timers.due t)%N ->
  snd (run es s) = []
  /\ Timers.pending (timers (fst (run es s))) = [t].
Proof.
  revert s. induction es as [|e es IH]; intros s Ht Hno Hlt; [done|].
  rewrite run_cons. cbn [fst snd].
  assert (Hno' : no_input es) by (intros f x H; apply (Hno f x); by right).
  destruct e as [f text | focused newItems | d].
  - exfalso. apply (Hno f text). left.
  - cbn [step fst snd app]. apply IH; try done.
  - cbn [elapsed] in Hlt.
    assert (Hstep : snd (step (Wait d) s) = []
                    /\ Timers.pending (timers (fst (step (Wait d) s))) = [t]
                    /\ Timers.now (timers (fst (step (Wait d) s)))
                       = (Timers.now (timers s) + d)%N).
    { cbn. rewrite Ht. rewrite filter_cons_False by lia.
      rewrite filter_cons_True by lia. done. }
    destruct Hstep as (-> & Hp & Hn). cbn [app].
    apply IH; try done. rewrite Hn. lia.
Qed.

(** The pending save is sent once its timer is due. *)
Lemma due_wait d s t :
  Timers.pending (timers s) = [t] ->
  (Timers.due t <= Timers.now (timers s) + d)%N ->
  snd (step (Wait d) s) = [run_closure s (Timers.callback t)].
Proof.
  intros Ht Hd. cbn. rewrite Ht. by rewrite filter_cons_True by lia.
Qed.

(** A run of edits less than 1000 ms apart sends nothing. *)
Lemma edits_silent l s :
  one_timer s ->
  Forall (fun e => (e.2 < 1000)%N) l ->
  snd (run (edits l) s) = [] /\ one_timer (fst (run (edits l) s)).
Proof.
  revert s. induction l as [|[[f text] d] l IH]; intros s Hs Hl; [done|].
  apply Forall_cons in Hl as [Hd Hl]. cbn in Hd. cbn [edits].
  rewrite run_cons, input_silent. cbn [fst snd app].
  set (s1 := fst (step (MemoInput f text) s)).
  pose proof (input_pending f text s Hs) as Hp. fold s1 in Hp.
  destruct (input_state f text s) as (_ & Hn & _). fold s1 in Hn.
  rewrite run_cons. cbn [fst snd].
  destruct (quiet_run [Wait d] s1 _ Hp) as [Hq _].
  { intros f' t' H. apply list_elem_of_singleton in H. discriminate H. }
  { cbn [elapsed Timers.due]. rewrite Hn. lia. }
  rewrite run_cons in Hq. cbn [run fst snd] in Hq. rewrite app_nil_r in Hq.
  rewrite Hq. cbn [app].
  apply IH; [|done]. apply one_timer_step, one_timer_step, Hs.
Qed.

(** The save of an edit reads the memo when it fires. *)
Lemma last_edit_sent f text d s :
  one_timer s -> (1000 <= d)%N ->
  snd (run [MemoInput f text; Wait d] s)
  = [Tauri.save_memo f (PlainObject.get (PlainObject.set (memos s) f (Js.Str text)) f)].
Proof.
  intros Hs Hd. rewrite run_cons, input_silent. cbn [fst snd app].
  set (s1 := fst (step (MemoInput f text) s)).
  pose proof (input_pending f text s Hs) as Hp. fold s1 in Hp.
  destruct (input_state f text s) as (Hm & Hn & _). fold s1 in Hm, Hn.
  rewrite run_cons. cbn [run fst snd]. rewrite app_nil_r.
  rewrite (due_wait d s1 _ Hp) by (cbn [Timers.due]; rewrite Hn; lia).
  cbn [Timers.callback]. unfold run_closure, MainStore.saveMemo. by rewrite Hm.
Qed.

Lemma last_edit_saved f text d s :
  one_timer s -> (1000 <= d)%N -> PlainObject.ordinary f ->
  snd (run [MemoInput f text; Wait d] s)
  = [Tauri.save_memo f (PlainObject.Primitive (Js.Str text))].
Proof.
  intros Hs Hd Hf. rewrite last_edit_sent by done.
  by rewrite PlainObjectFacts.get_set_eq by (by apply PlainObjectFacts.ordinary_not_proto).
Qed.

(** The memos of a view that only saw memo inputs and waits: the object is
    as the literal made it, but for the properties the inputs stored. *)
Lemma typed_memos_keep_prototype es s :
  Forall (fun e => match e with ItemsChanged _ _ => False | _ => True end) es ->
  PlainObject.has_prototype (memos s) = true ->
  PlainObject.own (memos s) !! "__proto__" = None ->
  PlainObject.has_prototype (memos (fst (run es s))) = true
  /\ PlainObject.own (memos (fst (run es s))) !! "__proto__" = None.
Proof.
  revert s. induction es as [|e es IH]; intros s Hes Hp Ho; [done|].
  apply Forall_cons in Hes as [He Hes]. rewrite run_cons. cbn [fst].
  apply IH; [done|..]; destruct e as [f text | focused newItems | d]; try done.
  - destruct (input_state f text s) as (-> & _).
    by rewrite PlainObjectFacts.has_prototype_set by (by right).
  - destruct (input_state f text s) as (-> & _).
    destruct (decide (f = "__proto__")) as [->|Hne].
    + by rewrite PlainObjectFacts.set_proto_lost.
    + by rewrite PlainObjectFacts.own_set_ne.
Qed.

(** *** The timer queue follows the history *)

Lemma tracks_one_timer s acc : tracks s acc -> one_timer s.
Proof.
  destruct acc as [[f t]|]; cbn; [|by left].
  destruct (t <? 1000)%N; [|by left].
  intros (x & Hx & _ & _ & Hm). right. eauto.
Qed.

Lemma tracks_step e s acc : tracks s acc -> tracks (fst (step e s)) (since_step acc e).
Proof.
  intros Hs. destruct e as [f text | focused newItems | d].
  - pose proof (input_pending f text s (tracks_one_timer _ _ Hs)) as Hp.
    destruct (input_state f text s) as (_ & Hn & Hm).
    cbn [since_step tracks]. change (0 <? 1000)%N with true. cbn iota.
    eexists. split; [exact Hp|]. cbn [Timers.callback Timers.due Timers.id].
    rewrite Hn, Hm. repeat split. lia.
  - exact Hs.
  - assert (Hq : Timers.pending (timers (fst (step (Wait d) s)))
                 = filter (fun x => ¬ (Timers.due x <= Timers.now (timers s) + d)%N)
                          (Timers.pending (timers s))) by reflexivity.
    assert (Hn : Timers.now (timers (fst (step (Wait d) s)))
                 = (Timers.now (timers s) + d)%N) by reflexivity.
    assert (Hm : memoTimer (fst (step (Wait d) s)) = memoTimer s) by reflexivity.
    destruct acc as [[f t]|]; cbn [since_step fmap option_fmap option_map tracks] in *.
    + destruct (N.ltb_spec t 1000) as [Ht|Ht].
      * destruct Hs as (x & Hx & Hf & Hdue & Hid).
        rewrite Hq, Hx, filter_cons, filter_nil.
        destruct (N.ltb_spec (t + d) 1000) as [Htd|Htd].
        -- case_decide; [|lia]. exists x. rewrite Hn, Hm. repeat split; try done. lia.
        -- case_decide; [lia|done].
      * destruct (N.ltb_spec (t + d) 1000) as [Htd|Htd]; [lia|].
        by rewrite Hq, Hs.
    + by rewrite Hq, Hs.
Qed.

Lemma tracks_run es s acc :
  tracks s acc -> tracks (fst (run es s)) (fold_left since_step es acc).
Proof.
  revert s acc. induction es as [|e es IH]; intros s acc Hs; [done|].
  rewrite run_cons. cbn [fst fold_left]. by apply IH, tracks_step.
Qed.

(** When the memo save fires: the first wait that reaches 1000 ms after the
    latest memo input, and for the category of that input. *)
Lemma memo_save_fires s acc d :
  tracks s acc ->
  snd (step (Wait d) s)
  = match acc with
    | Some (f, t) =>
        if (t <? 1000)%N && (1000 <=? t + d)%N
        then [run_closure s f]
        else []
    | None => []
    end.
Proof.
  intros Hs.
  assert (Hout : snd (step (Wait d) s)
                 = run_closure s
                   <$> (Timers.callback
                          <$> filter (fun x => (Timers.due x <= Timers.now (timers s) + d)%N)
                                     (Timers.pending (timers s)))) by reflexivity.
  rewrite Hout. destruct acc as [[f t]|]; cbn [tracks] in Hs.
  - destruct (N.ltb_spec t 1000) as [Ht|Ht]; cbn [andb].
    + destruct Hs as (x & Hx & Hf & Hdue & Hid). rewrite Hx, filter_cons, filter_nil.
      destruct (N.leb_spec 1000 (t + d)) as [Htd|Htd].
      * case_decide; [|lia]. cbn. by rewrite Hf.
      * case_decide; [lia|done].
    + by rewrite Hs.
  - by rewrite Hs.
Qed.

(** C10: the save list has one memo timer for all categories. Whatever
    happened before: at most one memo save is pending; a wait sends a memo
    save only when it reaches 1000 ms after the latest memo input in any
    category, and then the timer's closure runs for the category of that
    input; after a memo input nothing is saved while less than 1000 ms pass
    without memo input; a memo input in any category replaces the pending
    save, whichever category it was for; so of a run of edits less than
    1000 ms apart only the category edited last is saved, once 1000 ms have
    passed, and for a name that is an ordinary key of [memos] the memo sent
    is the text typed last. *)
Theorem memo_timer_is_shared (history : list event) :
  let s := fst (run history initial) in
  (length (Timers.pending (timers s)) <= 1)%nat
  /\ (forall d,
      snd (step (Wait d) s)
      = match since_input history with
        | Some (f, t) =>
            if (t <? 1000)%N && (1000 <=? t + d)%N
            then [run_closure s f]
            else []
        | None => []
        end)
  /\ (forall f text es,
      no_input es -> (elapsed es < 1000)%N ->
      snd (run (MemoInput f text :: es) s) = [])
  /\ (forall f text d,
      (1000 <= d)%N ->
      exists v,
        snd (run [MemoInput f text; Wait d] s) = [Tauri.save_memo f v]
        /\ (PlainObject.ordinary f -> v = PlainObject.Primitive (Js.Str text)))
  /\ (forall a ta d b tb,
      (d < 1000)%N ->
      Timers.callback
        <$> Timers.pending (timers (fst (run [MemoInput a ta; Wait d; MemoInput b tb] s)))
      = [b])
  /\ (forall l f text d,
      Forall (fun e => (e.2 < 1000)%N) l -> (1000 <= d)%N ->
      exists v,
        snd (run (edits l ++ [MemoInput f text; Wait d]) s) = [Tauri.save_memo f v]
        /\ (PlainObject.ordinary f -> v = PlainObject.Primitive (Js.Str text))).
Proof.
  intros s.
  assert (Hs : one_timer s) by apply one_timer_run, one_timer_initial.
  assert (Hsent : forall s0 f text d, one_timer s0 -> (1000 <= d)%N ->
            exists v,
              snd (run [MemoInput f text; Wait d] s0) = [Tauri.save_memo f v]
              /\ (PlainObject.ordinary f -> v = PlainObject.Primitive (Js.Str text))).
  { intros s0 f text d H0 Hd. eexists. split; [by apply last_edit_sent|].
    intros Hf. apply PlainObjectFacts.get_set_eq.
    by apply PlainObjectFacts.ordinary_not_proto. }
  split; [|split; [|split; [|split; [|split]]]].
  - destruct Hs as [-> | (t & -> & _)]; cbn; lia.
  - intros d. apply memo_save_fires. by apply tracks_run.
  - intros f text es Hno Hlt.
    rewrite run_cons, input_silent. cbn [fst snd app].
    pose proof (input_pending f text s Hs) as Hp.
    destruct (input_state f text s) as (_ & Hn & _).
    apply (quiet_run es _ _ Hp Hno). cbn [Timers.due]. rewrite Hn. lia.
  - intros f text d Hd. by apply Hsent.
  - intros a ta d b tb Hd.
    change [MemoInput a ta; Wait d; MemoInput b tb]
      with (edits [(a, ta, d)] ++ [MemoInput b tb])%list.
    rewrite run_app. cbn [fst].
    destruct (edits_silent [(a, ta, d)] s Hs) as [_ H1].
    { by apply Forall_singleton. }
    rewrite run_cons. cbn [run fst]. by rewrite (input_pending b tb _ H1).
  - intros l f text d Hl Hd. rewrite run_app. cbn [snd].
    destruct (edits_silent l s Hs Hl) as [-> H1]. cbn [app].
    by apply Hsent.
Qed.

Lemma memo_timer_is_shared_witness :
  snd (run (edits [("SaveA", "first", 400%N); ("SaveB", "second", 999%N)]
              ++ [MemoInput "SaveC" "third"; Wait 1000])
           (fst (run [MemoInput "SaveA" "draft"; Wait 10] initial)))
  = [Tauri.save_memo "SaveC" (PlainObject.Primitive (Js.Str "third"))].
Proof.
  destruct (proj2 (proj2 (proj2 (proj2 (proj2
              (memo_timer_is_shared [MemoInput "SaveA" "draft"; Wait 10])))))
              [("SaveA", "first", 400%N); ("SaveB", "second", 999%N)]
              "SaveC" "third" 1000%N) as (v & Hout & Hv).
  - repeat constructor.
  - reflexivity.
  - rewrite Hout, Hv; [reflexivity|]. apply (bool_decide_unpack _). by vm_compute.
Defined.

(** A category named [__proto__]: what is typed in its memo field is never
    stored, and the save sends [Object.prototype] in its place. *)
Lemma proto_memo_not_saved history text d :
  Forall (fun e => match e with ItemsChanged _ _ => False | _ => True end) history ->
  (1000 <= d)%N ->
  snd (run [MemoInput "__proto__" text; Wait d] (fst (run history initial)))
  = [Tauri.save_memo "__proto__" PlainObject.Object_prototype].
Proof.
  intros Hh Hd.
  destruct (typed_memos_keep_prototype history initial Hh eq_refl eq_refl) as [Hp Ho].
  rewrite last_edit_sent by (done || apply one_timer_run, one_timer_initial).
  rewrite PlainObjectFacts.set_proto_lost by done.
  by rewrite PlainObjectFacts.get_proto.
Qed.
End SaveListFacts.

(** ** The notification overlay *)

Module NotificationOverlayFacts.
Import NotificationOverlay.

(** With a string as title the computed properties do not throw. *)
Lemma computed_defined s t :
  title s = Js.Str t ->
  (exists c, typeColor s = Some c) /\ (exists i, currentIcon s = Some i).
Proof.
  intros Ht. unfold typeColor, currentIcon, title_includes. rewrite Ht. cbn.
  split.
  - destruct (includes t _); [eauto|].
    destruct (includes t _); [eauto|].
    destruct (includes t _); eauto.
  - destruct (includes t _); [eauto|].
    destruct (includes t _); [eauto|].
    destruct (includes t _); eauto.
Qed.

Lemma render_visible s t :
  visible s = true -> title s = Js.Str t ->
  exists c, render s = Card c
            /\ card_title c = Js.Str t /\ card_message c = message s.
Proof.
  intros Hv Ht. unfold render. rewrite Hv.
  destruct (computed_defined s t Ht) as [[c ->] [i ->]].
  eexists. split; [reflexivity|]. cbn. by rewrite Ht.
Qed.

(** C6: the overlay reads three properties of a [show-notification]
    payload. After the listener ran, the title shown is [payload.title], the
    message is [payload.body], and the severity is [payload.type], or
    ['info'] when the payload has no (or a falsy) [type]; the card is
    visible, and for a string title it renders with that title and
    message. So for every user-facing event, which carries a severity, a
    title and a body, the overlay holds that severity and renders that title
    and body. *)
Theorem show_notification_displays (payload : gmap string Js.value) (s : state) :
  let s' := on_show_notification payload s in
  title s' = Js.get payload "title"
  /\ message s' = Js.get payload "body"
  /\ (Js.ToBoolean (Js.get payload "type") = true -> type s' = Js.get payload "type")
  /\ (Js.ToBoolean (Js.get payload "type") = false -> type s' = Js.Str "info")
  /\ (payload !! "type" = None -> type s' = Js.Str "info")
  /\ visible s' = true
  /\ (forall t,
      payload !! "title" = Some (Js.Str t) ->
      exists c, render s' = Card c
                /\ card_title c = Js.Str t
                /\ card_message c = Js.get payload "body")
  /\ (forall n,
      let sn := on_show_notification (payload_of n) s in
      type sn = Js.Str (severity_name (n_severity n))
      /\ exists c, render sn = Card c
                   /\ card_title c = Js.Str (n_title n)
                   /\ card_message c = Js.Str (n_body n)).
Proof.
  intros s'.
  assert (Ht : title s' = Js.get payload "title") by reflexivity.
  assert (Hm : message s' = Js.get payload "body") by reflexivity.
  assert (Hy : type s' = Js.or (Js.get payload "type") (Js.Str "info")) by reflexivity.
  assert (Hv : visible s' = true) by reflexivity.
  split; [done|]. split; [done|].
  split; [rewrite Hy; apply JsFacts.or_truthy|].
  split; [rewrite Hy; apply JsFacts.or_falsy|].
  split; [intros H; by rewrite Hy, (JsFacts.get_absent _ _ H)|].
  split; [done|]. split.
  - intros t H. rewrite <- Hm. apply render_visible; [done|].
    by rewrite Ht, (JsFacts.get_present _ _ _ H).
  - intros n sn. split.
    + by destruct n as [[] ? ?].
    + apply (render_visible sn (n_title n)); reflexivity.
Qed.

Lemma show_notification_displays_witness :
  let payload : gmap string Js.value :=
    <["title" := Js.Str "バックアップ完了"]> (<["body" := Js.Str "SaveA"]> ∅) in
  type (on_show_notification payload initial) = Js.Str "info"
  /\ exists c, render (on_show_notification payload initial) = Card c
               /\ card_title c = Js.Str "バックアップ完了"
               /\ card_message c = Js.get payload "body".
Proof.
  intros payload.
  pose proof (show_notification_displays payload initial) as (_ & _ & _ & _ & Hi & _ & Hr).
  split.
  - apply Hi. reflexivity.
  - apply Hr. reflexivity.
Defined.
End NotificationOverlayFacts.

(** ** The backup engine *)

Module EngineFacts.
Import Engine.

Lemma snapshots_insert st a category l :
  snapshots (with_archive st (<[category := l]> a)) category = l.
Proof. unfold snapshots. cbn. by rewrite lookup_insert_eq. Qed.

Lemma snapshots_insert_ne st a category c l :
  c ≠ category ->
  snapshots (with_archive st (<[category := l]> a)) c = default [] (a !! c).
Proof. intros H. unfold snapshots. cbn. by rewrite lookup_insert_ne. Qed.

Lemma prune_list_length fs limit snaps :
  (length (fst (prune_list fs limit snaps)) <= limit)%nat.
Proof. cbn. rewrite length_take. lia. Qed.

Lemma create_done fs category auto ts st st' new log :
  create fs category auto ts st = (st', inr (new, log)) ->
  snapshots st' category
  = take (max_generations (config st)) (new :: snapshots st category)
  /\ log = remove_all fs (rev (drop (max_generations (config st))
                                    (new :: snapshots st category)))
  /\ config st' = config st
  /\ (forall c, c ≠ category -> snapshots st' c = snapshots st c).
Proof.
  unfold create. destruct (live st !! category) as [src|]; [|discriminate].
  destruct (copy_tree _ src) as [t|t]; [|discriminate].
  unfold prune_list. intros [= <- <- <-].
  repeat split.
  - by rewrite snapshots_insert.
  - intros c Hc. by rewrite snapshots_insert_ne.
Qed.

(** A [create] that fails leaves the engine as it was. *)
Lemma create_failed fs category auto ts st st' e :
  create fs category auto ts st = (st', inl e) -> st' = st.
Proof.
  unfold create. destruct (live st !! category) as [src|]; [|by intros [= <-]].
  destruct (copy_tree _ src) as [t|t]; [|by intros [= <-]].
  unfold prune_list. discriminate.
Qed.

Lemma prune_every_lookup fs limit a c :
  default [] ((prune_every fs limit a).1 !! c) = take limit (default [] (a !! c)).
Proof.
  unfold prune_every. cbn [fst]. rewrite lookup_fmap.
  destruct (a !! c) as [snaps|]; cbn; [done|]. by rewrite take_nil.
Qed.

Lemma applySettings_config fs rescan path maxGenerations theme' st :
  max_generations (config (fst (applySettings fs rescan path maxGenerations theme' st)))
  = clamp maxGenerations.
Proof.
  unfold applySettings.
  destruct (clamp maxGenerations <? max_generations (config st))%nat; [|done].
  by destruct (prune_every _ _ _).
Qed.

Lemma applySettings_snapshots fs rescan path maxGenerations theme' st c :
  snapshots (fst (applySettings fs rescan path maxGenerations theme' st)) c
  = if (clamp maxGenerations <? max_generations (config st))%nat
    then take (clamp maxGenerations) (snapshots st c)
    else snapshots st c.
Proof.
  unfold applySettings.
  destruct (clamp maxGenerations <? max_generations (config st))%nat; [|done].
  pose proof (prune_every_lookup fs (clamp maxGenerations) (archive st) c) as H.
  destruct (prune_every _ _ _) as [a' log]. exact H.
Qed.

Lemma clamp_range maxGenerations :
  (1 <= clamp maxGenerations <= 100)%nat.
Proof. unfold clamp. lia. Qed.

(** The other operations do not touch the archive or the limit. *)
Lemma restore_keeps_archive fs category ts st c :
  snapshots (fst (restore fs category ts st)) c = snapshots st c
  /\ config (fst (restore fs category ts st)) = config st.
Proof.
  unfold restore. destruct (find_snapshot st category ts); [|done].
  destruct (copy_tree _ _); [|done]. destruct (locked fs); [done|].
  by destruct (swap _ _ _).
Qed.

(** C1: after a [create] that succeeded the Category holds at most
    [max_generations] snapshots, namely the newest ones, the one just
    created first, whether the directories of the excess ones could be
    removed or not (what could not be removed is in the log, oldest first,
    and nowhere else); after an
    [applySettings] that lowered the retention limit every Category holds at
    most the new limit, again the newest. The excess is gone when the
    operation returns. So the retention invariant, once it holds, holds
    after every [create], whatever its outcome, and every
    [applySettings]. *)
Theorem retention_after_create_and_decrease :
  (forall fs category auto ts st st' new log,
      create fs category auto ts st = (st', inr (new, log)) ->
      (length (snapshots st' category) <= max_generations (config st'))%nat
      /\ snapshots st' category
         = take (max_generations (config st)) (new :: snapshots st category)
      /\ ((1 <= max_generations (config st))%nat ->
          head (snapshots st' category) = Some new)
      /\ log = filter (fun s => remove_ok fs s = false)
                 (rev (drop (max_generations (config st)) (new :: snapshots st category)))
      /\ (forall c, c ≠ category -> snapshots st' c = snapshots st c))
  /\ (forall fs rescan path maxGenerations theme' st,
      (clamp maxGenerations < max_generations (config st))%nat ->
      let st' := fst (applySettings fs rescan path maxGenerations theme' st) in
      forall c,
        (length (snapshots st' c) <= max_generations (config st'))%nat
        /\ snapshots st' c = take (clamp maxGenerations) (snapshots st c))
  /\ (forall fs category auto ts st,
      within_limit st -> within_limit (fst (create fs category auto ts st)))
  /\ (forall fs rescan path maxGenerations theme' st,
      within_limit st ->
      within_limit (fst (applySettings fs rescan path maxGenerations theme' st))).
Proof.
  split; [|split; [|split]].
  - intros fs category auto ts st st' new log H.
    destruct (create_done _ _ _ _ _ _ _ _ H) as (Hk & Hl & Hc & Ho).
    split; [rewrite Hk, Hc, length_take; lia|]. split; [done|].
    split; [|done]. intros Hn. rewrite Hk.
    destruct (max_generations (config st)); [lia | done].
  - intros fs rescan path maxGenerations theme' st Hlt st' c. subst st'.
    rewrite applySettings_config, applySettings_snapshots.
    apply Nat.ltb_lt in Hlt. rewrite Hlt. split; [|done].
    rewrite length_take. lia.
  - intros fs category auto ts st Hst c.
    destruct (create fs category auto ts st) as [st' [e|[new log]]] eqn:E; cbn [fst].
    + apply create_failed in E. subst st'. apply Hst.
    + destruct (create_done _ _ _ _ _ _ _ _ E) as (Hk & _ & Hc & Ho).
      rewrite Hc. destruct (decide (c = category)) as [->|Hne].
      * rewrite Hk, length_take. lia.
      * rewrite Ho by done. apply Hst.
  - intros fs rescan path maxGenerations theme' st Hst c.
    rewrite applySettings_config, applySettings_snapshots.
    destruct (Nat.ltb_spec (clamp maxGenerations) (max_generations (config st))).
    + rewrite length_take. lia.
    + specialize (Hst c). lia.
Qed.

Lemma retention_after_create_and_decrease_witness :
  let st' := fst (create EngineExamples.stuck_archive "SaveA" false "20240301_080000"
                    EngineExamples.one_generation) in
  (length (snapshots st' "SaveA") <= 1)%nat
  /\ timestamp <$> snapshots st' "SaveA" = ["20240301_080000"].
Proof.
  intros st'.
  destruct (proj1 retention_after_create_and_decrease EngineExamples.stuck_archive
              "SaveA" false "20240301_080000" EngineExamples.one_generation st'
              {| timestamp := "20240301_080000"; is_auto := false;
                 content := [("slot1.sav", "level 4")] |}
              [EngineExamples.old_snapshot] eq_refl) as (Hlen & Hk & _).
  split; [exact Hlen|]. by rewrite Hk.
Defined.

(** The scenarios of the spec: four creations under a limit of three leave
    the three newest; lowering the limit from three to one leaves the
    newest. *)
Lemma fourth_create_drops_oldest :
  let st1 := fst (create healthy "SaveA" true "20240301_080000" EngineExamples.two_of_three) in
  let st2 := fst (create healthy "SaveA" true "20240302_080000" st1) in
  timestamp <$> snapshots st2 "SaveA"
  = ["20240302_080000"; "20240301_080000"; "20240101_120000"].
Proof. reflexivity. Qed.

Lemma lower_limit_prunes_at_once :
  timestamp <$> snapshots (fst (applySettings healthy ∅ "D:/saves" 1 "system"
                                   EngineExamples.two_of_three)) "SaveA"
  = ["20240101_120000"].
Proof. reflexivity. Qed.

(** C3: when the copy of the snapshot to the staging location fails,
    [restore] returns an error and the engine's state, the live subfolders
    included, is what it was; the same holds for every failure of [restore]
    short of a partial swap ([NotFound], [SourceLocked]). *)
Theorem restore_failed_copy_keeps_live fs category ts st snap part :
  find_snapshot st category ts = Some snap ->
  copy_tree (copy_fails_at fs) (content snap) = Partial part ->
  restore fs category ts st = (st, inl IOError)
  /\ live (fst (restore fs category ts st)) !! category = live st !! category
  /\ (forall fs' e, snd (restore fs' category ts st) = inl e -> e ≠ PartialFailure ->
      fst (restore fs' category ts st) = st).
Proof.
  intros Hf Hc.
  assert (H : restore fs category ts st = (st, inl IOError))
    by (unfold restore; by rewrite Hf, Hc).
  split; [done|]. split; [by rewrite H|].
  intros fs' e. unfold restore. rewrite Hf.
  destruct (copy_tree (copy_fails_at fs') _); [|reflexivity].
  destruct (locked fs'); [reflexivity|].
  destruct (swap _ _ _) as [now_live []]; cbn; [discriminate|].
  by intros [= <-].
Qed.

Lemma restore_failed_copy_keeps_live_witness :
  restore EngineExamples.failing_copy "SaveA" "20240101_120000"
          EngineExamples.one_generation
  = (EngineExamples.one_generation, inl IOError).
Proof.
  refine (proj1 (restore_failed_copy_keeps_live EngineExamples.failing_copy "SaveA"
                   "20240101_120000" EngineExamples.one_generation
                   EngineExamples.old_snapshot [] _ _)); reflexivity.
Defined.
End EngineFacts.

(** ** formatDate *)

Module DayjsFacts.
Import Dayjs Timestamp.
Local Open Scope Z_scope.

Lemma digit_cases k :
  0 <= k <= 9 ->
  k = 0 \/ k = 1 \/ k = 2 \/ k = 3 \/ k = 4 \/ k = 5 \/ k = 6 \/ k = 7 \/ k = 8 \/ k = 9.
Proof. lia. Qed.

Lemma digit_of_digit_char k : 0 <= k <= 9 -> digit_of (digit_char k) = Some k.
Proof.
  intros H. apply digit_cases in H.
  repeat (destruct H as [-> | H]; [reflexivity|]). by subst.
Qed.

Lemma is_digit_digit_char k : 0 <= k <= 9 -> is_digit (digit_char k) = true.
Proof. intros H. unfold is_digit. by rewrite digit_of_digit_char. Qed.

Lemma digit_char_not_underscore k : 0 <= k <= 9 -> digit_char k ≠ "_"%char.
Proof.
  intros Hk H. pose proof (is_digit_digit_char k Hk) as Hd. by rewrite H in Hd.
Qed.

(** The digits of a number below 100, or below 10000, are digits. *)
Lemma digits_two n :
  0 <= n <= 99 -> 0 <= n / 10 <= 9 /\ 0 <= n mod 10 <= 9.
Proof. intros H. Z.div_mod_to_equations. lia. Qed.

Lemma digits_four n :
  0 <= n <= 9999 ->
  0 <= n / 1000 <= 9 /\ 0 <= n / 100 mod 10 <= 9
  /\ 0 <= n / 10 mod 10 <= 9 /\ 0 <= n mod 10 <= 9.
Proof. intros H. Z.div_mod_to_equations. lia. Qed.

(** *** Strings *)

Lemma prefix_app v rest : String.prefix v (v ++ rest) = true.
Proof.
  induction v as [|c v IH]; [by destruct rest|].
  change (String.prefix (String c v) (String c v ++ rest))
    with (if ascii_dec c c then String.prefix v (v ++ rest) else false).
  destruct (ascii_dec c c); [exact IH | congruence].
Qed.

Lemma slice_app v rest : slice (String.length v) (v ++ rest) = rest.
Proof. induction v as [|c v IH]; cbn; [by destruct rest | done]. Qed.

Lemma remove_first_unfold value input :
  remove_first value input
  = if String.prefix value input then slice (String.length value) input
    else match input with
         | EmptyString => EmptyString
         | String c rest => String c (remove_first value rest)
         end.
Proof. by destruct input. Qed.

Lemma remove_first_head v rest : remove_first v (v ++ rest) = rest.
Proof. by rewrite remove_first_unfold, prefix_app, slice_app. Qed.

Lemma remove_first_after_underscore k v rest :
  0 <= k <= 9 ->
  remove_first (String (digit_char k) v)
               (String "_" (String (digit_char k) v ++ rest))
  = String "_" rest.
Proof.
  intros Hk. rewrite remove_first_unfold. cbn [String.prefix].
  destruct (ascii_dec (digit_char k) "_") as [E|_].
  - by apply digit_char_not_underscore in E.
  - f_equal. apply remove_first_head.
Qed.

Lemma remove_first_two_after_underscore n rest :
  0 <= n <= 99 ->
  remove_first (two n) (String "_" (two n ++ rest)) = String "_" rest.
Proof.
  intros H. unfold two. apply remove_first_after_underscore.
  by apply digits_two.
Qed.

Lemma exec_here_exec r part v : exec_here r part = Some v -> exec r part = Some v.
Proof. intros H. destruct part; cbn [exec]; by rewrite H. Qed.

Lemma digits_prefix_two n rest :
  0 <= n <= 99 -> digits_prefix 2 (two n ++ rest) = Some (two n).
Proof.
  intros H. destruct (digits_two n H) as [H1 H0].
  unfold two. cbv [append]. cbn [digits_prefix].
  by rewrite !is_digit_digit_char.
Qed.

Lemma exec_two r n rest :
  0 <= n <= 99 ->
  r = match2 \/ r = match1to2 -> exec r (two n ++ rest) = Some (two n).
Proof.
  intros H Hr. apply exec_here_exec.
  destruct Hr as [-> | ->]; cbn [exec_here]; by rewrite digits_prefix_two.
Qed.

Lemma exec_two_end r n :
  0 <= n <= 99 -> r = match2 \/ r = match1to2 -> exec r (two n) = Some (two n).
Proof.
  intros H Hr. apply exec_here_exec. destruct (digits_two n H) as [H1 H0].
  assert (Hp : digits_prefix 2 (two n) = Some (two n))
    by (unfold two; cbn [digits_prefix]; by rewrite !is_digit_digit_char).
  destruct Hr as [-> | ->]; cbn [exec_here]; by rewrite Hp.
Qed.

Lemma exec_four n rest :
  0 <= n <= 9999 -> exec match4 (four n ++ rest) = Some (four n).
Proof.
  intros H. destruct (digits_four n H) as (H3 & H2 & H1 & H0).
  apply exec_here_exec. unfold four, exec_here. cbv [append]. cbn [digits_prefix].
  by rewrite !is_digit_digit_char.
Qed.

(** *** Numbers and their digits *)

Lemma to_number_two n : 0 <= n <= 99 -> to_number (two n) = n.
Proof.
  intros H. unfold to_number, two. cbn [list_ascii_of_string fold_left].
  destruct (digits_two n H) as [H1 H0].
  rewrite (digit_of_digit_char (n / 10)), (digit_of_digit_char (n mod 10)) by done.
  unfold default, id. cbn [from_option]. Z.div_mod_to_equations. lia.
Qed.

Lemma to_number_four n : 0 <= n <= 9999 -> to_number (four n) = n.
Proof.
  intros H. unfold to_number, four. cbn [list_ascii_of_string fold_left].
  destruct (digits_four n H) as (H3 & H2 & H1 & H0).
  rewrite (digit_of_digit_char (n / 1000)), (digit_of_digit_char (n / 100 mod 10)),
    (digit_of_digit_char (n / 10 mod 10)), (digit_of_digit_char (n mod 10)) by done.
  unfold default, id. cbn [from_option]. Z.div_mod_to_equations. lia.
Qed.

Lemma decimal_loop_step fuel n acc :
  decimal_loop (S fuel) n acc
  = if n / 10 =? 0 then String (digit_char (n mod 10)) acc
    else decimal_loop fuel (n / 10) (String (digit_char (n mod 10)) acc).
Proof. reflexivity. Qed.

Lemma decimal_loop_1 fuel n acc :
  0 <= n < 10 -> decimal_loop (S fuel) n acc = String (digit_char n) acc.
Proof.
  intros H. rewrite decimal_loop_step.
  rewrite Z.div_small, Z.mod_small by lia. reflexivity.
Qed.

Lemma decimal_loop_2 fuel n acc :
  10 <= n < 100 ->
  decimal_loop (S (S fuel)) n acc
  = String (digit_char (n / 10)) (String (digit_char (n mod 10)) acc).
Proof.
  intros H. rewrite decimal_loop_step.
  destruct (Z.eqb_spec (n / 10) 0) as [E|_]; [Z.div_mod_to_equations; lia|].
  apply decimal_loop_1. Z.div_mod_to_equations; lia.
Qed.

Lemma decimal_loop_3 fuel n acc :
  100 <= n < 1000 ->
  decimal_loop (S (S (S fuel))) n acc
  = String (digit_char (n / 100))
      (String (digit_char (n / 10 mod 10)) (String (digit_char (n mod 10)) acc)).
Proof.
  intros H. rewrite decimal_loop_step.
  destruct (Z.eqb_spec (n / 10) 0) as [E|_]; [Z.div_mod_to_equations; lia|].
  rewrite decimal_loop_2 by (Z.div_mod_to_equations; lia).
  by rewrite Z.div_div by lia.
Qed.

Lemma decimal_loop_4 fuel n acc :
  1000 <= n < 10000 ->
  decimal_loop (S (S (S (S fuel)))) n acc
  = String (digit_char (n / 1000))
      (String (digit_char (n / 100 mod 10))
         (String (digit_char (n / 10 mod 10)) (String (digit_char (n mod 10)) acc))).
Proof.
  intros H. rewrite decimal_loop_step.
  destruct (Z.eqb_spec (n / 10) 0) as [E|_]; [Z.div_mod_to_equations; lia|].
  rewrite decimal_loop_3 by (Z.div_mod_to_equations; lia).
  by rewrite !Z.div_div by lia.
Qed.

Lemma fuel_enough n : 3 <= n -> S (Z.abs_nat n) = S (S (S (S (Z.abs_nat (n - 3))))).
Proof. lia. Qed.

Lemma padStart_two n : 0 <= n <= 99 -> padStart n 2 = two n.
Proof.
  intros H. unfold padStart, decimal, two.
  destruct (Z.ltb_spec n 0) as [?|_]; [lia|].
  destruct (Z.lt_ge_cases n 10) as [Hlt|Hge].
  - rewrite decimal_loop_1 by lia.
    rewrite Z.div_small, Z.mod_small by lia. reflexivity.
  - rewrite fuel_enough by lia. rewrite decimal_loop_2 by lia. reflexivity.
Qed.

Lemma padStart_four n : 100 <= n <= 9999 -> padStart n 4 = four n.
Proof.
  intros H. unfold padStart, decimal, four.
  destruct (Z.ltb_spec n 0) as [?|_]; [lia|].
  rewrite fuel_enough by lia.
  destruct (Z.lt_ge_cases n 1000) as [Hlt|Hge].
  - rewrite decimal_loop_3 by lia.
    rewrite (Z.div_small n 1000) by lia.
    rewrite (Z.mod_small (n / 100) 10) by (Z.div_mod_to_equations; lia).
    reflexivity.
  - rewrite decimal_loop_4 by lia. reflexivity.
Qed.

(** *** The date built from valid fields *)

Lemma carry_valid Y M D h m s :
  valid Y M D h m s ->
  carry Y (M - 1) D h m s
  = {| YYYY := Y; MM := M - 1; DD := D; hh := h; mm := m; ss := s |}.
Proof.
  intros (HY & HM & HD & Hh & Hm & Hs). unfold carry.
  assert (Hsecs : 0 <= h * 3600 + m * 60 + s < 86400) by lia.
  rewrite (Z.div_small _ 86400), (Z.mod_small _ 86400) by lia.
  rewrite (Z.div_small (M - 1) 12), (Z.mod_small (M - 1) 12) by lia.
  rewrite !Z.add_0_r. cbn [roll].
  destruct (Z.ltb_spec D 1) as [?|_]; [lia|].
  destruct (Z.ltb_spec (days_in_month Y (M - 1)) D) as [?|_]; [lia|].
  f_equal; Z.div_mod_to_equations; lia.
Qed.

(** A local time that exists in the zone is read back as it was given. *)
Lemma new_Date_valid tz Y M D h m s :
  valid Y M D h m s ->
  unskipped tz Y M D h m s ->
  new_Date tz Y (M - 1) D h m s
  = {| YYYY := Y; MM := M - 1; DD := D; hh := h; mm := m; ss := s |}.
Proof.
  intros Hv Hz. unfold new_Date.
  assert (HY : (0 <=? Y) && (Y <=? 99) = false).
  { destruct Hv as (HY & _). destruct (Z.leb_spec Y 99) as [?|_]; [lia|].
    apply andb_false_r. }
  rewrite HY, carry_valid by done. cbn [YYYY MM DD hh mm ss].
  unfold unskipped in Hz. cbn zeta in Hz. rewrite Hz, Z.sub_diag.
  change (0 / 1000) with 0. rewrite Z.add_0_r. by apply carry_valid.
Qed.

(** A zone that keeps one offset skips no local time. *)
Lemma fixed_offset_unskipped ms Y M D h m s : unskipped (fixed_offset ms) Y M D h m s.
Proof. unfold unskipped, LocalTime, UTC, fixed_offset. cbn zeta. lia. Qed.

(** *** The parser on an identifier *)

Lemma parser_identifier Y M D h m s :
  valid Y M D h m s ->
  parser YYYYMMDD_HHmmss (identifier Y M D h m s) 0 no_time
  = Some {| t_year := Some Y; t_month := Some M; t_day := Some D;
            t_hours := Some h; t_minutes := Some m; t_seconds := Some s |}.
Proof.
  intros (HY & HM & HD & Hh & Hm & Hs).
  assert (HD' : D <= 31) by (unfold days_in_month in HD;
    repeat match goal with
           | H : context [match ?x with _ => _ end] |- _ => destruct x
           end; lia).
  unfold identifier, YYYYMMDD_HHmmss. cbn [parser slice].
  rewrite exec_four, remove_first_head, to_number_four by lia.
  cbn [parser slice].
  rewrite exec_two, remove_first_head, to_number_two by (auto || lia).
  cbn [parser slice].
  rewrite exec_two, remove_first_head, to_number_two by (auto || lia).
  cbn [parser Nat.add String.length].
  change ("_" ++ two h ++ two m ++ two s)%string
    with (String "_" (two h ++ two m ++ two s)).
  cbn [slice].
  rewrite exec_two, to_number_two by (auto || lia).
  rewrite remove_first_two_after_underscore by lia.
  cbn [parser slice].
  rewrite exec_two, to_number_two by (auto || lia).
  rewrite remove_first_two_after_underscore by lia.
  cbn [parser slice].
  rewrite exec_two_end, to_number_two by (auto || lia).
  reflexivity.
Qed.

Lemma parse_identifier tz now Y M D h m s :
  valid Y M D h m s ->
  unskipped tz Y M D h m s ->
  parseFormattedInput tz now (identifier Y M D h m s) YYYYMMDD_HHmmss
  = Some {| YYYY := Y; MM := M - 1; DD := D; hh := h; mm := m; ss := s |}.
Proof.
  intros Hv Hz. unfold parseFormattedInput. rewrite parser_identifier by done.
  pose proof Hv as (HY & HM & HD & Hh & Hm & Hs).
  cbn [t_year t_month t_day t_hours t_minutes t_seconds truthy or_num].
  destruct (Z.eqb_spec Y 0) as [?|_]; [lia|].
  destruct (Z.eqb_spec M 0) as [?|_]; [lia|].
  destruct (Z.eqb_spec D 0) as [?|_]; [lia|].
  destruct (Z.ltb_spec 0 M) as [_|?]; [|lia].
  cbn [negb andb].
  replace (if h =? 0 then 0 else h) with h by (destruct (Z.eqb_spec h 0); lia).
  replace (if m =? 0 then 0 else m) with m by (destruct (Z.eqb_spec m 0); lia).
  replace (if s =? 0 then 0 else s) with s by (destruct (Z.eqb_spec s 0); lia).
  by rewrite new_Date_valid.
Qed.

(** Where [valid] fails the host's Date decides: a day past the end of its
    month carries over, and a year below 100 is read as 19xx. *)
Lemma formatDate_carries_over :
  SaveList.formatDate (fixed_offset 32400000)
    {| YYYY := 2026; MM := 10; DD := 2; hh := 9; mm := 30; ss := 0 |}
    "20230231_000000"
  = "2023-03-03 00:00:00".
Proof. reflexivity. Qed.

Lemma formatDate_two_digit_year :
  SaveList.formatDate (fixed_offset 32400000)
    {| YYYY := 2026; MM := 10; DD := 2; hh := 9; mm := 30; ss := 0 |}
    "00500101_000000"
  = "1950-01-01 00:00:00".
Proof. reflexivity. Qed.

(** A string that is not an identifier does not parse. *)
Lemma formatDate_invalid :
  SaveList.formatDate (fixed_offset 32400000)
    {| YYYY := 2026; MM := 10; DD := 2; hh := 9; mm := 30; ss := 0 |}
    "latest"
  = "Invalid Date".
Proof. reflexivity. Qed.

(** C7 as stated fails on a host whose zone skips local times: in a zone
    that puts its clocks forward from 02:00 to 03:00 on 10 March 2024, the
    identifier of 02:30:00 that day is shown as 03:30:00. *)
Lemma formatDate_skipped_hour :
  ~ (forall tz now Y M D h m s,
        valid Y M D h m s ->
        SaveList.formatDate tz now (identifier Y M D h m s) = display Y M D h m s).
Proof.
  intros H.
  specialize (H spring_forward
                {| YYYY := 2026; MM := 10; DD := 2; hh := 9; mm := 30; ss := 0 |}
                2024 3 10 2 30 0).
  assert (Hv : valid 2024 3 10 2 30 0).
  { unfold valid. change (days_in_month 2024 (3 - 1)) with 31. lia. }
  apply H in Hv. vm_compute in Hv. discriminate Hv.
Qed.

Lemma formatDate_skipped_hour_shown :
  SaveList.formatDate spring_forward
    {| YYYY := 2026; MM := 10; DD := 2; hh := 9; mm := 30; ss := 0 |}
    "20240310_023000"
  = "2024-03-10 03:30:00".
Proof. reflexivity. Qed.

(** C7, for the local times that exist on the host: for the identifier
    [YYYYMMDD_HHmmss] of a calendar date and time that the host's zone does
    not skip, [formatDate] returns the same year, month, day, hour, minute
    and second, written [YYYY-MM-DD HH:mm:ss]. *)
Theorem formatDate_same_instant tz now Y M D h m s :
  valid Y M D h m s ->
  unskipped tz Y M D h m s ->
  SaveList.formatDate tz now (identifier Y M D h m s) = display Y M D h m s.
Proof.
  intros Hv Hz. unfold SaveList.formatDate. rewrite parse_identifier by done.
  destruct Hv as (HY & HM & HD & Hh & Hm & Hs).
  assert (HD' : D <= 31) by (unfold days_in_month in HD;
    repeat match goal with
           | H : context [match ?x with _ => _ end] |- _ => destruct x
           end; lia).
  unfold format, YYYY_MM_DD_HH_mm_ss, display.
  cbn [fmap list_fmap format_token String.concat YYYY MM DD hh mm ss].
  replace (M - 1 + 1) with M by lia.
  rewrite padStart_four, !padStart_two by lia.
  reflexivity.
Qed.

Lemma formatDate_same_instant_witness :
  SaveList.formatDate spring_forward
    {| YYYY := 2026; MM := 10; DD := 2; hh := 9; mm := 30; ss := 0 |}
    "20240310_033000"
  = "2024-03-10 03:30:00".
Proof.
  refine (formatDate_same_instant spring_forward _ 2024 3 10 3 30 0 _ _).
  - unfold valid. change (Dayjs.days_in_month 2024 (3 - 1)) with 31. lia.
  - reflexivity.
Defined.
End DayjsFacts.

(** ** The debounced saves of the Settings view *)

Module SettingsSessionFacts.
Import SettingsSession.

Section Host.
Variable stn : string -> Js.number.

Lemma session_run_cons e es s :
  run stn (e :: es) s
  = (fst (run stn es (fst (step stn e s))),
     (snd (step stn e s) ++ snd (run stn es (fst (step stn e s))))%list).
Proof.
  cbn [run]. destruct (step stn e s) as [s1 o1]. cbn [fst snd].
  by destruct (run stn es s1).
Qed.

Lemma session_run_app es1 es2 s :
  run stn (es1 ++ es2) s
  = (fst (run stn es2 (fst (run stn es1 s))),
     (snd (run stn es1 s) ++ snd (run stn es2 (fst (run stn es1 s))))%list).
Proof.
  revert s. induction es1 as [|e es1 IH]; intros s.
  - cbn. by destruct (run stn es2 s).
  - cbn [app]. rewrite !session_run_cons, IH. cbn [fst snd]. by rewrite app_assoc.
Qed.

(** What a path input leaves behind. *)
Lemma path_input_effect text s :
  idle s \/ path_pending s ->
  let s' := fst (step stn (PathInput text) s) in
  Timers.pending (Settings.timers (view s'))
  = [ {| Timers.id := Timers.next_id (Settings.timers (view s));
         Timers.due := (Timers.now (Settings.timers (view s)) + 500)%N;
         Timers.callback := Settings.SaveSettings |} ]
  /\ Settings.pathTimer (view s') = Some (Timers.next_id (Settings.timers (view s)))
  /\ Timers.now (Settings.timers (view s')) = Timers.now (Settings.timers (view s))
  /\ Settings.localPath (view s') = Js.Str text
  /\ Settings.maxGenerations (view s') = Settings.maxGenerations (view s)
  /\ Settings.theme (view s') = Settings.theme (view s)
  /\ store s' = store s
  /\ snd (step stn (PathInput text) s) = [].
Proof.
  intros H. cbn. unfold idle, path_pending in H.
  destruct H as [Hnil | (t & Ht & Hm)].
  - destruct (Settings.pathTimer (view s)); cbn; rewrite Hnil; done.
  - rewrite Hm. cbn. rewrite Ht.
    rewrite filter_cons_False by (intros H; by apply H). done.
Qed.

Lemma wait_unfold d s :
  snd (step stn (Wait d) s)
  = Settings.run_closure (store s) (view s)
    <$> (Timers.callback
           <$> filter (fun x => (Timers.due x
                                 <= Timers.now (Settings.timers (view s)) + d)%N)
                      (Timers.pending (Settings.timers (view s))))
  /\ Timers.pending (Settings.timers (view (fst (step stn (Wait d) s))))
     = filter (fun x => ¬ (Timers.due x
                            <= Timers.now (Settings.timers (view s)) + d)%N)
              (Timers.pending (Settings.timers (view s)))
  /\ Timers.now (Settings.timers (view (fst (step stn (Wait d) s))))
     = (Timers.now (Settings.timers (view s)) + d)%N
  /\ Settings.pathTimer (view (fst (step stn (Wait d) s))) = Settings.pathTimer (view s)
  /\ Settings.generationsTimer (view (fst (step stn (Wait d) s)))
     = Settings.generationsTimer (view s)
  /\ Settings.localPath (view (fst (step stn (Wait d) s))) = Settings.localPath (view s)
  /\ Settings.maxGenerations (view (fst (step stn (Wait d) s)))
     = Settings.maxGenerations (view s)
  /\ Settings.theme (view (fst (step stn (Wait d) s))) = Settings.theme (view s)
  /\ store (fst (step stn (Wait d) s)) = store s.
Proof. repeat split. Qed.

(** Waiting less than the time left keeps the pending save; waiting long
    enough sends it. *)
Lemma wait_before_due d s t :
  Timers.pending (Settings.timers (view s)) = [t] ->
  (Timers.now (Settings.timers (view s)) + d < Timers.due t)%N ->
  let s' := fst (step stn (Wait d) s) in
  snd (step stn (Wait d) s) = []
  /\ Timers.pending (Settings.timers (view s')) = [t]
  /\ Settings.pathTimer (view s') = Settings.pathTimer (view s)
  /\ Settings.localPath (view s') = Settings.localPath (view s)
  /\ Settings.maxGenerations (view s') = Settings.maxGenerations (view s)
  /\ Settings.theme (view s') = Settings.theme (view s)
  /\ store s' = store s.
Proof.
  intros Ht Hlt s'.
  destruct (wait_unfold d s) as (Ho & Hp & _ & Hm & _ & Hl & Hg & Hth & Hst).
  subst s'. rewrite Ho, Hp, Ht, !filter_cons, !filter_nil.
  repeat case_decide; try lia. done.
Qed.

Lemma wait_after_due d s t :
  Timers.pending (Settings.timers (view s)) = [t] ->
  (Timers.due t <= Timers.now (Settings.timers (view s)) + d)%N ->
  snd (step stn (Wait d) s)
  = [MainStore.saveSettings (store s) (Settings.localPath (view s))
       (Settings.maxGenerations (view s)) (Settings.theme (view s))]
  /\ idle (fst (step stn (Wait d) s)).
Proof.
  intros Ht Hd. unfold idle.
  destruct (wait_unfold d s) as (Ho & Hp & _).
  rewrite Ho, Hp, Ht, !filter_cons, !filter_nil.
  repeat case_decide; try lia.
  split; [|done]. cbn [fmap list_fmap]. by destruct (Timers.callback t).
Qed.

Lemma path_edits_silent l s :
  idle s \/ path_pending s ->
  Forall (fun e => (e.2 < 500)%N) l ->
  let s' := fst (run stn (path_edits l) s) in
  snd (run stn (path_edits l) s) = []
  /\ (idle s' \/ path_pending s')
  /\ Settings.maxGenerations (view s') = Settings.maxGenerations (view s)
  /\ Settings.theme (view s') = Settings.theme (view s)
  /\ store s' = store s.
Proof.
  revert s. induction l as [|[text d] l IH]; intros s Hs Hl; [done|].
  apply Forall_cons in Hl as [Hd Hl]. cbn in Hd. cbn [path_edits].
  destruct (path_input_effect text s Hs) as (Hp & Hm & Hn & _ & Hg & Ht & Hst & Ho).
  set (s1 := fst (step stn (PathInput text) s)) in *.
  destruct (wait_before_due d s1 _ Hp) as (Ho2 & Hp2 & Hm2 & _ & Hg2 & Ht2 & Hst2).
  { cbn [Timers.due]. rewrite Hn. lia. }
  set (s2 := fst (step stn (Wait d) s1)) in *.
  destruct (IH s2) as (Ho3 & Hs3 & Hg3 & Ht3 & Hst3); [|done|].
  { right. eexists. split; [exact Hp2|]. by rewrite Hm2, Hm. }
  rewrite !session_run_cons. cbn [fst snd]. fold s1. fold s2.
  rewrite Ho, Ho2, Ho3. repeat split; try done; congruence.
Qed.

(** X1: a burst of path edits less than 500 ms apart sends nothing until 500
    ms pass without a path edit, and then exactly one [save_settings], with
    the text typed last and the retention limit and theme the view shows. *)
Theorem path_edits_debounced l text d (s : state) :
  idle s ->
  Forall (fun e => (e.2 < 500)%N) l ->
  (500 <= d)%N ->
  snd (run stn (path_edits l ++ [PathInput text; Wait d]) s)
  = [MainStore.saveSettings (store s) (Js.Str text)
       (Settings.maxGenerations (view s)) (Settings.theme (view s))].
Proof.
  intros Hs Hl Hd. rewrite session_run_app.
  destruct (path_edits_silent l s (or_introl Hs) Hl) as (-> & Hs1 & Hg1 & Ht1 & Hst1).
  set (s1 := fst (run stn (path_edits l) s)) in *. cbn [app snd].
  destruct (path_input_effect text s1 Hs1) as (Hp & Hm & Hn & Hl2 & Hg & Ht & Hst & Ho).
  set (s2 := fst (step stn (PathInput text) s1)) in *.
  rewrite session_run_cons. fold s2. rewrite Ho. cbn [app].
  rewrite session_run_cons. cbn [run snd]. rewrite app_nil_r.
  destruct (wait_after_due d s2 _ Hp) as [-> _].
  { cbn [Timers.due]. rewrite Hn. lia. }
  congruence.
Qed.
(** *** Broadcasts while a save is pending *)

Lemma store_change_timers old new v :
  Settings.timers (Settings.on_store_change old new v) = Settings.timers v
  /\ Settings.pathTimer (Settings.on_store_change old new v) = Settings.pathTimer v
  /\ Settings.generationsTimer (Settings.on_store_change old new v)
     = Settings.generationsTimer v.
Proof.
  unfold Settings.on_store_change, Settings.rerun.
  repeat case_decide; done.
Qed.

Lemma store_change_same_limit old new v :
  Js.get (MainStore.settings old) "max_generations"
  = Js.get (MainStore.settings new) "max_generations" ->
  Settings.maxGenerations (Settings.on_store_change old new v)
  = Settings.maxGenerations v.
Proof.
  intros H. unfold Settings.on_store_change, Settings.rerun.
  rewrite H. repeat case_decide; done.
Qed.

Lemma generations_input_effect entered s :
  idle s ->
  let s' := fst (step stn (GenerationsInput entered) s) in
  Timers.pending (Settings.timers (view s'))
  = [ {| Timers.id := Timers.next_id (Settings.timers (view s));
         Timers.due := (Timers.now (Settings.timers (view s)) + 500)%N;
         Timers.callback := Settings.SaveSettings |} ]
  /\ Timers.now (Settings.timers (view s')) = Timers.now (Settings.timers (view s))
  /\ Settings.maxGenerations (view s') = Settings.limit stn entered
  /\ store s' = store s
  /\ snd (step stn (GenerationsInput entered) s) = [].
Proof.
  intros H. unfold idle in H. cbn.
  destruct (Settings.generationsTimer (view s)); cbn; rewrite H; done.
Qed.

(** X3: a [settings-state] broadcast that arrives while the save of a typed
    retention limit is pending and carries another [max_generations] than the
    store held replaces the typed value in the field, and the pending save
    then sends the broadcast value (or 10 when it is falsy), not the typed
    one. When the broadcast leaves [max_generations] as the store had it, the
    typed value, corrected into 1..100, is sent. *)
Theorem broadcast_replaces_typed_limit p d (s : state) :
  idle s ->
  (500 <= d)%N ->
  (forall entered,
      Js.get (MainStore.settings (store s)) "max_generations"
        ≠ Js.get p "max_generations" ->
      exists path th,
        snd (run stn [GenerationsInput entered;
                      Broadcast (MainStore.settings_state p); Wait d] s)
        = [Tauri.save_settings path
             (Js.or (Js.get p "max_generations") (Js.int 10)) th])
  /\ (forall n,
      n ≠ Js.NaN ->
      Js.get (MainStore.settings (store s)) "max_generations"
        = Js.get p "max_generations" ->
      exists path th,
        snd (run stn [GenerationsInput (Js.Num n);
                      Broadcast (MainStore.settings_state p); Wait d] s)
        = [Tauri.save_settings path (Settings.limit stn (Js.Num n)) th]).
Proof.
  intros Hs Hd.
  assert (Hrun : forall entered,
    let s1 := fst (step stn (GenerationsInput entered) s) in
    let s2 := fst (step stn (Broadcast (MainStore.settings_state p)) s1) in
    snd (run stn [GenerationsInput entered;
                  Broadcast (MainStore.settings_state p); Wait d] s)
    = [MainStore.saveSettings (store s2) (Settings.localPath (view s2))
         (Settings.maxGenerations (view s2)) (Settings.theme (view s2))]).
  { intros entered s1 s2.
    destruct (generations_input_effect entered s Hs) as (Hp & Hn & _ & _ & Ho).
    fold s1 in Hp, Hn.
    rewrite session_run_cons. fold s1. rewrite Ho. cbn [app].
    rewrite session_run_cons. fold s2.
    change (snd (step stn (Broadcast (MainStore.settings_state p)) s1))
      with (@nil Tauri.command).
    cbn [app].
    rewrite session_run_cons. cbn [run snd]. rewrite app_nil_r.
    assert (Ht2 : Settings.timers (view s2) = Settings.timers (view s1))
      by apply store_change_timers.
    destruct (wait_after_due d s2 _ (eq_trans (f_equal Timers.pending Ht2) Hp)) as [-> _];
      [|done].
    rewrite Ht2. cbn [Timers.due]. rewrite Hn. lia. }
  split.
  - intros entered Hne. rewrite Hrun. eexists _, _.
    unfold MainStore.saveSettings.
    set (s1 := fst (step stn (GenerationsInput entered) s)).
    assert (Hm : Settings.maxGenerations
                   (view (fst (step stn (Broadcast (MainStore.settings_state p)) s1)))
                 = Js.or (Js.get p "max_generations") (Js.int 10)).
    { destruct (generations_input_effect entered s Hs) as (_ & _ & _ & Hst & _).
      fold s1 in Hst. cbn [step fst view].
      rewrite StartupFacts.change_maxGenerations; [done|].
      rewrite Hst. exact Hne. }
    rewrite Hm.
    rewrite !(JsFacts.or_truthy (Js.or (Js.get p "max_generations") (Js.int 10)))
      by (by apply JsFacts.or_default_truthy).
    reflexivity.
  - intros n Hn Heq. rewrite Hrun. eexists _, _.
    unfold MainStore.saveSettings.
    set (s1 := fst (step stn (GenerationsInput (Js.Num n)) s)).
    assert (Hm : Settings.maxGenerations
                   (view (fst (step stn (Broadcast (MainStore.settings_state p)) s1)))
                 = Settings.limit stn (Js.Num n)).
    { destruct (generations_input_effect (Js.Num n) s Hs) as (_ & _ & Hl & Hst & _).
      fold s1 in Hst, Hl. cbn [step fst view].
      rewrite store_change_same_limit; [done|].
      rewrite Hst. exact Heq. }
    rewrite Hm.
    destruct (SettingsFacts.limit_number stn n Hn) as [Hr _].
    apply SettingsFacts.in_1_100_truthy in Hr.
    by rewrite !(JsFacts.or_truthy _ _ Hr).
Qed.

(** *** The two debounce timers *)

Lemma path_input_ids text s :
  Timers.next_id (Settings.timers (view (fst (step stn (PathInput text) s))))
  = Pos.succ (Timers.next_id (Settings.timers (view s)))
  /\ Settings.generationsTimer (view (fst (step stn (PathInput text) s)))
     = Settings.generationsTimer (view s).
Proof. cbn. by destruct (Settings.pathTimer (view s)). Qed.

Lemma generations_input_beside entered s p :
  Timers.pending (Settings.timers (view s)) = [p] ->
  Settings.generationsTimer (view s) ≠ Some (Timers.id p) ->
  (Timers.due p <= Timers.now (Settings.timers (view s)) + 500)%N ->
  let s' := fst (step stn (GenerationsInput entered) s) in
  Timers.pending (Settings.timers (view s'))
  = [ p;
      {| Timers.id := Timers.next_id (Settings.timers (view s));
         Timers.due := (Timers.now (Settings.timers (view s)) + 500)%N;
         Timers.callback := Settings.SaveSettings |} ]
  /\ Timers.now (Settings.timers (view s')) = Timers.now (Settings.timers (view s))
  /\ Settings.localPath (view s') = Settings.localPath (view s)
  /\ Settings.maxGenerations (view s') = Settings.limit stn entered
  /\ Settings.theme (view s') = Settings.theme (view s)
  /\ store s' = store s
  /\ snd (step stn (GenerationsInput entered) s) = [].
Proof.
  intros Hp Hg Hdue. cbn.
  destruct (Settings.generationsTimer (view s)) as [i|]; cbn; rewrite Hp.
  - rewrite filter_cons_True by congruence. rewrite filter_nil. cbn.
    destruct (N.leb_spec (Timers.due p) (Timers.now (Settings.timers (view s)) + 500));
      [done | lia].
  - cbn.
    destruct (N.leb_spec (Timers.due p) (Timers.now (Settings.timers (view s)) + 500));
      [done | lia].
Qed.

Lemma wait_fires_both d s p g :
  Timers.pending (Settings.timers (view s)) = [p; g] ->
  (Timers.due p <= Timers.now (Settings.timers (view s)) + d)%N ->
  (Timers.due g <= Timers.now (Settings.timers (view s)) + d)%N ->
  snd (step stn (Wait d) s)
  = [MainStore.saveSettings (store s) (Settings.localPath (view s))
       (Settings.maxGenerations (view s)) (Settings.theme (view s));
     MainStore.saveSettings (store s) (Settings.localPath (view s))
       (Settings.maxGenerations (view s)) (Settings.theme (view s))].
Proof.
  intros Hq Hp Hg. destruct (wait_unfold d s) as (Ho & _).
  rewrite Ho, Hq, !filter_cons, !filter_nil.
  repeat case_decide; try lia. cbn [fmap list_fmap].
  by destruct (Timers.callback p), (Timers.callback g).
Qed.

(** The ids the view holds stay below the next id of its queue. *)
Lemma issued_step e s : SettingsIds.issued s -> SettingsIds.issued (fst (step stn e s)).
Proof.
  unfold SettingsIds.issued. intros Hi. destruct e as [text|entered|th|e|d].
  - cbn. destruct (Settings.pathTimer (view s)) eqn:E; cbn;
      intros i [[= <-]|H]; try lia; specialize (Hi i (or_intror H)); lia.
  - cbn. destruct (Settings.generationsTimer (view s)) eqn:E; cbn;
      intros i [H|[= <-]]; try lia; specialize (Hi i (or_introl H)); lia.
  - exact Hi.
  - cbn [step fst view].
    destruct (store_change_timers (store s) (MainStore.on_event e (store s)) (view s))
      as (-> & -> & ->). exact Hi.
  - destruct (wait_unfold d s) as (_ & _ & _ & Hp & Hg & _).
    rewrite Hp, Hg. exact Hi.
Qed.

Lemma issued_run es st : SettingsIds.issued (fst (run stn es (mount st))).
Proof.
  assert (H : forall s, SettingsIds.issued s -> SettingsIds.issued (fst (run stn es s))).
  { induction es as [|e es IH]; intros s Hs; [done|].
    rewrite session_run_cons. cbn [fst]. by apply IH, issued_step. }
  apply H. intros i [E|E]; discriminate E.
Qed.

(** X2: the path field and the retention field have a debounce timer each.
    A path edit followed by a retention edit less than 500 ms later does not
    merge into one save: when 500 ms have passed after the second edit, two
    [save_settings] have been sent, both with the path typed and the
    corrected retention limit. *)
Theorem two_timers_send_twice text n d1 d2 (s : state) :
  idle s ->
  SettingsIds.issued s ->
  (d1 < 500)%N ->
  (500 <= d2)%N ->
  snd (run stn [PathInput text; Wait d1; GenerationsInput (Js.Num n); Wait d2] s)
  = [MainStore.saveSettings (store s) (Js.Str text)
       (Settings.limit stn (Js.Num n)) (Settings.theme (view s));
     MainStore.saveSettings (store s) (Js.Str text)
       (Settings.limit stn (Js.Num n)) (Settings.theme (view s))].
Proof.
  intros Hs Hi Hd1 Hd2.
  destruct (path_input_effect text s (or_introl Hs))
    as (Hp & Hm & Hn & Hl & _ & Ht & Hst & Ho).
  destruct (path_input_ids text s) as [_ Hg].
  set (s1 := fst (step stn (PathInput text) s)) in *.
  destruct (wait_before_due d1 s1 _ Hp) as (Ho2 & Hp2 & _ & Hl2 & _ & Ht2 & Hst2).
  { cbn [Timers.due]. rewrite Hn. lia. }
  destruct (wait_unfold d1 s1) as (_ & _ & Hn2 & _ & Hg2 & _).
  set (s2 := fst (step stn (Wait d1) s1)) in *.
  destruct (generations_input_beside (Js.Num n) s2 _ Hp2)
    as (Hp3 & Hn3 & Hl3 & Hm3 & Ht3 & Hst3 & Ho3).
  { rewrite Hg2, Hg. cbn [Timers.id]. intros E.
    specialize (Hi _ (or_intror E)). lia. }
  { cbn [Timers.due]. rewrite Hn2, Hn. lia. }
  set (s3 := fst (step stn (GenerationsInput (Js.Num n)) s2)) in *.
  rewrite !session_run_cons. cbn [run snd]. fold s1. fold s2. fold s3.
  rewrite Ho, Ho2, Ho3, app_nil_r. cbn [app].
  rewrite (wait_fires_both d2 s3 _ _ Hp3).
  - by rewrite Hst3, Hst2, Hst, Hl3, Hl2, Hl, Hm3, Ht3, Ht2, Ht.
  - cbn [Timers.due]. rewrite Hn3, Hn2, Hn. lia.
  - cbn [Timers.due]. rewrite Hn3, Hn2. lia.
Qed.

(** *** Choosing a theme, and clearing the retention field *)

(** X4: choosing a theme sends a [save_settings] at once, with the path and the
    retention limit the fields hold at that moment, and does not cancel the
    debounced save of a path edit: that save is sent as well when its 500 ms
    are over, with the same arguments. *)
Theorem theme_choice_keeps_pending_save text th d1 d2 (s : state) :
  idle s ->
  Js.ToBoolean th = true ->
  (d1 < 500)%N ->
  (500 <= d1 + d2)%N ->
  snd (run stn [PathInput text; Wait d1; ThemeChoice th; Wait d2] s)
  = [MainStore.saveSettings (store s) (Js.Str text)
       (Settings.maxGenerations (view s)) th;
     MainStore.saveSettings (store s) (Js.Str text)
       (Settings.maxGenerations (view s)) th].
Proof.
  intros Hs Hth Hd1 Hd2.
  destruct (path_input_effect text s (or_introl Hs))
    as (Hp & Hm & Hn & Hl & Hg & Ht & Hst & Ho).
  set (s1 := fst (step stn (PathInput text) s)) in *.
  destruct (wait_before_due d1 s1 _ Hp) as (Ho2 & Hp2 & _ & Hl2 & Hg2 & Ht2 & Hst2).
  { cbn [Timers.due]. rewrite Hn. lia. }
  destruct (wait_unfold d1 s1) as (_ & _ & Hn2 & _).
  set (s2 := fst (step stn (Wait d1) s1)) in *.
  set (s3 := fst (step stn (ThemeChoice th) s2)).
  assert (H3 : snd (step stn (ThemeChoice th) s2)
               = [MainStore.saveSettings (store s2) (Settings.localPath (view s2))
                    (Settings.maxGenerations (view s2)) th]) by reflexivity.
  assert (Hp3 : Timers.pending (Settings.timers (view s3))
                = Timers.pending (Settings.timers (view s2))) by reflexivity.
  assert (Hn3 : Timers.now (Settings.timers (view s3))
                = Timers.now (Settings.timers (view s2))) by reflexivity.
  assert (Hv3 : store s3 = store s2
                /\ Settings.localPath (view s3) = Settings.localPath (view s2)
                /\ Settings.maxGenerations (view s3) = Settings.maxGenerations (view s2)
                /\ Settings.theme (view s3) = th) by done.
  destruct Hv3 as (Hst3 & Hl3 & Hg3 & Ht3).
  rewrite !session_run_cons. cbn [run snd]. fold s1. fold s2. fold s3.
  rewrite Ho, Ho2, H3, app_nil_r. cbn [app].
  destruct (wait_after_due d2 s3 _ (eq_trans Hp3 Hp2)) as [-> _].
  { cbn [Timers.due]. rewrite Hn3, Hn2, Hn. lia. }
  rewrite Hst3, Hl3, Hg3, Ht3, Hst2, Hl2, Hg2, Hst, Hl, Hg.
  unfold MainStore.saveSettings.
  by rewrite !(JsFacts.or_truthy th) by done.
Qed.

(** X5: clearing the retention field leaves the empty string in it
    ([v-model.number] keeps a text that is no number as it is); the host reads
    the empty string as 0 in a comparison, so the handler puts 1 in the field
    at once and the save that follows sends 1. *)
Theorem cleared_field_becomes_one d (s : state) :
  stn EmptyString = Js.of_Z 0 ->
  idle s ->
  (500 <= d)%N ->
  Settings.maxGenerations (view (fst (step stn (GenerationsInput (Js.Str EmptyString)) s)))
  = Js.int 1
  /\ exists path th,
      snd (run stn [GenerationsInput (Js.Str EmptyString); Wait d] s)
      = [Tauri.save_settings path (Js.int 1) th].
Proof.
  intros Hstn Hs Hd.
  assert (Hl : Settings.limit stn (Js.Str EmptyString) = Js.int 1).
  { unfold Settings.limit, Js.lt_lit, Js.gt_lit. cbn [Js.ToNumber]. rewrite Hstn.
    reflexivity. }
  destruct (generations_input_effect (Js.Str EmptyString) s Hs)
    as (Hp & Hn & Hm & Hst & Ho).
  set (s1 := fst (step stn (GenerationsInput (Js.Str EmptyString)) s)) in *.
  split; [by rewrite Hm|].
  rewrite !session_run_cons. cbn [run snd]. fold s1. rewrite Ho, app_nil_r. cbn [app].
  destruct (wait_after_due d s1 _ Hp) as [-> _].
  { cbn [Timers.due]. rewrite Hn. lia. }
  rewrite Hm, Hl. eexists _, _. reflexivity.
Qed.

End Host.

Lemma path_edits_debounced_witness :
  snd (run (fun _ => Js.NaN)
         (path_edits [("D", 100%N); ("D:", 120%N); ("D:/", 499%N)]
            ++ [PathInput "D:/saves"; Wait 500])
         (mount MainStore.initial))
  = [Tauri.save_settings (Js.Str "D:/saves") (Js.int 10) (Js.Str "system")].
Proof.
  apply (path_edits_debounced (fun _ => Js.NaN)
           [("D", 100%N); ("D:", 120%N); ("D:/", 499%N)] "D:/saves" 500
           (mount MainStore.initial)).
  - reflexivity.
  - repeat constructor.
  - reflexivity.
Defined.

Lemma broadcast_replaces_typed_limit_witness :
  exists path th,
    snd (run (fun _ => Js.NaN)
           [GenerationsInput (Js.int 50);
            Broadcast (MainStore.settings_state
                         (<["max_generations" := Js.int 20]> ∅));
            Wait 500]
           (mount MainStore.initial))
    = [Tauri.save_settings path (Js.int 20) th].
Proof.
  refine (proj1 (broadcast_replaces_typed_limit (fun _ => Js.NaN)
                   (<["max_generations" := Js.int 20]> ∅) 500
                   (mount MainStore.initial) _ _) (Js.int 50) _).
  - reflexivity.
  - reflexivity.
  - vm_compute. discriminate.
Defined.

Lemma two_timers_send_twice_witness :
  snd (run (fun _ => Js.NaN)
         [PathInput "D:/saves"; Wait 200; GenerationsInput (Js.int 250); Wait 500]
         (mount MainStore.initial))
  = [Tauri.save_settings (Js.Str "D:/saves") (Js.int 100) (Js.Str "system");
     Tauri.save_settings (Js.Str "D:/saves") (Js.int 100) (Js.Str "system")].
Proof.
  apply (two_timers_send_twice (fun _ => Js.NaN) "D:/saves" (Js.of_Z 250) 200 500
           (mount MainStore.initial)).
  - reflexivity.
  - intros i [H|H]; discriminate H.
  - reflexivity.
  - reflexivity.
Defined.

Lemma theme_choice_keeps_pending_save_witness :
  snd (run (fun _ => Js.NaN)
         [PathInput "D:/saves"; Wait 100; ThemeChoice (Js.Str "light"); Wait 400]
         (mount MainStore.initial))
  = [Tauri.save_settings (Js.Str "D:/saves") (Js.int 10) (Js.Str "light");
     Tauri.save_settings (Js.Str "D:/saves") (Js.int 10) (Js.Str "light")].
Proof.
  apply (theme_choice_keeps_pending_save (fun _ => Js.NaN) "D:/saves"
           (Js.Str "light") 100 400 (mount MainStore.initial)).
  - reflexivity.
  - reflexivity.
  - lia.
  - lia.
Defined.

Lemma cleared_field_becomes_one_witness :
  Settings.maxGenerations
    (view (fst (step (fun _ => Js.of_Z 0) (GenerationsInput (Js.Str EmptyString))
                  (mount MainStore.initial))))
  = Js.int 1.
Proof.
  refine (proj1 (cleared_field_becomes_one (fun _ => Js.of_Z 0) 500
                   (mount MainStore.initial) _ _ _)).
  - reflexivity.
  - reflexivity.
  - lia.
Defined.
End SettingsSessionFacts.

(** ** The notification overlay over time *)

Module OverlayClockFacts.
Import NotificationOverlay OverlayClock.

Ltac fields :=
  cbn [set_now after_show show_rejected on_show_notification
       title message type timer visible window_wanted suspended timers
       Timers.pending Timers.now Timers.next_id].

Lemma notify_state payload s :
  let s1 := on_show_notification payload s in
  title s1 = Js.get payload "title"
  /\ message s1 = Js.get payload "body"
  /\ visible s1 = true
  /\ window_wanted s1 = true
  /\ timers s1 = timers s
  /\ timer s1 = timer s
  /\ suspended s1 = S (suspended s).
Proof. done. Qed.

(** Resuming after [win.show()] touches the timers only. *)
Lemma after_show_refs s :
  let s1 := after_show s in
  title s1 = title s /\ message s1 = message s /\ type s1 = type s
  /\ visible s1 = visible s /\ window_wanted s1 = window_wanted s
  /\ Timers.now (timers s1) = Timers.now (timers s).
Proof. cbn. by destruct (timer s). Qed.

Lemma after_show_settled s :
  at_rest s \/ card_showing s ->
  let s1 := after_show s in
  Timers.pending (timers s1)
  = [ {| Timers.id := Timers.next_id (timers s);
         Timers.due := (Timers.now (timers s) + 3000)%N;
         Timers.callback := HideCard |} ]
  /\ Timers.next_id (timers s1) = Pos.succ (Timers.next_id (timers s))
  /\ timer s1 = Some (Timers.next_id (timers s)).
Proof.
  unfold at_rest. intros [H | (c & Hp & _ & Ht)]; cbn.
  - destruct (timer s); cbn; rewrite H; done.
  - rewrite Ht. cbn. rewrite Hp.
    rewrite filter_cons_False by (intros H; by apply H). done.
Qed.

Lemma fire_due_later fuel target s t l :
  Timers.pending (timers s) = t :: l ->
  (target < Timers.due t)%N ->
  fire_due fuel target s = s.
Proof.
  intros Hp Hlt. destruct fuel; [done|]. cbn. rewrite Hp.
  destruct (N.leb_spec (Timers.due t) target); [lia | done].
Qed.

Lemma fire_due_none fuel target s : at_rest s -> fire_due fuel target s = s.
Proof. unfold at_rest. intros Hp. destruct fuel; [done|]. cbn. by rewrite Hp. Qed.

Lemma fire_due_now fuel target s t l :
  Timers.pending (timers s) = t :: l ->
  (Timers.due t <= target)%N ->
  fire_due (S fuel) target s = fire_due fuel target (on_timer s).
Proof.
  intros Hp Hle. cbn. rewrite Hp.
  destruct (N.leb_spec (Timers.due t) target); [done | lia].
Qed.

(** The card timer fires: the card goes and the window timer is set. *)
Lemma on_timer_card s c l :
  Timers.pending (timers s) = c :: l ->
  Timers.callback c = HideCard ->
  let s' := on_timer s in
  visible s' = false
  /\ window_wanted s' = window_wanted s
  /\ title s' = title s /\ message s' = message s /\ type s' = type s
  /\ timer s' = timer s
  /\ Timers.now (timers s') = N.max (Timers.now (timers s)) (Timers.due c)
  /\ Timers.next_id (timers s') = Pos.succ (Timers.next_id (timers s))
  /\ Timers.pending (timers s')
     = Timers.enqueue
         {| Timers.id := Timers.next_id (timers s);
            Timers.due := (N.max (Timers.now (timers s)) (Timers.due c) + 300)%N;
            Timers.callback := HideWindow |} l.
Proof.
  intros Hp Hc. unfold on_timer, Timers.fire_next. rewrite Hp, Hc. done.
Qed.

(** The window timer fires: the window is hidden. *)
Lemma on_timer_window s w l :
  Timers.pending (timers s) = w :: l ->
  Timers.callback w = HideWindow ->
  let s' := on_timer s in
  visible s' = visible s
  /\ window_wanted s' = false
  /\ title s' = title s /\ message s' = message s /\ type s' = type s
  /\ timer s' = timer s
  /\ Timers.next_id (timers s') = Timers.next_id (timers s)
  /\ Timers.pending (timers s') = l.
Proof.
  intros Hp Hc. unfold on_timer, Timers.fire_next. rewrite Hp, Hc. done.
Qed.

(** A timer that fires leaves the suspended runs of the listener alone. *)
Lemma on_timer_suspended s : suspended (on_timer s) = suspended s.
Proof.
  unfold on_timer. destruct (Timers.fire_next (timers s)) as [[[] q]|]; done.
Qed.

Lemma fire_due_suspended fuel target s :
  suspended (fire_due fuel target s) = suspended s.
Proof.
  revert s. induction fuel as [|fuel IH]; intros s; [done|]. cbn.
  destruct (Timers.pending (timers s)) as [|t l]; [done|].
  destruct (Timers.due t <=? target)%N; [|done].
  by rewrite IH, on_timer_suspended.
Qed.

Lemma wait_suspended d s : suspended (wait d s) = suspended s.
Proof. unfold wait. fields. apply fire_due_suspended. Qed.




(** While no timer is due, a wait only moves the clock. *)
Lemma wait_undisturbed e s :
  undisturbed e s -> wait e s = set_now (Timers.now (timers s) + e) s.
Proof.
  unfold undisturbed, wait. intros H.
  destruct (Timers.pending (timers s)) as [|t l] eqn:Hp.
  - by rewrite fire_due_none.
  - apply Forall_cons in H as [Ht _]. by rewrite (fire_due_later _ _ _ _ _ Hp Ht).
Qed.

(** A wait with only the card timer pending. *)
Lemma wait_card d s c :
  Timers.pending (timers s) = [c] ->
  Timers.callback c = HideCard ->
  (Timers.now (timers s) <= Timers.due c)%N ->
  let s' := wait d s in
  title s' = title s /\ message s' = message s /\ type s' = type s
  /\ timer s' = timer s
  /\ Timers.now (timers s') = (Timers.now (timers s) + d)%N
  /\ ((Timers.now (timers s) + d < Timers.due c)%N ->
      visible s' = visible s /\ window_wanted s' = window_wanted s
      /\ Timers.pending (timers s') = [c]
      /\ Timers.next_id (timers s') = Timers.next_id (timers s))
  /\ ((Timers.due c <= Timers.now (timers s) + d < Timers.due c + 300)%N ->
      visible s' = false /\ window_wanted s' = window_wanted s
      /\ Timers.pending (timers s')
         = [ {| Timers.id := Timers.next_id (timers s);
                Timers.due := (Timers.due c + 300)%N;
                Timers.callback := HideWindow |} ]
      /\ Timers.next_id (timers s') = Pos.succ (Timers.next_id (timers s)))
  /\ ((Timers.due c + 300 <= Timers.now (timers s) + d)%N ->
      visible s' = false /\ window_wanted s' = false
      /\ at_rest s').
Proof.
  intros Hp Hc Hnow s'. subst s'. unfold wait. rewrite Hp. cbn [length Nat.mul Nat.add].
  set (target := (Timers.now (timers s) + d)%N).
  destruct (N.lt_ge_cases target (Timers.due c)) as [Hlt|Hge].
  - rewrite (fire_due_later _ _ _ _ _ Hp Hlt).
    repeat split; try (intros; lia); intros; repeat split; fields; congruence.
  - rewrite (fire_due_now _ _ _ _ _ Hp Hge).
    destruct (on_timer_card s c [] Hp Hc)
      as (Hv & Hw & Ht & Hm & Hy & Htm & Hn & Hid & Hq).
    rewrite N.max_r in Hq by done. cbn [Timers.enqueue] in Hq.
    destruct (N.lt_ge_cases target (Timers.due c + 300)) as [Hlt2|Hge2].
    + rewrite (fire_due_later _ _ _ _ _ Hq) by (cbn [Timers.due]; lia).
      repeat split; try (intros; lia); intros; repeat split; fields; congruence.
    + rewrite (fire_due_now _ _ _ _ _ Hq) by (cbn [Timers.due]; lia).
      destruct (on_timer_window (on_timer s) _ [] Hq eq_refl)
        as (Hv2 & Hw2 & Ht2 & Hm2 & Hy2 & Htm2 & Hid2 & Hq2).
      cbn [fire_due].
      repeat split; try (intros; lia); intros; repeat split; unfold at_rest;
        fields; congruence.
Qed.

(** A wait with only the window timer pending, which comes due. *)
Lemma wait_window d s w :
  Timers.pending (timers s) = [w] ->
  Timers.callback w = HideWindow ->
  (Timers.due w <= Timers.now (timers s) + d)%N ->
  let s' := wait d s in
  visible s' = visible s /\ window_wanted s' = false
  /\ title s' = title s /\ message s' = message s
  /\ timer s' = timer s
  /\ Timers.now (timers s') = (Timers.now (timers s) + d)%N
  /\ at_rest s'.
Proof.
  intros Hp Hw Hd s'. subst s'. unfold wait. rewrite Hp. cbn [length Nat.mul Nat.add].
  rewrite (fire_due_now _ _ _ _ _ Hp) by lia.
  destruct (on_timer_window s w [] Hp Hw) as (Hv & Hws & Ht & Hm & _ & Htm & _ & Hq).
  rewrite (fire_due_none _ _ _ Hq).
  repeat split; unfold at_rest; fields; congruence.
Qed.

(** The listener resumes while only the window timer is pending. *)
Lemma after_show_beside_window s w :
  Timers.pending (timers s) = [w] ->
  timer s ≠ Some (Timers.id w) ->
  (Timers.due w <= Timers.now (timers s) + 3000)%N ->
  Timers.pending (timers (after_show s))
  = [ w;
      {| Timers.id := Timers.next_id (timers s);
         Timers.due := (Timers.now (timers s) + 3000)%N;
         Timers.callback := HideCard |} ].
Proof.
  intros Hp Ht Hdue. cbn.
  destruct (timer s) as [i|]; cbn; rewrite Hp.
  - rewrite filter_cons_True by congruence. rewrite filter_nil. cbn.
    destruct (N.leb_spec (Timers.due w) (Timers.now (timers s) + 3000)); [done | lia].
  - cbn.
    destruct (N.leb_spec (Timers.due w) (Timers.now (timers s) + 3000)); [done | lia].
Qed.

Lemma wait_window_card d s w c :
  Timers.pending (timers s) = [w; c] ->
  Timers.callback w = HideWindow ->
  (Timers.due w <= Timers.now (timers s) + d < Timers.due c)%N ->
  let s' := wait d s in
  visible s' = visible s /\ window_wanted s' = false
  /\ title s' = title s /\ message s' = message s
  /\ Timers.pending (timers s') = [c].
Proof.
  intros Hp Hw Hd s'. subst s'. unfold wait. rewrite Hp. cbn [length Nat.mul Nat.add].
  rewrite (fire_due_now _ _ _ _ _ Hp) by lia.
  destruct (on_timer_window s w [c] Hp Hw) as (Hv & Hws & Ht & Hm & _ & _ & _ & Hq).
  rewrite (fire_due_later _ _ _ _ _ Hq) by lia.
  repeat split; fields; congruence.
Qed.

(** The state in which the listener resumes, [e] milliseconds after a
    notification arrived with no timer due meanwhile. *)
Lemma resumed_state payload e s :
  undisturbed e s ->
  let s1 := run [Notify payload; Wait e] s in
  title s1 = Js.get payload "title"
  /\ message s1 = Js.get payload "body"
  /\ visible s1 = true
  /\ window_wanted s1 = true
  /\ Timers.pending (timers s1) = Timers.pending (timers s)
  /\ Timers.now (timers s1) = (Timers.now (timers s) + e)%N
  /\ Timers.next_id (timers s1) = Timers.next_id (timers s)
  /\ timer s1 = timer s
  /\ suspended s1 = S (suspended s).
Proof.
  intros H s1. subst s1. cbn [run fold_left step].
  rewrite wait_undisturbed by exact H. done.
Qed.




(** X7: the window timer is not cancelled by a new notification. When a
    notification arrives in the 300 ms between the hiding of the previous
    card and the hiding of the window, the window is still asked to hide
    300 ms after the previous card went, whether [win.show()] has resolved
    for the new notification by then or not: from then on the new card
    counts as visible in a window that was told to hide. *)
Theorem late_notification_loses_window p1 p2 e1 d1 e2 d2 (s : state) :
  at_rest s ->
  (3000 <= d1 < 3300)%N ->
  (3300 <= d1 + e2 + d2)%N ->
  (d2 < 3000)%N ->
  let s' := run [Notify p1; Wait e1; Shown; Wait d1;
                 Notify p2; Wait e2; Shown; Wait d2] s in
  visible s' = true
  /\ window_wanted s' = false
  /\ title s' = Js.get p2 "title".
Proof.
  intros Hs Hd1 Hsum Hd2 s'.
  assert (Hu : undisturbed e1 s) by (unfold undisturbed; rewrite Hs; constructor).
  destruct (resumed_state p1 e1 s Hu) as (_ & _ & _ & _ & Hp0 & Hn0 & Hid0 & Htm0 & Hsus0).
  set (s0 := run [Notify p1; Wait e1] s) in *.
  assert (Hs0 : at_rest s0) by (unfold at_rest; by rewrite Hp0).
  destruct (after_show_settled s0 (or_introl Hs0)) as (Hp1 & Hid1 & Htm1).
  destruct (after_show_refs s0) as (_ & _ & _ & _ & _ & Hn1).
  set (s1 := after_show s0) in *.
  destruct (wait_card d1 s1 _ Hp1 eq_refl) as (_ & _ & _ & Htm2 & Hn2 & _ & H2 & _).
  { cbn [Timers.due]. rewrite Hn1. lia. }
  cbn [Timers.due] in H2. rewrite Hn1 in H2.
  destruct H2 as (_ & _ & Hp2 & Hid2); [lia|].
  set (s2 := wait d1 s1) in *.
  set (w := {| Timers.id := Timers.next_id (timers s1);
               Timers.due := (Timers.now (timers s0) + 3000 + 300)%N;
               Timers.callback := HideWindow |}) in *.
  assert (E : s' = wait d2 (after_show (wait e2 (on_show_notification p2 s2)))).
  { subst s' s2 s1 s0. cbn [run fold_left step] in *. rewrite Hsus0.
    by rewrite wait_suspended. }
  destruct (notify_state p2 s2) as (Ht3 & _ & Hv3 & _ & Hq3 & Htm3 & _).
  set (s3 := on_show_notification p2 s2) in *.
  assert (Hp3 : Timers.pending (timers s3) = [w]) by (by rewrite Hq3).
  assert (Hn3 : Timers.now (timers s3) = (Timers.now (timers s0) + d1)%N)
    by (rewrite Hq3, Hn2; lia).
  rewrite E.
  destruct (N.lt_ge_cases (d1 + e2) 3300) as [Hlt|Hge].
  - (* the listener resumes before the window timer is due *)
    assert (Hu3 : undisturbed e2 s3).
    { unfold undisturbed. rewrite Hp3. apply Forall_singleton.
      unfold w. cbn [Timers.due]. lia. }
    rewrite (wait_undisturbed e2 s3 Hu3).
    set (s4 := set_now (Timers.now (timers s3) + e2) s3).
    assert (Hp4 : Timers.pending (timers s4) = [w]) by exact Hp3.
    assert (Hp5 : Timers.pending (timers (after_show s4))
                  = [ w;
                      {| Timers.id := Timers.next_id (timers s4);
                         Timers.due := (Timers.now (timers s4) + 3000)%N;
                         Timers.callback := HideCard |} ]).
    { apply after_show_beside_window; [done|..].
      - change (timer s4) with (timer s3). rewrite Htm3, Htm2, Htm1.
        unfold w. cbn [Timers.id]. rewrite Hid1. intros [= H]. lia.
      - change (Timers.now (timers s4)) with (Timers.now (timers s3) + e2)%N.
        unfold w. cbn [Timers.due]. lia. }
    destruct (after_show_refs s4) as (Ht5 & _ & _ & Hv5 & _ & Hn5).
    destruct (wait_window_card d2 (after_show s4) w _ Hp5 eq_refl)
      as (Hv6 & Hw6 & Ht6 & _).
    { rewrite Hn5. change (Timers.now (timers s4)) with (Timers.now (timers s3) + e2)%N.
      unfold w. cbn [Timers.due]. lia. }
    split; [|split]; [rewrite Hv6, Hv5 | done | rewrite Ht6, Ht5]; done.
  - (* the window timer fires while [win.show()] is pending *)
    destruct (wait_window e2 s3 w Hp3 eq_refl) as (Hv4 & Hw4 & Ht4 & _ & _ & Hn4 & Hr4).
    { unfold w. cbn [Timers.due]. lia. }
    set (s4 := wait e2 s3) in *.
    destruct (after_show_settled s4 (or_introl Hr4)) as (Hp5 & _ & _).
    destruct (after_show_refs s4) as (Ht5 & _ & _ & Hv5 & Hw5 & Hn5).
    destruct (wait_card d2 (after_show s4) _ Hp5 eq_refl)
      as (Ht6 & _ & _ & _ & _ & H1 & _).
    { cbn [Timers.due]. rewrite Hn5. lia. }
    destruct H1 as (Hv6 & Hw6 & _); [cbn [Timers.due]; rewrite Hn5; lia|].
    split; [|split]; congruence.
Qed.

Lemma late_notification_loses_window_witness :
  let s' := run [Notify (<["title" := Js.Str "first"]> ∅); Wait 25; Shown; Wait 3100;
                 Notify (<["title" := Js.Str "second"]> ∅); Wait 25; Shown; Wait 200]
                initial in
  visible s' = true /\ window_wanted s' = false /\ title s' = Js.Str "second".
Proof.
  intros s'.
  destruct (late_notification_loses_window
              (<["title" := Js.Str "first"]> ∅) (<["title" := Js.Str "second"]> ∅)
              25 3100 25 200 initial) as (Hv & Hw & Ht).
  - reflexivity.
  - lia.
  - lia.
  - lia.
  - fold s' in Hv, Hw, Ht. by rewrite Hv, Hw, Ht.
Defined.

(** *** Two rounds per pending timer are enough *)

Lemma in_order_enqueue x l : in_order l -> in_order (Timers.enqueue x l).
Proof.
  induction l as [|a l IH]; intros Hl; [by split|].
  destruct Hl as [Ha Hl]. cbn [Timers.enqueue].
  destruct (N.leb_spec (Timers.due a) (Timers.due x)) as [Hle|Hlt].
  - split; [|by apply IH].
    apply Forall_forall. intros b Hb.
    apply TimersFacts.elem_of_enqueue in Hb as [->|Hb]; [done|].
    by apply (proj1 (Forall_forall _ _) Ha).
  - split; [|by split].
    apply Forall_cons. split; [lia|].
    apply (Forall_impl _ _ _ Ha). intros b Hb. lia.
Qed.

Lemma in_order_filter (P : Timers.timer closure -> Prop) `{!forall t, Decision (P t)} l :
  in_order l -> in_order (filter P l).
Proof.
  induction l as [|a l IH]; intros Hl; [done|]. destruct Hl as [Ha Hl].
  rewrite filter_cons. case_decide; [|by apply IH].
  split; [|by apply IH].
  apply Forall_forall. intros b Hb. apply list_elem_of_filter in Hb as [_ Hb].
  by apply (proj1 (Forall_forall _ _) Ha).
Qed.

Lemma list_sum_enqueue (f : Timers.timer closure -> nat) x l :
  list_sum (f <$> Timers.enqueue x l) = (f x + list_sum (f <$> l))%nat.
Proof.
  induction l as [|a l IH]; [done|]. cbn [Timers.enqueue].
  destruct (Timers.due a <=? Timers.due x)%N; [|cbn; lia].
  change (list_sum (f <$> a :: Timers.enqueue x l))
    with (f a + list_sum (f <$> Timers.enqueue x l))%nat.
  rewrite IH.
  change (list_sum (f <$> a :: l)) with (f a + list_sum (f <$> l))%nat. lia.
Qed.

Lemma on_timer_ordered s : ordered s -> ordered (on_timer s).
Proof.
  unfold ordered. intros Hs.
  destruct (Timers.pending (timers s)) as [|t l] eqn:Hp.
  - unfold on_timer, Timers.fire_next. by rewrite Hp, Hp.
  - destruct Hs as [_ Hl]. destruct (Timers.callback t) eqn:Hc.
    + destruct (on_timer_card s t l Hp Hc) as (_ & _ & _ & _ & _ & _ & _ & _ & ->).
      by apply in_order_enqueue.
    + by destruct (on_timer_window s t l Hp Hc) as (_ & _ & _ & _ & _ & _ & _ & ->).
Qed.

Lemma on_timer_rounds s t l :
  Timers.pending (timers s) = t :: l -> S (rounds (on_timer s)) = rounds s.
Proof.
  intros Hp. unfold rounds. destruct (Timers.callback t) eqn:Hc.
  - destruct (on_timer_card s t l Hp Hc) as (_ & _ & _ & _ & _ & _ & _ & _ & ->).
    rewrite list_sum_enqueue, Hp. cbn. by rewrite Hc.
  - destruct (on_timer_window s t l Hp Hc) as (_ & _ & _ & _ & _ & _ & _ & ->).
    rewrite Hp. cbn. by rewrite Hc.
Qed.

Lemma rounds_bound s : (rounds s <= 2 * length (Timers.pending (timers s)))%nat.
Proof.
  unfold rounds. induction (Timers.pending (timers s)) as [|t l IH]; [done|].
  rewrite fmap_cons. cbn [list_sum fold_right length].
  fold (list_sum ((fun t => match Timers.callback t with
                            | HideCard => 2
                            | HideWindow => 1
                            end) <$> l))%nat.
  destruct (Timers.callback t); lia.
Qed.

Lemma fire_due_complete fuel target s :
  ordered s -> (rounds s <= fuel)%nat ->
  ordered (fire_due fuel target s)
  /\ Forall (fun t => (target < Timers.due t)%N)
            (Timers.pending (timers (fire_due fuel target s))).
Proof.
  revert s. induction fuel as [|fuel IH]; intros s Hs Hr.
  - split; [done|]. cbn. unfold rounds in Hr.
    destruct (Timers.pending (timers s)) as [|t l]; [done|].
    cbn in Hr. destruct (Timers.callback t); lia.
  - cbn [fire_due]. destruct (Timers.pending (timers s)) as [|t l] eqn:Hp.
    + split; [done|]. by rewrite Hp.
    + destruct (N.leb_spec (Timers.due t) target) as [Hle|Hlt].
      * apply IH; [by apply on_timer_ordered|].
        pose proof (on_timer_rounds s t l Hp). lia.
      * split; [done|]. rewrite Hp. unfold ordered in Hs. rewrite Hp in Hs.
        destruct Hs as [Ht _]. apply Forall_cons. split; [done|].
        apply (Forall_impl _ _ _ Ht). intros b Hb. lia.
Qed.

(** After a wait no timer that is due is left, and the queue is still in
    order; so is it after a notification. *)
Lemma wait_complete d s :
  ordered s ->
  ordered (wait d s)
  /\ Forall (fun t => (Timers.now (timers s) + d < Timers.due t)%N)
            (Timers.pending (timers (wait d s))).
Proof.
  intros Hs. unfold wait.
  destruct (fire_due_complete (2 * length (Timers.pending (timers s)))
              (Timers.now (timers s) + d) s Hs (rounds_bound s)) as [Ho Hf].
  split; [exact Ho | exact Hf].
Qed.

Lemma after_show_ordered s : ordered s -> ordered (after_show s).
Proof.
  unfold ordered. intros Hs. cbn.
  destruct (timer s) as [i|]; cbn; apply in_order_enqueue; [|done].
  by apply in_order_filter.
Qed.

Lemma step_ordered e s : ordered s -> ordered (step e s).
Proof.
  intros Hs. destruct e as [payload| | |d]; cbn [step].
  - exact Hs.
  - destruct (suspended s); [done | by apply after_show_ordered].
  - by destruct (suspended s).
  - by apply wait_complete.
Qed.

Lemma run_ordered es : ordered (run es initial).
Proof.
  assert (H : forall s, ordered s -> ordered (run es s)).
  { induction es as [|e es IH]; intros s Hs; [done|].
    cbn. by apply IH, step_ordered. }
  by apply H.
Qed.
End OverlayClockFacts.

(** ** The list view: connection, expansion, deletion *)

Module SaveListViewFacts.
Import SaveListView.

Lemma isConnected_kept es st :
  MainStore.isConnected (MainStore.on_events es st) = MainStore.isConnected st.
Proof.
  revert st. induction es as [|e es IH]; intros st; [done|].
  cbn. rewrite IH. by destruct e.
Qed.

(** X14: the list view shows the progress circle until [initialize_app] has
    resolved, whatever lists the backend broadcast meanwhile, and keeps
    showing it for good when the call fails. Once connected it shows the
    items the store holds, or the empty-folder message when there are
    none. *)
Theorem list_shown_once_connected before after ok :
  let st := MainStore.on_events after
              (fst (MainStore.init ok (MainStore.on_events before MainStore.initial))) in
  shown (MainStore.on_events before MainStore.initial) = Connecting
  /\ shown st
     = if ok then
         match MainStore.items st with
         | [] => NoSubfolders
         | _ :: _ => Cards (MainStore.items st)
         end
       else Connecting.
Proof.
  intros st. split.
  - unfold shown. by rewrite isConnected_kept.
  - unfold shown. subst st. rewrite isConnected_kept. cbn [MainStore.init fst MainStore.isConnected].
    rewrite isConnected_kept. cbn [MainStore.initial MainStore.isConnected].
    destruct ok; [|done]. cbn [negb].
    by destruct (MainStore.items _).
Qed.

Lemma toggle_expanded name s :
  SaveList.expanded (SaveList.toggle name s)
  = PlainObject.set (SaveList.expanded s) name (Js.Bool (negb (is_expanded name s))).
Proof. reflexivity. Qed.

(** [expanded] only ever takes booleans, so it keeps the prototype the
    literal gave it and never holds a [__proto__] of its own. *)
Lemma toggles_keep_prototype names s :
  PlainObject.has_prototype (SaveList.expanded s) = true ->
  PlainObject.own (SaveList.expanded s) !! "__proto__" = None ->
  let s' := fold_left (fun s0 n => SaveList.toggle n s0) names s in
  PlainObject.has_prototype (SaveList.expanded s') = true
  /\ PlainObject.own (SaveList.expanded s') !! "__proto__" = None.
Proof.
  revert s. induction names as [|n names IH]; intros s Hp Ho; [done|].
  cbn [fold_left]. apply IH; rewrite toggle_expanded.
  - by rewrite PlainObjectFacts.has_prototype_set by (by right).
  - destruct (decide (n = "__proto__")) as [->|Hne].
    + by rewrite PlainObjectFacts.set_proto_lost.
    + by rewrite PlainObjectFacts.own_set_ne.
Qed.

(** X13: a category whose name is an ordinary key of [expanded] starts
    collapsed, [toggle] flips it, and a second call restores what the list
    shows; [toggle] changes no other category, nor the memos or the memo
    timer. A category named like a member of [Object.prototype] starts
    expanded, and one named [__proto__] stays expanded whatever is
    toggled. *)
Theorem toggle_flips_one name (s : SaveList.state) :
  (PlainObject.ordinary name ->
   is_expanded name SaveList.initial = false
   /\ is_expanded name (SaveList.toggle name s) = negb (is_expanded name s)
   /\ is_expanded name (SaveList.toggle name (SaveList.toggle name s))
      = is_expanded name s)
  /\ (forall other, other ≠ name ->
      is_expanded other (SaveList.toggle name s) = is_expanded other s)
  /\ SaveList.memos (SaveList.toggle name s) = SaveList.memos s
  /\ SaveList.timers (SaveList.toggle name s) = SaveList.timers s
  /\ (name = "__proto__" \/ name ∈ PlainObject.methods ->
      is_expanded name SaveList.initial = true)
  /\ (forall names,
      is_expanded "__proto__"
        (fold_left (fun s0 n => SaveList.toggle n s0) names SaveList.initial) = true).
Proof.
  assert (H : forall s0, name ≠ "__proto__" ->
            is_expanded name (SaveList.toggle name s0) = negb (is_expanded name s0)).
  { intros s0 Hne. unfold is_expanded at 1. rewrite toggle_expanded.
    by rewrite PlainObjectFacts.get_set_eq. }
  split; [|split; [|split; [|split; [|split]]]].
  - intros Ho. pose proof (PlainObjectFacts.ordinary_not_proto _ Ho) as Hne.
    split; [|split].
    + unfold is_expanded. cbn [SaveList.initial SaveList.expanded].
      by rewrite PlainObjectFacts.get_empty_ordinary.
    + by apply H.
    + rewrite !H by done. apply negb_involutive.
  - intros other Hne. unfold is_expanded at 1. rewrite toggle_expanded.
    by rewrite PlainObjectFacts.get_set_ne by (done || by right).
  - reflexivity.
  - reflexivity.
  - intros Hk. by apply PlainObjectFacts.get_inherited_truthy.
  - intros names.
    destruct (toggles_keep_prototype names SaveList.initial eq_refl eq_refl) as [Hp Ho].
    apply PlainObjectFacts.get_inherited_truthy; [done | done | by left].
Qed.

(** *** The delete dialog *)

Lemma dialog_run_cons e es d :
  run (e :: es) d
  = (fst (run es (fst (step e d))),
     (snd (step e d) ++ snd (run es (fst (step e d))))%list).
Proof.
  cbn [run]. destruct (step e d) as [d1 o1]. cbn [fst snd].
  by destruct (run es d1).
Qed.

Lemma confirm_sends d :
  snd (confirmDelete d)
  = match deleteTarget d with Some t => [command_of t] | None => [] end.
Proof. unfold confirmDelete. by destruct (deleteTarget d) as [[]|]. Qed.

Lemma confirm_keeps_target d : deleteTarget (fst (confirmDelete d)) = deleteTarget d.
Proof. unfold confirmDelete. by destruct (deleteTarget d) as [[]|]. Qed.

Lemma no_confirm_no_delete es d :
  ClickConfirm ∉ es -> snd (run es d) = [].
Proof.
  revert d. induction es as [|e es IH]; intros d H; [done|].
  rewrite dialog_run_cons. rewrite IH by (intros Hc; apply H; by right).
  rewrite app_nil_r. destruct e; try done. exfalso. apply H. left.
Qed.

Lemma target_kept es d :
  Forall keeps_target es -> deleteTarget (fst (run es d)) = deleteTarget d.
Proof.
  revert d. induction es as [|e es IH]; intros d H; [done|].
  apply Forall_cons in H as [He H]. rewrite dialog_run_cons. cbn [fst].
  rewrite IH by done. destruct e; try done; cbn [step fst].
  - apply confirm_keeps_target.
  - by destruct (deleting d).
Qed.

Lemma target_stays_unset es d :
  Forall no_request es -> deleteTarget d = None ->
  deleteTarget (fst (run es d)) = None.
Proof.
  revert d. induction es as [|e es IH]; intros d H Hd; [done|].
  apply Forall_cons in H as [He H]. rewrite dialog_run_cons. cbn [fst].
  apply IH; [done|]. destruct e; try done; cbn [step fst].
  - by rewrite confirm_keeps_target.
  - by destruct (deleting d).
  - by destruct (deleting d).
Qed.

Lemma request_sets_target t d :
  deleteTarget (fst (step (request t) d)) = Some t /\ snd (step (request t) d) = [].
Proof. by destruct t. Qed.

(** X12: a delete command is only ever sent by [confirmDelete], and it is
    the command of the target set by the latest delete request, as long as
    no delete call has resolved since: closing the dialog does not unset the
    target, and neither does a confirmation before its call has resolved.
    When a delete call resolves the target is unset, and a confirmation
    sends nothing until the next request; so a request made while an earlier
    deletion is still under way is lost when that deletion completes. *)
Theorem delete_needs_confirmation (d : dialog) :
  (forall es, ClickConfirm ∉ es -> snd (run es d) = [])
  /\ (forall t mid,
      Forall keeps_target mid ->
      snd (step ClickConfirm (fst (run (request t :: mid) d))) = [command_of t])
  /\ (forall mid,
      (0 < deleting d)%nat -> Forall no_request mid ->
      snd (step ClickConfirm (fst (run (Deleted :: mid) d))) = [])
  /\ (forall a b,
      snd (run [request a; ClickConfirm; request b; Deleted; ClickConfirm] d)
      = [command_of a]).
Proof.
  split; [|split; [|split]].
  - intros es. apply no_confirm_no_delete.
  - intros t mid Hmid. cbn [step]. rewrite confirm_sends.
    rewrite dialog_run_cons. cbn [fst]. rewrite target_kept by done.
    by destruct (request_sets_target t d) as [-> _].
  - intros mid Hd Hmid. cbn [step]. rewrite confirm_sends.
    rewrite dialog_run_cons. cbn [fst].
    rewrite target_stays_unset; [done | done |].
    cbn [step fst]. destruct (deleting d); [lia | done].
  - intros a b. destruct a, b; reflexivity.
Qed.

Lemma toggle_flips_one_witness :
  is_expanded "SaveA" (SaveList.toggle "SaveA" SaveList.initial) = true.
Proof.
  refine (eq_trans (proj1 (proj2 (proj1 (toggle_flips_one "SaveA" SaveList.initial) _))) _).
  - apply (bool_decide_unpack _). by vm_compute.
  - reflexivity.
Defined.

Lemma delete_needs_confirmation_witness :
  snd (step ClickConfirm
         (fst (run [ClickDeleteFolder "SaveA"; ClickCancel]
                 (fst (run [ClickDeleteBackup "SaveA" "20240229_235959"] closed)))))
  = [Tauri.delete_subfolder "SaveA"].
Proof.
  apply (proj1 (proj2 (delete_needs_confirmation
                         (fst (run [ClickDeleteBackup "SaveA" "20240229_235959"] closed))))
           (Subfolder "SaveA") [ClickCancel]).
  repeat constructor.
Defined.
End SaveListViewFacts.

(** ** App.vue *)

Module AppFacts.
Import App.

(** X15: [navigate] only ever leads to the list or to the settings page, never
    to the notification route: ['home'] opens the list, any other tab the
    settings, and [activeTab] reads the tab back from the path. *)
Theorem navigate_reaches_two_pages (tab : Js.value) :
  isNotificationWindow (navigate tab) = false
  /\ (tab = Js.Str "home" ->
      component_at (navigate tab) = Some SaveListPage
      /\ activeTab (navigate tab) = "home")
  /\ (tab ≠ Js.Str "home" ->
      component_at (navigate tab) = Some SettingsPage
      /\ activeTab (navigate tab) = "settings").
Proof.
  unfold navigate. destruct (decide (tab = Js.Str "home")) as [E|E]; repeat split;
    try done; intros H; by destruct (E H) || split.
Qed.

Lemma navigate_reaches_two_pages_witness :
  component_at (navigate (Js.Str "settings")) = Some SettingsPage
  /\ activeTab (navigate (Js.Str "settings")) = "settings".
Proof.
  apply (proj2 (proj2 (navigate_reaches_two_pages (Js.Str "settings")))).
  discriminate.
Defined.

(** X16: the theme applied is always ['dark'] or ['light'] as long as the
    stored theme is ['dark'], ['light'], ['system'] or missing: at mount the
    stored default ['system'] resolves to the preference of the operating
    system, instead of the ['dark'] Vuetify is created with; ['system']
    always follows that preference, a stored ['dark'] or ['light'] is taken
    as it is, and a settings document without theme leaves the theme in
    force. *)
Theorem applied_theme_is_dark_or_light (prefersDark : bool)
    (old new : MainStore.state) (current : Js.value) :
  theme_at_mount prefersDark MainStore.initial = preferred prefersDark
  /\ applyTheme prefersDark (Js.Str "system") current = preferred prefersDark
  /\ applyTheme prefersDark (Js.Str "dark") current = Js.Str "dark"
  /\ applyTheme prefersDark (Js.Str "light") current = Js.Str "light"
  /\ (MainStore.settings new !! "theme" = None ->
      theme_after prefersDark old new current = current)
  /\ (dark_or_light current ->
      dark_or_light (Js.get (MainStore.settings new) "theme")
      \/ Js.get (MainStore.settings new) "theme" = Js.Str "system"
      \/ MainStore.settings new !! "theme" = None ->
      dark_or_light (theme_after prefersDark old new current)).
Proof.
  repeat split.
  - intros H. unfold theme_after. rewrite (JsFacts.get_absent _ _ H).
    by case_decide.
  - intros Hc Hn. unfold theme_after. case_decide; [done|].
    destruct Hn as [[-> | ->] | [-> | Hn]]; unfold dark_or_light; cbn.
    + by left.
    + by right.
    + destruct prefersDark; [by left | by right].
    + by rewrite (JsFacts.get_absent _ _ Hn).
Qed.

Lemma applied_theme_is_dark_or_light_witness :
  theme_after true MainStore.initial
    (MainStore.on_event (MainStore.settings_state ∅) MainStore.initial)
    (Js.Str "light")
  = Js.Str "light".
Proof.
  refine (proj1 (proj2 (proj2 (proj2 (proj2
            (applied_theme_is_dark_or_light true MainStore.initial
               (MainStore.on_event (MainStore.settings_state ∅) MainStore.initial)
               (Js.Str "light")))))) _).
  reflexivity.
Defined.
End AppFacts.

(** ** The memo fields and the store *)

Module MemoSyncFacts.
Import SaveList.

(** A read that gives [undefined] comes from a name that is free for a
    write. *)
Lemma set_undefined o k v :
  PlainObject.get o k = PlainObject.Primitive Js.Undefined ->
  PlainObject.set o k v
  = {| PlainObject.own := <[k := v]> (PlainObject.own o);
       PlainObject.has_prototype := PlainObject.has_prototype o |}.
Proof.
  unfold PlainObject.get, PlainObject.set, PlainObject.inherited. intros H.
  destruct (PlainObject.own o !! k) eqn:E.
  - rewrite (bool_decide_eq_false_2 (Some v0 = None)) by done. by rewrite andb_false_r.
  - destruct (PlainObject.has_prototype o); [|done].
    destruct (decide (k = "__proto__")); [done|].
    by rewrite (bool_decide_eq_false_2 (k = "__proto__")) by done.
Qed.

Lemma strict_eq_undefined m :
  PlainObject.strict_eq m Js.Undefined = true -> m = PlainObject.Primitive Js.Undefined.
Proof.
  destruct m as [u| |]; [|done..]. cbn.
  destruct u as [| | |[]|]; try done; intros H; by apply bool_decide_eq_true in H.
Qed.

Lemma strict_eq_primitive m v :
  PlainObject.strict_eq m v = true -> m = PlainObject.Primitive v.
Proof.
  destruct m as [u| |]; [|done..]. cbn.
  destruct u as [| | |[]|]; try done; intros H; apply bool_decide_eq_true in H;
    by subst.
Qed.

Lemma sync_memo_own_other b m it f :
  f ≠ MainStore.name it ->
  PlainObject.own (sync_memo b m it) !! f = PlainObject.own m !! f.
Proof.
  intros Hne. unfold sync_memo.
  destruct (_ || _); [|done]. by apply PlainObjectFacts.own_set_ne.
Qed.

Lemma sync_memo_focused m it f :
  PlainObject.get m f ≠ PlainObject.Primitive Js.Undefined ->
  PlainObject.get (sync_memo true m it) f = PlainObject.get m f.
Proof.
  intros Hf. unfold sync_memo. rewrite andb_false_r, orb_false_r.
  destruct (PlainObject.strict_eq _ Js.Undefined) eqn:E; [|done].
  apply strict_eq_undefined in E.
  assert (Hne : f ≠ MainStore.name it) by (intros ->; by apply Hf).
  rewrite set_undefined by done. unfold PlainObject.get. cbn.
  by rewrite lookup_insert_ne.
Qed.

Lemma fold_sync_focused items m f :
  PlainObject.get m f ≠ PlainObject.Primitive Js.Undefined ->
  PlainObject.get (fold_left (sync_memo true) items m) f = PlainObject.get m f.
Proof.
  revert m. induction items as [|it items IH]; intros m Hf; [done|].
  cbn [fold_left]. rewrite IH by (by rewrite sync_memo_focused).
  by apply sync_memo_focused.
Qed.

(** Without focus the watcher leaves the store's memo under the item's
    name, unless that name is [__proto__]. *)
Lemma sync_memo_unfocused m it :
  MainStore.name it ≠ "__proto__" ->
  PlainObject.own (sync_memo false m it) !! MainStore.name it = Some (MainStore.memo it).
Proof.
  intros Hne. unfold sync_memo. rewrite andb_true_r.
  destruct (PlainObject.strict_eq _ Js.Undefined) eqn:E; cbn [orb].
  - rewrite PlainObjectFacts.set_stores by done. cbn. by rewrite lookup_insert_eq.
  - destruct (PlainObject.strict_eq _ (MainStore.memo it)) eqn:E'; cbn [negb].
    + apply strict_eq_primitive in E'. revert E E'.
      unfold PlainObject.get, PlainObject.inherited.
      destruct (PlainObject.own m !! MainStore.name it) as [u|]; [by intros _ [= ->]|].
      destruct (PlainObject.has_prototype m).
      * destruct (decide (MainStore.name it = "__proto__")); [done|].
        destruct (decide (MainStore.name it ∈ PlainObject.methods)); [done|].
        intros E [= <-]. done.
      * intros E [= <-]. done.
    + rewrite PlainObjectFacts.set_stores by done. cbn. by rewrite lookup_insert_eq.
Qed.

Lemma fold_sync_own_other b items m f :
  f ∉ MainStore.name <$> items ->
  PlainObject.own (fold_left (sync_memo b) items m) !! f = PlainObject.own m !! f.
Proof.
  revert m. induction items as [|it items IH]; intros m Hf; [done|].
  cbn [fold_left]. rewrite fmap_cons in Hf. apply not_elem_of_cons in Hf as [Hne Hf].
  rewrite IH by done. by apply sync_memo_own_other.
Qed.

Lemma fold_sync_unfocused items m it :
  NoDup (MainStore.name <$> items) -> it ∈ items ->
  MainStore.name it ≠ "__proto__" ->
  PlainObject.get (fold_left (sync_memo false) items m) (MainStore.name it)
  = PlainObject.Primitive (MainStore.memo it).
Proof.
  intros Hnd Hit Hne.
  assert (H : PlainObject.own (fold_left (sync_memo false) items m) !! MainStore.name it
              = Some (MainStore.memo it)).
  { revert m Hnd Hit. induction items as [|it0 items IH]; intros m Hnd Hit;
      [by apply elem_of_nil in Hit|].
    rewrite fmap_cons in Hnd. apply NoDup_cons in Hnd as [Hfresh Hnd].
    cbn [fold_left]. apply elem_of_cons in Hit as [->|Hit].
    - rewrite fold_sync_own_other by done. by apply sync_memo_unfocused.
    - by apply IH. }
  unfold PlainObject.get. by rewrite H.
Qed.

(** The prototype goes only when the list has a category [__proto__] whose
    memo is [null]. *)
Lemma sync_memo_has_prototype b m it :
  MainStore.name it ≠ "__proto__" \/ MainStore.memo it ≠ Js.Null ->
  PlainObject.has_prototype (sync_memo b m it) = PlainObject.has_prototype m.
Proof.
  intros H. unfold sync_memo.
  destruct (_ || _); [|done]. by apply PlainObjectFacts.has_prototype_set.
Qed.

Lemma fold_sync_has_prototype b items m :
  Forall (fun it => MainStore.name it ≠ "__proto__" \/ MainStore.memo it ≠ Js.Null) items ->
  PlainObject.has_prototype (fold_left (sync_memo b) items m)
  = PlainObject.has_prototype m.
Proof.
  revert m. induction items as [|it items IH]; intros m H; [done|].
  apply Forall_cons in H as [Hit H]. cbn [fold_left].
  rewrite IH by done. by apply sync_memo_has_prototype.
Qed.

Lemma fold_sync_proto_lost b items m :
  Forall (fun it => MainStore.name it ≠ "__proto__" \/ MainStore.memo it ≠ Js.Null) items ->
  PlainObject.has_prototype m = true ->
  PlainObject.own m !! "__proto__" = None ->
  PlainObject.get (fold_left (sync_memo b) items m) "__proto__"
  = PlainObject.Object_prototype.
Proof.
  intros H Hp Ho. apply PlainObjectFacts.get_proto.
  - by rewrite fold_sync_has_prototype.
  - revert m H Hp Ho. induction items as [|it items IH]; intros m H Hp Ho; [done|].
    apply Forall_cons in H as [Hit H]. cbn [fold_left]. apply IH; [done|..].
    + by rewrite sync_memo_has_prototype.
    + destruct (decide (MainStore.name it = "__proto__")) as [E|E].
      * unfold sync_memo. destruct (_ || _); [|done]. rewrite E.
        destruct Hit as [Hit|Hit]; [done|].
        by rewrite PlainObjectFacts.set_proto_lost.
      * rewrite sync_memo_own_other; [done|]. congruence.
Qed.

(** X9: while the focus test of the watcher holds (a memo field has the
    focus), a new list from the store changes no memo the view already holds,
    in any category: what the user typed stays, and so does every other
    field. *)
Theorem focus_keeps_memos items (s : state) f :
  PlainObject.get (memos s) f ≠ PlainObject.Primitive Js.Undefined ->
  PlainObject.get (memos (watch_items true items s)) f = PlainObject.get (memos s) f.
Proof. intros Hf. by apply fold_sync_focused. Qed.

Lemma focus_keeps_memos_witness :
  PlainObject.get
    (memos (watch_items true
              [ {| MainStore.name := "SaveA"; MainStore.memo := Js.Str "store";
                   MainStore.backups := []; MainStore.source_exists := Js.Bool true |} ]
              (fst (step (MemoInput "SaveA" "typed") initial)))) "SaveA"
  = PlainObject.Primitive (Js.Str "typed").
Proof.
  refine (focus_keeps_memos _ (fst (step (MemoInput "SaveA" "typed") initial)) "SaveA" _).
  discriminate.
Defined.

(** X10: when the focus test fails, a new list from the store whose items have
    distinct names makes the memo of every listed category whose name is an
    ordinary key the store's memo, whatever the view held; no property held
    for an unlisted category is removed or changed. For a listed category
    named [__proto__] nothing is stored: its memo field keeps reading
    [Object.prototype] (as long as no such category comes with the memo
    [null], which would take the prototype away). *)
Theorem unfocused_list_overwrites_memos items (s : state) :
  NoDup (MainStore.name <$> items) ->
  (forall it, it ∈ items -> PlainObject.ordinary (MainStore.name it) ->
     PlainObject.get (memos (watch_items false items s)) (MainStore.name it)
     = PlainObject.Primitive (MainStore.memo it))
  /\ (forall f, f ∉ MainStore.name <$> items ->
     PlainObject.own (memos (watch_items false items s)) !! f
     = PlainObject.own (memos s) !! f)
  /\ (Forall (fun it => MainStore.name it ≠ "__proto__" \/ MainStore.memo it ≠ Js.Null)
        items ->
      PlainObject.has_prototype (memos s) = true ->
      PlainObject.own (memos s) !! "__proto__" = None ->
      PlainObject.get (memos (watch_items false items s)) "__proto__"
      = PlainObject.Object_prototype).
Proof.
  intros Hnd. split; [|split].
  - intros it Hit Ho. apply fold_sync_unfocused; [done..|].
    by apply PlainObjectFacts.ordinary_not_proto.
  - intros f Hf. by apply fold_sync_own_other.
  - intros H Hp Ho. by apply fold_sync_proto_lost.
Qed.

Lemma unfocused_list_overwrites_memos_witness :
  let it := {| MainStore.name := "SaveA"; MainStore.memo := Js.Str "store";
               MainStore.backups := []; MainStore.source_exists := Js.Bool true |} in
  PlainObject.get
    (memos (watch_items false [it] (fst (step (MemoInput "SaveA" "typed") initial))))
    (MainStore.name it)
  = PlainObject.Primitive (MainStore.memo it).
Proof.
  intros it.
  apply (proj1 (unfocused_list_overwrites_memos [it]
                  (fst (step (MemoInput "SaveA" "typed") initial))
                  (NoDup_singleton _)) it).
  - left.
  - apply (bool_decide_unpack _). by vm_compute.
Defined.

(** X11: a list that the store publishes while a memo save is pending decides
    what the save sends, since the closure reads the memo when it fires. For
    a category whose name is an ordinary key: with the focus test holding the
    typed text is saved; with it failing, and the category listed, the
    store's memo is sent back and the typed text is lost. *)
Theorem pending_save_reads_memo_late history f text items d :
  let s := fst (run history initial) in
  (1000 <= d)%N ->
  PlainObject.ordinary f ->
  snd (run [MemoInput f text; ItemsChanged true items; Wait d] s)
  = [Tauri.save_memo f (PlainObject.Primitive (Js.Str text))]
  /\ (forall it,
      NoDup (MainStore.name <$> items) -> it ∈ items -> MainStore.name it = f ->
      snd (run [MemoInput f text; ItemsChanged false items; Wait d] s)
      = [Tauri.save_memo f (PlainObject.Primitive (MainStore.memo it))]).
Proof.
  intros s Hd Ho.
  pose proof (PlainObjectFacts.ordinary_not_proto _ Ho) as Hf.
  assert (Hs : MemoTrace.one_timer s)
    by apply SaveListFacts.one_timer_run, SaveListFacts.one_timer_initial.
  pose proof (SaveListFacts.input_pending f text s Hs) as Hp.
  destruct (SaveListFacts.input_state f text s) as (Hm & Hn & _).
  set (s1 := fst (step (MemoInput f text) s)) in *.
  assert (Hrun : forall b,
    snd (run [MemoInput f text; ItemsChanged b items; Wait d] s)
    = [Tauri.save_memo f (PlainObject.get (memos (watch_items b items s1)) f)]).
  { intros b. rewrite !SaveListFacts.run_cons. fold s1.
    rewrite SaveListFacts.input_silent.
    change (snd (step (ItemsChanged b items) s1)) with (@nil Tauri.command).
    change (fst (step (ItemsChanged b items) s1)) with (watch_items b items s1).
    cbn [run snd app]. rewrite app_nil_r.
    apply (SaveListFacts.due_wait d (watch_items b items s1) _ Hp).
    cbn [Timers.due]. change (timers (watch_items b items s1)) with (timers s1).
    rewrite Hn. lia. }
  assert (Hs1 : PlainObject.get (memos s1) f = PlainObject.Primitive (Js.Str text))
    by (rewrite Hm; by apply PlainObjectFacts.get_set_eq).
  split.
  - rewrite Hrun. do 2 f_equal. unfold watch_items. cbn [memos].
    rewrite fold_sync_focused; by rewrite Hs1.
  - intros it Hnd Hit Hname. rewrite Hrun. do 2 f_equal. subst f.
    by apply fold_sync_unfocused.
Qed.

Lemma pending_save_reads_memo_late_witness :
  snd (run [MemoInput "SaveA" "typed"; ItemsChanged true []; Wait 1000] initial)
  = [Tauri.save_memo "SaveA" (PlainObject.Primitive (Js.Str "typed"))].
Proof.
  refine (proj1 (pending_save_reads_memo_late [] "SaveA" "typed" [] 1000 _ _)).
  - lia.
  - apply (bool_decide_unpack _). by vm_compute.
Defined.
End MemoSyncFacts.

(** ** The colour and icon of the notification card *)

Module CardFacts.
Import NotificationOverlay Text.

Lemma includes_unfold s sub :
  includes s sub
  = if String.prefix sub s then true
    else match s with
         | EmptyString => false
         | String _ s' => includes s' sub
         end.
Proof. by destruct s. Qed.

Lemma prefix_inv sub s :
  String.prefix sub s = true -> exists post, s = (sub ++ post)%string.
Proof.
  revert s. induction sub as [|c sub IH]; intros s H.
  - by exists s.
  - destruct s as [|c' s]; [discriminate H|]. cbn in H.
    destruct (ascii_dec c c') as [<-|]; [|discriminate H].
    destruct (IH s H) as [post ->]. by exists post.
Qed.

(** [includes] is the substring test. *)
Lemma includes_mentions t kw : includes t kw = true <-> mentions t kw.
Proof.
  split.
  - induction t as [|c t IH]; rewrite includes_unfold; intros H.
    + destruct (String.prefix kw EmptyString) eqn:E; [|discriminate H].
      destruct (prefix_inv _ _ E) as [post Hp]. by exists EmptyString, post.
    + destruct (String.prefix kw (String c t)) eqn:E.
      * destruct (prefix_inv _ _ E) as [post Hp]. by exists EmptyString, post.
      * destruct (IH H) as (pre & post & ->). by exists (String c pre), post.
  - intros (pre & post & ->). induction pre as [|c pre IH].
    + change (EmptyString ++ kw ++ post)%string with (kw ++ post)%string.
      by rewrite includes_unfold, DayjsFacts.prefix_app.
    + change (String c pre ++ kw ++ post)%string
        with (String c (pre ++ kw ++ post)).
      rewrite includes_unfold. by destruct (String.prefix _ _).
Qed.

Lemma includes_not_mentions t kw : includes t kw = false <-> ~ mentions t kw.
Proof.
  rewrite <- includes_mentions. by destruct (includes t kw).
Qed.

(** The card of a state whose title is a string. *)
Lemma render_title s t :
  visible s = true -> title s = Js.Str t ->
  render s
  = Card {| color := if includes t "バックアップ" then "primary"
                     else if includes t "リストア" then "success"
                     else if includes t "削除" then "error" else "success";
            icon := if includes t "バックアップ" then "mdi-floppy"
                    else if includes t "リストア" then "mdi-restore"
                    else if includes t "削除" then "mdi-delete"
                    else "mdi-check-circle";
            card_title := Js.Str t;
            card_message := message s |}.
Proof.
  intros Hv Ht. unfold render, typeColor, currentIcon, title_includes.
  rewrite Hv, Ht. cbn.
  destruct (includes t "バックアップ"); [done|].
  destruct (includes t "リストア"); [done|].
  by destruct (includes t "削除").
Qed.

(** X8: the colour and the icon of the card are chosen from the title alone;
    the severity of the notification does not enter. A title that contains
    バックアップ gives the primary colour and the floppy icon whatever else it
    contains; otherwise リストア gives success and the restore icon; otherwise
    削除 gives the error colour and the delete icon; any other title, an
    error included, is shown in the success colour with the check icon. *)
Theorem card_colour_from_title (payload : gmap string Js.value) (ty : Js.value)
    (s : state) (t : string) :
  payload !! "title" = Some (Js.Str t) ->
  let shown := render (on_show_notification payload s) in
  render (on_show_notification (<["type" := ty]> payload) s) = shown
  /\ exists c, shown = Card c
     /\ (mentions t "バックアップ" -> color c = "primary" /\ icon c = "mdi-floppy")
     /\ (~ mentions t "バックアップ" -> mentions t "リストア" ->
         color c = "success" /\ icon c = "mdi-restore")
     /\ (~ mentions t "バックアップ" -> ~ mentions t "リストア" -> mentions t "削除" ->
         color c = "error" /\ icon c = "mdi-delete")
     /\ (~ mentions t "バックアップ" -> ~ mentions t "リストア" -> ~ mentions t "削除" ->
         color c = "success" /\ icon c = "mdi-check-circle").
Proof.
  intros Ht shown. subst shown.
  assert (H1 : title (on_show_notification payload s) = Js.Str t).
  { change (Js.get payload "title" = Js.Str t). by apply JsFacts.get_present. }
  assert (H2 : title (on_show_notification (<["type" := ty]> payload) s) = Js.Str t).
  { change (Js.get (<["type" := ty]> payload) "title" = Js.Str t).
    apply JsFacts.get_present. by rewrite lookup_insert_ne. }
  rewrite (render_title (on_show_notification payload s) t eq_refl H1),
    (render_title (on_show_notification (<["type" := ty]> payload) s) t eq_refl H2).
  split.
  - do 2 f_equal. change (Js.get (<["type" := ty]> payload) "body" = Js.get payload "body").
    unfold Js.get. by rewrite lookup_insert_ne.
  - eexists. split; [reflexivity|]. cbn [color icon].
    repeat split; intros;
      repeat match goal with
             | H : mentions _ _ |- _ => apply includes_mentions in H; rewrite H
             | H : ~ mentions _ _ |- _ => apply includes_not_mentions in H; rewrite H
             end; reflexivity.
Qed.

Lemma card_colour_from_title_witness :
  let payload : gmap string Js.value :=
    <["title" := Js.Str "エラー"]> (<["type" := Js.Str "error"]> ∅) in
  exists c, render (on_show_notification payload initial) = Card c
            /\ color c = "success".
Proof.
  intros payload.
  destruct (card_colour_from_title payload (Js.Str "info") initial "エラー" eq_refl)
    as (_ & c & Hc & _ & _ & _ & Hnone).
  exists c. split; [exact Hc|].
  apply Hnone; apply includes_not_mentions; reflexivity.
Defined.
End CardFacts.

(** ** formatDate on other strings *)

Module FormatDateFacts.
Import Dayjs Timestamp Text.
Local Open Scope Z_scope.

Lemma day_at_most_31 Y M D : 1 <= D <= days_in_month Y (M - 1) -> D <= 31.
Proof.
  unfold days_in_month. intros H.
  repeat match goal with
         | H : context [match ?x with _ => _ end] |- _ => destruct x
         end; lia.
Qed.

Lemma identifier_app Y M D h m s suffix :
  (identifier Y M D h m s ++ suffix)%string
  = (four Y ++ two M ++ two D ++ "_" ++ two h ++ two m ++ two s ++ suffix)%string.
Proof. reflexivity. Qed.

Lemma parser_identifier_app Y M D h m s suffix :
  valid Y M D h m s ->
  parser YYYYMMDD_HHmmss (identifier Y M D h m s ++ suffix) 0 no_time
  = Some {| t_year := Some Y; t_month := Some M; t_day := Some D;
            t_hours := Some h; t_minutes := Some m; t_seconds := Some s |}.
Proof.
  intros (HY & HM & HD & Hh & Hm & Hs).
  pose proof (day_at_most_31 Y M D HD) as HD'.
  rewrite identifier_app. unfold YYYYMMDD_HHmmss. cbn [parser slice].
  rewrite DayjsFacts.exec_four, DayjsFacts.remove_first_head,
    DayjsFacts.to_number_four by lia.
  cbn [parser slice].
  rewrite DayjsFacts.exec_two, DayjsFacts.remove_first_head,
    DayjsFacts.to_number_two by (auto || lia).
  cbn [parser slice].
  rewrite DayjsFacts.exec_two, DayjsFacts.remove_first_head,
    DayjsFacts.to_number_two by (auto || lia).
  cbn [parser Nat.add String.length].
  change ("_" ++ two h ++ two m ++ two s ++ suffix)%string
    with (String "_" (two h ++ two m ++ two s ++ suffix)).
  cbn [slice].
  rewrite DayjsFacts.exec_two, DayjsFacts.to_number_two by (auto || lia).
  rewrite DayjsFacts.remove_first_two_after_underscore by lia.
  cbn [parser slice].
  rewrite DayjsFacts.exec_two, DayjsFacts.to_number_two by (auto || lia).
  rewrite DayjsFacts.remove_first_two_after_underscore by lia.
  cbn [parser slice].
  rewrite DayjsFacts.exec_two, DayjsFacts.to_number_two by (auto || lia).
  reflexivity.
Qed.

(** X17: [formatDate] reads the first fifteen characters of an identifier and
    ignores whatever follows the seconds: an identifier with a suffix, such
    as a disambiguating counter, is shown as the time it starts with (a
    local time that the host's zone does not skip). *)
Theorem formatDate_ignores_suffix tz now Y M D h m s suffix :
  valid Y M D h m s ->
  unskipped tz Y M D h m s ->
  SaveList.formatDate tz now (identifier Y M D h m s ++ suffix) = display Y M D h m s.
Proof.
  intros Hv Hz. unfold SaveList.formatDate, parseFormattedInput.
  rewrite parser_identifier_app by done.
  pose proof Hv as (HY & HM & HD & Hh & Hm & Hs).
  pose proof (day_at_most_31 Y M D HD) as HD'.
  cbn [t_year t_month t_day t_hours t_minutes t_seconds truthy or_num].
  destruct (Z.eqb_spec Y 0) as [?|_]; [lia|].
  destruct (Z.eqb_spec M 0) as [?|_]; [lia|].
  destruct (Z.eqb_spec D 0) as [?|_]; [lia|].
  destruct (Z.ltb_spec 0 M) as [_|?]; [|lia].
  cbn [negb andb].
  replace (if h =? 0 then 0 else h) with h by (destruct (Z.eqb_spec h 0); lia).
  replace (if m =? 0 then 0 else m) with m by (destruct (Z.eqb_spec m 0); lia).
  replace (if s =? 0 then 0 else s) with s by (destruct (Z.eqb_spec s 0); lia).
  rewrite DayjsFacts.new_Date_valid by done.
  unfold format, YYYY_MM_DD_HH_mm_ss, display.
  cbn [fmap list_fmap format_token String.concat YYYY MM DD hh mm ss].
  replace (M - 1 + 1) with M by lia.
  rewrite DayjsFacts.padStart_four, !DayjsFacts.padStart_two by lia.
  reflexivity.
Qed.

Lemma formatDate_ignores_suffix_witness :
  SaveList.formatDate spring_forward
    {| YYYY := 2026; MM := 10; DD := 2; hh := 9; mm := 30; ss := 0 |}
    "20240229_235959_2"
  = "2024-02-29 23:59:59".
Proof.
  refine (formatDate_ignores_suffix spring_forward _ 2024 2 29 23 59 59 "_2" _ _).
  - unfold valid. change (Dayjs.days_in_month 2024 (2 - 1)) with 29. lia.
  - reflexivity.
Defined.

Lemma exec_digitless r t : digitless t -> exec r t = None.
Proof.
  unfold digitless. induction t as [|c t IH]; intros H.
  - by destruct r.
  - cbn [list_ascii_of_string] in H. apply Forall_cons in H as [Hc H].
    cbn [exec]. rewrite (IH H).
    assert (E : exec_here r (String c t) = None)
      by (destruct r; cbn; by rewrite Hc).
    by rewrite E.
Qed.

(** X18: a timestamp without any decimal digit, the empty string included, is
    shown as [Invalid Date]: the parser's failure is caught, nothing is
    thrown. *)
Theorem formatDate_without_digits tz now t :
  digitless t -> SaveList.formatDate tz now t = "Invalid Date".
Proof.
  intros H. unfold SaveList.formatDate, parseFormattedInput, YYYYMMDD_HHmmss.
  cbn [parser slice]. by rewrite exec_digitless.
Qed.

Lemma formatDate_without_digits_witness :
  SaveList.formatDate spring_forward
    {| YYYY := 2026; MM := 10; DD := 2; hh := 9; mm := 30; ss := 0 |} EmptyString
  = "Invalid Date".
Proof. apply formatDate_without_digits. constructor. Defined.
End FormatDateFacts.
